(** * BlueALSA: PCM control plane and A2DP source I/O threads

    A shallow embedding of the parts of [src/bluealsa-dbus.c] and
    [src/io.c] that carry the PCM control channel, the PCM [Open] method,
    the FIFO read helper, the volume scaling helper and the RTP
    packetisation of the SBC, AAC and LDAC source threads.

    Conventions.
    - C integers are [Z]; every place where the C type wraps is written
      out with [u16], [u32] or [u64].
    - [errno] is threaded explicitly through the calls that consult it.
    - System calls and codec libraries are oracles: each call site takes
      the result the environment delivers as an argument, in source order.
    - One iteration of a thread's [for (;;)] loop is a [step] function from
      the loop variables and the environment's answers to the actions of
      the iteration and the next loop variables; a run is a fold of [step]
      over a list of iterations. *)

From Stdlib Require Import ZArith List Lia Bool String Ascii.
From Stdlib.Strings Require Import Byte.
From Stdlib Require Floats Uint63.
Import ListNotations.

Set Implicit Arguments.
Local Open Scope Z_scope.

(** ** C integer types *)

Definition u16 (x : Z) : Z := x mod 2 ^ 16.
Definition u32 (x : Z) : Z := x mod 2 ^ 32.
Definition u64 (x : Z) : Z := x mod 2 ^ 64.

(** [errno] values (Linux, asm-generic). *)
Definition EINTR : Z := 4.
Definition EBADF : Z := 9.
Definition EAGAIN : Z := 11.
Definition EBUSY : Z := 16.
Definition EPIPE : Z := 32.
Definition ECONNRESET : Z := 104.
Definition ENOTCONN : Z := 107.

(** Modelled from the spec: [enum ba_transport_signal] is declared in a
    header that is not part of the sources; section 4.4 lists the signals
    an I/O thread receives on its pipe. *)
Inductive ba_transport_signal : Type :=
| TRANSPORT_PING
| TRANSPORT_PCM_OPEN
| TRANSPORT_PCM_CLOSE
| TRANSPORT_PCM_PAUSE
| TRANSPORT_PCM_RESUME
| TRANSPORT_PCM_SYNC
| TRANSPORT_PCM_DROP.

(** Modelled from the spec: the states of a transport (section 4.4). *)
Inductive ba_transport_state : Type :=
| TRANSPORT_IDLE
| TRANSPORT_ACTIVE
| TRANSPORT_PAUSED.

(** ** The PCM control channel: [bluealsa_pcm_controller] *)

Module Ctl.

(** [strncmp(s1, s2, n)] on character buffers.  Reading past the end of a
    list yields NUL: for the string literal this is its terminator; the
    command buffer is only ever read below [len], its filled part. *)
Fixpoint strncmp (s1 s2 : list ascii) (n : nat) : Z :=
  match n with
  | O => 0
  | S n' =>
      let c1 := hd Ascii.zero s1 in
      let c2 := hd Ascii.zero s2 in
      if negb (Ascii.eqb c1 c2)
      then Z.of_nat (nat_of_ascii c1) - Z.of_nat (nat_of_ascii c2)
      else if Ascii.eqb c1 Ascii.zero then 0
      else strncmp (tl s1) (tl s2) n'
  end.

(** Modelled from the spec: the keywords [BLUEALSA_PCM_CTRL_*] are defined
    in a header that is not part of the sources; section 6 lists the four
    commands a client sends. *)
Definition BLUEALSA_PCM_CTRL_DRAIN : string := "Drain".
(** Modelled from the spec: see [BLUEALSA_PCM_CTRL_DRAIN]. *)
Definition BLUEALSA_PCM_CTRL_DROP : string := "Drop".
(** Modelled from the spec: see [BLUEALSA_PCM_CTRL_DRAIN]. *)
Definition BLUEALSA_PCM_CTRL_PAUSE : string := "Pause".
(** Modelled from the spec: see [BLUEALSA_PCM_CTRL_DRAIN]. *)
Definition BLUEALSA_PCM_CTRL_RESUME : string := "Resume".

Inductive GIOStatus : Type :=
| G_IO_STATUS_ERROR
| G_IO_STATUS_NORMAL
| G_IO_STATUS_EOF
| G_IO_STATUS_AGAIN.

(** What the handler does to the transport, in call order. *)
Inductive effect : Type :=
| DrainPcm                                    (* ba_transport_drain_pcm *)
| SendSignal (sig : ba_transport_signal)      (* ba_transport_send_signal *)
| SetState (s : ba_transport_state)           (* ba_transport_set_state *)
| ReleasePcm.                                 (* ba_transport_release_pcm *)

Record result : Type := mkResult {
  effects : list effect;
  reply : option string;     (* g_io_channel_write_chars on the channel *)
  keep_watch : bool          (* the gboolean returned to the main loop *)
}.

Definition matches (command : list ascii) (keyword : string) : bool :=
  strncmp command (list_ascii_of_string keyword) (List.length command) =? 0.

(** [status] and [command] are what [g_io_channel_read_chars] delivered:
    [command] holds the [len] characters read (at most 32). *)
Definition bluealsa_pcm_controller (status : GIOStatus) (command : list ascii)
  : result :=
  match status with
  | G_IO_STATUS_ERROR => mkResult [] None true
  | G_IO_STATUS_NORMAL =>
      if matches command BLUEALSA_PCM_CTRL_DRAIN then
        mkResult [DrainPcm] (Some "OK"%string) true
      else if matches command BLUEALSA_PCM_CTRL_DROP then
        mkResult [SendSignal TRANSPORT_PCM_DROP] (Some "OK"%string) true
      else if matches command BLUEALSA_PCM_CTRL_PAUSE then
        mkResult [SetState TRANSPORT_PAUSED; SendSignal TRANSPORT_PCM_PAUSE]
                 (Some "OK"%string) true
      else if matches command BLUEALSA_PCM_CTRL_RESUME then
        mkResult [SetState TRANSPORT_ACTIVE; SendSignal TRANSPORT_PCM_RESUME]
                 (Some "OK"%string) true
      else
        mkResult [] (Some "Invalid"%string) true
  | G_IO_STATUS_AGAIN => mkResult [] None true
  | G_IO_STATUS_EOF =>
      mkResult [ReleasePcm; SendSignal TRANSPORT_PCM_CLOSE] None false
  end.

(** A sequence of frames handled one after the other while the watch is
    installed; the replies are collected in order. *)
Fixpoint session (frames : list (list ascii)) : list (option string) :=
  match frames with
  | [] => []
  | f :: rest =>
      let r := bluealsa_pcm_controller G_IO_STATUS_NORMAL f in
      reply r :: (if keep_watch r then session rest else [])
  end.

Definition payload (s : string) : list ascii := list_ascii_of_string s.

End Ctl.

(** ** Reading the PCM FIFO: [io_thread_read_pcm] *)

Module Fifo.

(** One return of [read(2)]: a byte count, or -1 with [errno] set. *)
Inductive read_outcome : Type :=
| ReadBytes (n : Z)
| ReadFail (errno : Z).

(** The [while ((ret = read(...)) == -1 && errno == EINTR) continue;] loop.
    [outcomes] are the successive returns of [read]; the result is [ret],
    the [errno] left behind and the returns not consumed.  [None]: the
    list ended while the call was still being interrupted. *)
Fixpoint read_retry (outcomes : list read_outcome) (errno : Z)
  : option (Z * Z * list read_outcome) :=
  match outcomes with
  | [] => None
  | ReadBytes n :: rest => Some (n, errno, rest)
  | ReadFail e :: rest =>
      if e =? EINTR then read_retry rest e else Some (-1, e, rest)
  end.

Record read_result : Type := mkRead {
  ret : Z;              (* samples read, 0 or -1 *)
  errno_out : Z;
  released : bool;      (* ba_transport_release_pcm(pcm) was called *)
  pending : list read_outcome
}.

(** [sizeof(int16_t)] *)
Definition sizeof_int16 : Z := 2.

Definition io_thread_read_pcm (outcomes : list read_outcome) (errno : Z)
  : option read_result :=
  match read_retry outcomes errno with
  | None => None
  | Some (ret, errno, rest) =>
      if ret >? 0 then Some (mkRead (ret / sizeof_int16) errno false rest)
      else
        let ret := if errno =? EBADF then 0 else ret in
        if ret =? 0 then Some (mkRead ret errno true rest)
        else Some (mkRead ret errno false rest)
  end.

(** [n] interrupted attempts followed by one final return. *)
Definition interrupted (n : nat) (final : read_outcome) : list read_outcome :=
  repeat (ReadFail EINTR) n ++ [final].

End Fifo.

(** ** Volume scaling: [io_thread_scale_pcm] *)

Module Scale.

Import Floats.
Local Open Scope float_scope.

(** The per-channel software volume of an A2DP transport ([t->a2dp]). *)
Record a2dp_volume : Type := mkVolume {
  ch1_muted : bool;
  ch2_muted : bool;
  ch1_volume : Z;
  ch2_volume : Z
}.

(** Conversion of a C integer to [double] (exact below 2^53). *)
Definition double_of_int (z : Z) : float :=
  if (z <? 0)%Z then - of_uint63 (Uint63.of_Z (- z))
  else of_uint63 (Uint63.of_Z z).

Definition INT16_MIN : Z := -32768.
Definition INT16_MAX : Z := 32767.

Definition saturate (z : Z) : Z := Z.max INT16_MIN (Z.min INT16_MAX z).

(** Conversion of a [double] to [int16_t] with saturation: the fraction
    is discarded, the infinities go to the ends of the range, NaN to 0. *)
Definition int16_of_double (f : float) : Z :=
  match Prim2SF f with
  | S754_zero _ => 0%Z
  | S754_finite neg m e =>
      let a := Z.shiftl (Zpos m) e in
      saturate (if neg then (- a)%Z else a)
  | S754_infinity neg => if neg then INT16_MIN else INT16_MAX
  | S754_nan => 0%Z
  end.

(** Modelled from the spec: what [snd_pcm_scale_s16le] does to one sample.
    Section 4.9: the sample is multiplied by the factor of its channel, on
    16-bit signed PCM, with saturation on overflow. *)
Definition scale_sample (factor : float) (s : Z) : Z :=
  int16_of_double (double_of_int s * factor).

(** Modelled from the spec: the loop of [snd_pcm_scale_s16le] over the
    interleaved samples, channel 1 first, from index [i] on. *)
Fixpoint scale_from (i : nat) (channels : Z) (ch1_scale ch2_scale : float)
  (buffer : list Z) : list Z :=
  match buffer with
  | [] => []
  | s :: rest =>
      let factor :=
        if (channels =? 1)%Z then ch1_scale
        else if Nat.even i then ch1_scale else ch2_scale in
      scale_sample factor s :: scale_from (S i) channels ch1_scale ch2_scale rest
  end.

(** Modelled from the spec: [snd_pcm_scale_s16le] lives in a file that is
    not part of the sources.  Section 4.9: left and right samples are
    multiplied by their factors, in place. *)
Definition snd_pcm_scale_s16le (buffer : list Z) (channels : Z)
  (ch1_scale ch2_scale : float) : list Z :=
  scale_from 0 channels ch1_scale ch2_scale buffer.

Section WithLibm.

(** [pow] of the C library. *)
Variable pow : float -> float -> float.

(** [buffer] holds the [samples] values the call is given. *)
Definition io_thread_scale_pcm (t : a2dp_volume) (buffer : list Z)
  (channels : Z) : list Z :=
  let ch1_scale :=
    if negb (ch1_muted t)
    then pow 10 ((-64 + 64.0 * double_of_int (ch1_volume t) / 127) / 20)
    else 0 in
  let ch2_scale :=
    if negb (ch2_muted t)
    then pow 10 ((-64 + 64.0 * double_of_int (ch2_volume t) / 127) / 20)
    else 0 in
  snd_pcm_scale_s16le buffer channels ch1_scale ch2_scale.

End WithLibm.

(** [n] consecutive integers from [a] on. *)
Fixpoint zrange (a : Z) (n : nat) : list Z :=
  match n with
  | O => []
  | S k => a :: zrange (a + 1)%Z k
  end.

(** All values of [int16_t], in increasing order. *)
Definition all_int16 : list Z := zrange INT16_MIN (Z.to_nat 65536).

Definition is_int16 (s : Z) : Prop := (INT16_MIN <= s <= INT16_MAX)%Z.

(** A stand-in for [pow] that is right at exponent zero, to instantiate
    statements that assume only that much of the C library. *)
Definition pow_at_zero (x y : float) : float :=
  if y =? 0 then 1 else x.

End Scale.

(** ** RTP headers and the BT socket: [io_thread_init_rtp], [io_thread_write_bt] *)

Module Rtp.

(** Modelled from the spec: [RTP_HEADER_LEN] and the two header structs
    come from a header that is not part of the sources.  Section 4.7: a
    12-byte RTP header. *)
Definition RTP_HEADER_LEN : Z := 12.
(** Modelled from the spec: [sizeof(rtp_media_header_t)].  Section 4.7:
    SBC and LDAC add a 1-byte media header. *)
Definition sizeof_rtp_media_header : Z := 1.
(** Modelled from the spec: a store to the [frame_count] bit field.
    Section 4.7: the media header carries the frame count in its low bits
    (four of them, as in A2DP). *)
Definition frame_count_field (n : Z) : Z := n mod 2 ^ 4.

(** Byte order conversions on a little-endian host. *)
Definition htons (x : Z) : Z := (x mod 256) * 256 + (x / 256) mod 256.
Definition ntohs (x : Z) : Z := htons x.
Definition htonl (x : Z) : Z :=
  (x mod 256) * 16777216 + ((x / 256) mod 256) * 65536
  + ((x / 65536) mod 256) * 256 + (x / 16777216) mod 256.
Definition ntohl (x : Z) : Z := htonl x.

(** Modelled from the spec: [rtp_header_t], reduced to the fields the
    threads write (section 4.7: version, payload type, mark bit, sequence
    number, timestamp); the two multi-byte fields hold network byte order,
    as in memory. *)
Record rtp_header_t : Type := mkHeader {
  version : Z;
  paytype : Z;
  markbit : bool;
  seq_number : Z;
  timestamp : Z
}.

(** Modelled from the spec: [rtp_media_header_t], reduced to its frame
    count. *)
Record rtp_media_header_t : Type := mkMedia {
  frame_count : Z
}.

(** [io_thread_init_rtp]: [r1] and [r2] are the two returns of [random()];
    the stores truncate them to the width of the fields. *)
Definition io_thread_init_rtp (r1 r2 : Z) : rtp_header_t * rtp_media_header_t :=
  (mkHeader 2 96 false (u16 r1) (u32 r2), mkMedia 0).

(** One return of [write(2)] on the BT socket.  The socket is SEQPACKET: a
    datagram is taken whole or not at all, so a successful write returns
    the length it was given. *)
Inductive write_outcome : Type :=
| WriteDone
| WriteFail (errno : Z).

(** The environment of one call of [io_thread_write_bt]: the queue depth
    the [TIOCOUTQ] ioctl reports ([None] when it fails) and the successive
    returns of [write]. *)
Record bt_env : Type := mkBtEnv {
  ioctl_outq : option Z;
  write_returns : list write_outcome
}.

(** The [retry:] loop; [Some (ret, errno, coutq)], or [None] when the
    returns end while the call is still retrying. *)
Fixpoint write_retry (returns : list write_outcome) (len errno coutq : Z)
  : option (Z * Z * Z) :=
  match returns with
  | [] => None
  | WriteDone :: _ => Some (len, errno, coutq)
  | WriteFail e :: rest =>
      if e =? EINTR then write_retry rest len e coutq
      else if e =? EAGAIN then write_retry rest len e (1024 * 16)
      else Some (-1, e, coutq)
  end.

Definition io_thread_write_bt (coutq_init : Z) (env : bt_env)
  (len errno coutq : Z) : option (Z * Z * Z) :=
  let coutq :=
    match ioctl_outq env with
    | None => coutq
    | Some q => Z.abs (coutq_init - q)
    end in
  write_retry (write_returns env) len errno coutq.

(** What a call of [io_thread_write_bt] hands to the socket, and how the
    call ended.  [w_pcm_frames] is bookkeeping: the PCM frames the thread
    accounts to this packet when it advances its clock. *)
Record bt_write : Type := mkWrite {
  w_header : rtp_header_t;
  w_media : option rtp_media_header_t;
  w_payload : list byte;
  w_len : Z;
  w_ret : Z;
  w_errno : Z;
  w_pcm_frames : Z
}.

Definition wire_seq (w : bt_write) : Z := ntohs (seq_number (w_header w)).
Definition wire_timestamp (w : bt_write) : Z := ntohl (timestamp (w_header w)).

(** [write] returns for good: some return is neither EINTR nor EAGAIN. *)
Definition write_completes (returns : list write_outcome) : bool :=
  existsb (fun o =>
             match o with
             | WriteDone => true
             | WriteFail e => negb (e =? EINTR) && negb (e =? EAGAIN)
             end) returns.

(** The first return that is not retried is a success. *)
Fixpoint write_succeeds (returns : list write_outcome) : bool :=
  match returns with
  | [] => false
  | WriteDone :: _ => true
  | WriteFail e :: rest =>
      ((e =? EINTR) || (e =? EAGAIN)) && write_succeeds rest
  end.

Section Linked.

(** A header field that counts modulo [m], and what each packet adds. *)
Variable m : Z.
Variable field : bt_write -> Z.
Variable adv : bt_write -> Z.

(** The packets carry [k], [k + adv], ... modulo [m] in this order. *)
Fixpoint linked (k : Z) (l : list bt_write) : Prop :=
  match l with
  | [] => True
  | w :: rest => field w = k mod m /\ linked (k + adv w) rest
  end.

Fixpoint after (k : Z) (l : list bt_write) : Z :=
  match l with
  | [] => k
  | w :: rest => after (k + adv w) rest
  end.

(** Each packet's field is its predecessor's plus the predecessor's
    advance, modulo [m]. *)
Fixpoint paced (l : list bt_write) : Prop :=
  match l with
  | p :: (q :: _) as rest => field q = (field p + adv p) mod m /\ paced rest
  | _ => True
  end.

End Linked.

(** Every packet takes one sequence number. *)
Definition one_each (w : bt_write) : Z := 1.

(** The sequence numbers [s, s+1, ...] modulo 65536. *)
Fixpoint seq_numbers_from (s : Z) (n : nat) : list Z :=
  match n with
  | O => []
  | S k => u16 s :: seq_numbers_from (s + 1) k
  end.

(** Each element is followed by its successor modulo 65536. *)
Fixpoint successive (l : list Z) : Prop :=
  match l with
  | a :: (b :: _) as rest => b = u16 (a + 1) /\ successive rest
  | _ => True
  end.

(** The packets are numbered [s, s+1, ...] modulo 65536 for some [s], and
    so each carries the successor of its predecessor's number. *)
Definition numbered (l : list bt_write) : Prop :=
  (exists s, map wire_seq l = seq_numbers_from s (List.length l)) /\
  successive (map wire_seq l).

End Rtp.

(** ** The linear frame buffer *)

Module Ffb.

(** Modelled from the spec: the buffer macros come from a header that is
    not part of the sources.  Section 4.1: a linear buffer of [size]
    elements with a tail cursor; only the cursor matters here, the
    elements themselves are opaque to the packet headers. *)
Record t : Type := mk {
  size : Z;
  len_out : Z      (* filled elements before the tail *)
}.

(** Modelled from the spec: [init(n)] allocates [n] elements. *)
Definition ffb_init (n : Z) : t := mk n 0.
(** Modelled from the spec: [len_in], the free elements after the tail. *)
Definition ffb_len_in (b : t) : Z := size b - len_out b.
(** Modelled from the spec: [len_out], the filled elements before the tail. *)
Definition ffb_len_out (b : t) : Z := len_out b.
(** Modelled from the spec: [seek(k)] advances the tail by [k]; it fails,
    leaving the buffer as it is, if [k] exceeds the room. *)
Definition ffb_seek (b : t) (k : Z) : t :=
  if k >? ffb_len_in b then b else mk (size b) (len_out b + k).
(** Modelled from the spec: [shift(k)] removes [k] elements from the head. *)
Definition ffb_shift (b : t) (k : Z) : t := mk (size b) (len_out b - k).

End Ffb.

(** ** What the source threads have in common

    The three threads below share the shape of their [for (;;)] loop: a
    [poll] on the signal pipe and the PCM FIFO, the dispatch of a signal,
    a read of the FIFO, then encoding and writing.  The models keep what
    decides the packets and the loop's control flow.  Left out, because
    nothing modelled depends on it: the cancellation state and the
    transport lock, the contents of the PCM samples (and with them the
    volume scaling applied to the samples just read), the [t->delay]
    estimate, and the history of queue depths, which is written and never
    read. *)

Module Io.

(** Return of [poll(pfds, 2, poll_timeout)]. *)
Inductive poll_outcome : Type :=
| PollTimeout                        (* 0 *)
| PollFail (errno : Z)               (* -1 *)
| PollReady (sig_pollin : bool).     (* > 0; [pfds[0].revents & POLLIN] *)

(** Observable actions of a thread, in program order.  The endpoint's
    release and the rate synchroniser live in files that are not part of
    the sources: their calls are recorded, and of the synchroniser only
    its cumulative frame count (section 4.2) is kept in the loop state. *)
Inductive action : Type :=
| CondSignalDrained                  (* pthread_cond_signal(&t->a2dp.drained) *)
| ReadPcmFlush                       (* io_thread_read_pcm_flush *)
| ReleasePcm                         (* ba_transport_release_pcm *)
| RtInit                             (* asrsync_init *)
| RtSync (frames : Z)                (* asrsync_sync *)
| BtWrite (w : Rtp.bt_write).        (* io_thread_write_bt *)

Fixpoint writes (l : list action) : list Rtp.bt_write :=
  match l with
  | [] => []
  | BtWrite w :: rest => w :: writes rest
  | _ :: rest => writes rest
  end.

(** How an iteration of [for (;;)] ends: [continue], a jump to [fail:] or
    [final:], or the environment's answers ran out inside the body. *)
Inductive ending (state : Type) : Type :=
| Continue (st : state)
| Exit (st : state)
| Stuck (st : state).

Arguments Continue {state} st.
Arguments Exit {state} st.
Arguments Stuck {state} st.

Definition final_state {state : Type} (e : ending state) : state :=
  match e with Continue st | Exit st | Stuck st => st end.

(** A run: iterations one after the other until one does not continue. *)
Fixpoint run {state iteration : Type}
  (step : state -> iteration -> list action * ending state)
  (st : state) (its : list iteration) : list action * ending state :=
  match its with
  | [] => ([], Continue st)
  | it :: rest =>
      match step st it with
      | (acts, Continue st') =>
          let (acts', e) := run step st' rest in (acts ++ acts', e)
      | (acts, e) => (acts, e)
      end
  end.

Definition is_disconnect (errno : Z) : bool :=
  (errno =? ECONNRESET) || (errno =? ENOTCONN).

End Io.

(** ** SBC source: [io_thread_a2dp_source_sbc] *)

Module Sbc.

Import Io.

Record config : Type := mkConfig {
  channels : Z;             (* ba_transport_get_channels(t) *)
  samplerate : Z;           (* ba_transport_get_sampling(t) *)
  sbc_pcm_samples : Z;      (* sbc_get_codesize(&sbc) / sizeof(int16_t) *)
  sbc_frame_len : Z;        (* sbc_get_frame_length(&sbc) *)
  keep_alive : Z;           (* config.a2dp.keep_alive *)
  coutq_init : Z            (* t->a2dp.bt_fd_coutq_init *)
}.

(** The loop variables. *)
Record state : Type := mkState {
  rtp_header : Rtp.rtp_header_t;
  rtp_media_header : Rtp.rtp_media_header_t;
  seq_number : Z;           (* uint16_t *)
  timestamp : Z;            (* uint32_t *)
  poll_timeout : Z;
  asrs_frames : Z;
  pcm : Ffb.t;
  bt_size : Z;
  coutq_i : Z;
  errno : Z
}.

(** Set-up before the loop.  [mtu_write] is [t->mtu_write] on entry; the
    second component is its value afterwards. *)
Definition init (cfg : config) (mtu_write r1 r2 errno : Z) : state * Z :=
  let mtu_write_payload :=
    u64 (mtu_write - Rtp.RTP_HEADER_LEN - Rtp.sizeof_rtp_media_header) in
  let mtu_write :=
    if mtu_write_payload <? sbc_frame_len cfg
    then Rtp.RTP_HEADER_LEN + Rtp.sizeof_rtp_media_header + sbc_frame_len cfg
    else mtu_write in
  let pcm :=
    Ffb.ffb_init (u64 (sbc_pcm_samples cfg * (mtu_write_payload / sbc_frame_len cfg))) in
  let (hdr, mhdr) := Rtp.io_thread_init_rtp r1 r2 in
  (mkState hdr mhdr (Rtp.ntohs (Rtp.seq_number hdr)) (Rtp.ntohl (Rtp.timestamp hdr))
           (-1) 0 pcm mtu_write 0 errno,
   mtu_write).

(** One return of [sbc_encode]: the bytes consumed (or a negative error
    code) and the frame it produced; [encoded] is the frame's length. *)
Record sbc_encoded : Type := mkEncoded {
  enc_len : Z;
  enc_frame : list byte
}.

(** The environment's answers during one iteration, in source order. *)
Record iteration : Type := mkIteration {
  it_poll : poll_outcome;
  it_pcm_closed : bool;              (* [t->a2dp.pcm.fd == -1] after a timeout *)
  it_signal : option ba_transport_signal;   (* [None]: the read of the pipe failed *)
  it_reads : list Fifo.read_outcome;
  it_encodes : list sbc_encoded;
  it_write : Rtp.bt_env
}.

(** The variables of the encoding loop. *)
Record encoding : Type := mkEncoding {
  input_len : Z;
  output_len : Z;
  payload : list byte;
  pcm_frames : Z;
  sbc_frames : Z
}.

(** [while (input_len >= sbc_pcm_samples && output_len >= sbc_frame_len)];
    [None] when the encoder's returns end before the loop does. *)
Fixpoint encode_loop (cfg : config) (encodes : list sbc_encoded) (a : encoding)
  : option encoding :=
  if (input_len a >=? sbc_pcm_samples cfg) && (output_len a >=? sbc_frame_len cfg)
  then
    match encodes with
    | [] => None
    | e :: rest =>
        if enc_len e <? 0 then Some a
        else
          let len := enc_len e / Fifo.sizeof_int16 in
          let encoded := Z.of_nat (List.length (enc_frame e)) in
          encode_loop cfg rest
            (mkEncoding (u64 (input_len a - len))
                        (u64 (output_len a - encoded))
                        (payload a ++ enc_frame e)
                        (u64 (pcm_frames a + len / channels cfg))
                        (u64 (sbc_frames a + 1)))
    end
  else Some a.

Definition set_poll_timeout (st : state) (v : Z) : state :=
  mkState (rtp_header st) (rtp_media_header st) (seq_number st) (timestamp st)
          v (asrs_frames st) (pcm st) (bt_size st) (coutq_i st) (errno st).

Definition set_errno (st : state) (v : Z) : state :=
  mkState (rtp_header st) (rtp_media_header st) (seq_number st) (timestamp st)
          (poll_timeout st) (asrs_frames st) (pcm st) (bt_size st) (coutq_i st) v.

(** The part of the body after a successful read of [samples] samples. *)
Definition encode_and_send (cfg : config) (st : state) (it : iteration)
  (samples : Z) : list action * ending state :=
  let init_acts := if asrs_frames st =? 0 then [RtInit] else [] in
  let asrs := asrs_frames st in
  let pcm1 := Ffb.ffb_seek (pcm st) samples in
  let samples := Ffb.ffb_len_out pcm1 in
  let bt_len_out := Rtp.RTP_HEADER_LEN + Rtp.sizeof_rtp_media_header in
  match encode_loop cfg (it_encodes it)
          (mkEncoding samples (bt_size st - bt_len_out) [] 0 0) with
  | None => (init_acts, Stuck st)
  | Some a =>
      let seq := u16 (seq_number st + 1) in
      let hdr :=
        Rtp.mkHeader (Rtp.version (rtp_header st)) (Rtp.paytype (rtp_header st))
                     (Rtp.markbit (rtp_header st))
                     (Rtp.htons seq) (Rtp.htonl (timestamp st)) in
      let mhdr := Rtp.mkMedia (Rtp.frame_count_field (sbc_frames a)) in
      let coutq_i := (coutq_i st + 1) mod 16 in
      let len := bt_len_out + Z.of_nat (List.length (payload a)) in
      match Rtp.io_thread_write_bt (coutq_init cfg) (it_write it) len (errno st) 0 with
      | None =>
          (init_acts,
           Stuck (mkState hdr mhdr seq (timestamp st) (poll_timeout st) asrs
                          pcm1 (bt_size st) coutq_i (errno st)))
      | Some (ret, errno', _) =>
          let w := Rtp.mkWrite hdr (Some mhdr) (payload a) len ret errno'
                               (pcm_frames a) in
          if (ret =? -1) && is_disconnect errno' then
            (init_acts ++ [BtWrite w],
             Exit (mkState hdr mhdr seq (timestamp st) (poll_timeout st) asrs
                           pcm1 (bt_size st) coutq_i errno'))
          else
            let timestamp' :=
              u32 (timestamp st + u64 (pcm_frames a * 10000) / samplerate cfg) in
            (init_acts ++ [BtWrite w; RtSync (pcm_frames a)],
             Continue (mkState hdr mhdr seq timestamp' (poll_timeout st)
                               (asrs + pcm_frames a)
                               (Ffb.ffb_shift pcm1 (u64 (samples - input_len a)))
                               (bt_size st) coutq_i errno'))
      end
  end.

(** From [io_thread_read_pcm] to the end of the body. *)
Definition read_and_send (cfg : config) (st : state) (it : iteration)
  : list action * ending state :=
  match Fifo.io_thread_read_pcm (it_reads it) (errno st) with
  | None => ([], Stuck st)
  | Some r =>
      let rel := if Fifo.released r then [ReleasePcm] else [] in
      let st := set_errno st (Fifo.errno_out r) in
      if Fifo.ret r =? 0 then
        (rel, Continue (set_poll_timeout st (keep_alive cfg * 1000)))
      else if Fifo.ret r =? -1 then
        if Fifo.errno_out r =? EAGAIN then (rel, Continue st) else (rel, Exit st)
      else
        let (acts, e) := encode_and_send cfg st it (Fifo.ret r) in
        (rel ++ acts, e)
  end.

(** One iteration of the [for (;;)] loop. *)
Definition step (cfg : config) (st : state) (it : iteration)
  : list action * ending state :=
  match it_poll it with
  | PollTimeout =>
      let st := set_poll_timeout st (-1) in
      ([CondSignalDrained], if it_pcm_closed it then Exit st else Continue st)
  | PollFail e =>
      let st := set_errno st e in
      if e =? EINTR then ([], Continue st) else ([], Exit st)
  | PollReady true =>
      match it_signal it with
      | Some TRANSPORT_PCM_OPEN | Some TRANSPORT_PCM_RESUME =>
          ([], Continue (mkState (rtp_header st) (rtp_media_header st)
                                 (seq_number st) (timestamp st) (-1) 0 (pcm st)
                                 (bt_size st) (coutq_i st) (errno st)))
      | Some TRANSPORT_PCM_CLOSE => read_and_send cfg st it
      | Some TRANSPORT_PCM_SYNC => ([], Continue (set_poll_timeout st 100))
      | Some TRANSPORT_PCM_DROP => ([ReadPcmFlush], Continue st)
      | _ => ([], Continue st)
      end
  | PollReady false => read_and_send cfg st it
  end.

Definition run (cfg : config) : state -> list iteration -> list action * ending state :=
  Io.run (step cfg).

(** What the thread adds to its timestamp after a packet, as computed in
    C, and the plain quotient [F * 10000 / R]. *)
Definition advance (cfg : config) (w : Rtp.bt_write) : Z :=
  u64 (Rtp.w_pcm_frames w * 10000) / samplerate cfg.

Definition cadence (cfg : config) (w : Rtp.bt_write) : Z :=
  Rtp.w_pcm_frames w * 10000 / samplerate cfg.

Definition timestamp_in_range (st : state) : Prop :=
  0 <= timestamp st < 2 ^ 32.

End Sbc.

(** ** AAC source: [io_thread_a2dp_source_aac] *)

Module Aac.

Import Io.

Record config : Type := mkConfig {
  channels : Z;             (* ba_transport_get_channels(t) *)
  samplerate : Z;           (* ba_transport_get_sampling(t) *)
  mtu_write : Z;            (* t->mtu_write *)
  keep_alive : Z;           (* config.a2dp.keep_alive *)
  coutq_init : Z            (* t->a2dp.bt_fd_coutq_init *)
}.

Record state : Type := mkState {
  rtp_header : Rtp.rtp_header_t;
  seq_number : Z;           (* uint16_t *)
  timestamp : Z;            (* uint32_t *)
  poll_timeout : Z;
  asrs_frames : Z;
  pcm : Ffb.t;
  coutq_i : Z;
  errno : Z
}.

(** Set-up before the loop; [input_channels], [frame_length] are the
    encoder's [aacinf] fields. *)
Definition init (input_channels frame_length r1 r2 errno : Z) : state :=
  let hdr := fst (Rtp.io_thread_init_rtp r1 r2) in
  mkState hdr (Rtp.ntohs (Rtp.seq_number hdr)) (Rtp.ntohl (Rtp.timestamp hdr))
          (-1) 0 (Ffb.ffb_init (input_channels * frame_length)) 0 errno.

(** [out_args] after one call of [aacEncEncode], with the bitstream the
    call left at [rtp_payload]; [numOutBytes] is the bitstream's length. *)
Record aac_encoded : Type := mkEncoded {
  numInSamples : Z;
  bitstream : list byte
}.

Definition numOutBytes (e : aac_encoded) : Z := Z.of_nat (List.length (bitstream e)).

(** One round of the inner [while]: the encoder's answer and one
    environment for each call of [io_thread_write_bt]. *)
Record round : Type := mkRound {
  r_encoded : aac_encoded;
  r_writes : list Rtp.bt_env
}.

Record iteration : Type := mkIteration {
  it_poll : poll_outcome;
  it_pcm_closed : bool;
  it_signal : option ba_transport_signal;
  it_reads : list Fifo.read_outcome;
  it_rounds : list round
}.

(** What the fragmentation loop changes. *)
Record sender : Type := mkSender {
  s_header : Rtp.rtp_header_t;
  s_seq_number : Z;
  s_coutq_i : Z;
  s_errno : Z
}.

Inductive frag_end : Type :=
| FragDone            (* left by one of the two [break]s *)
| FragDisconnected    (* [goto fail] *)
| FragStuck.

Definition payload_len_max (cfg : config) : Z :=
  u64 (mtu_write cfg - Rtp.RTP_HEADER_LEN).

(** The [for (;;)] loop that spreads one encoded payload over RTP
    packets.  [buffer] is the memory at [rtp_payload], [payload_len] the
    number of bytes still to send, [frames] the PCM frames of the round. *)
Fixpoint fragment_loop (cfg : config) (envs : list Rtp.bt_env) (s : sender)
  (buffer : list byte) (payload_len frames : Z)
  : list Rtp.bt_write * (frag_end * sender) :=
  match envs with
  | [] => ([], (FragStuck, s))
  | env :: rest =>
      let len :=
        if payload_len >? payload_len_max cfg then payload_len_max cfg
        else payload_len in
      let seq := u16 (s_seq_number s + 1) in
      let hdr :=
        Rtp.mkHeader (Rtp.version (s_header s)) (Rtp.paytype (s_header s))
                     (payload_len <=? payload_len_max cfg)
                     (Rtp.htons seq) (Rtp.timestamp (s_header s)) in
      let coutq_i := (s_coutq_i s + 1) mod 16 in
      match Rtp.io_thread_write_bt (coutq_init cfg) env
              (Rtp.RTP_HEADER_LEN + len) (s_errno s) 0 with
      | None => ([], (FragStuck, mkSender hdr seq coutq_i (s_errno s)))
      | Some (ret, errno', _) =>
          let w := Rtp.mkWrite hdr None (firstn (Z.to_nat len) buffer)
                               (Rtp.RTP_HEADER_LEN + len) ret errno' frames in
          let s' := mkSender hdr seq coutq_i errno' in
          if ret =? -1 then
            ([w], (if is_disconnect errno' then FragDisconnected else FragDone, s'))
          else
            let ret := ret - Rtp.RTP_HEADER_LEN in
            let payload_len := u64 (payload_len - ret) in
            if payload_len =? 0 then ([w], (FragDone, s'))
            else
              let (ws, r) :=
                fragment_loop cfg rest s' (skipn (Z.to_nat ret) buffer)
                              payload_len frames in
              (w :: ws, r)
      end
  end.

Definition set_poll_timeout (st : state) (v : Z) : state :=
  mkState (rtp_header st) (seq_number st) (timestamp st) v (asrs_frames st)
          (pcm st) (coutq_i st) (errno st).

Definition set_errno (st : state) (v : Z) : state :=
  mkState (rtp_header st) (seq_number st) (timestamp st) (poll_timeout st)
          (asrs_frames st) (pcm st) (coutq_i st) v.

(** [unsigned int frames = out_args.numInSamples / channels] *)
Definition round_frames (cfg : config) (e : aac_encoded) : Z :=
  u32 (numInSamples e) / channels cfg.

(** The header with the timestamp of the round stored in it. *)
Definition stamp (st : state) : Rtp.rtp_header_t :=
  Rtp.mkHeader (Rtp.version (rtp_header st)) (Rtp.paytype (rtp_header st))
               (Rtp.markbit (rtp_header st)) (Rtp.seq_number (rtp_header st))
               (Rtp.htonl (timestamp st)).

(** One round of [while ((in_args.numInSamples = ffb_len_out(&pcm)) > 0)]. *)
Definition encode_round (cfg : config) (st : state) (r : round)
  : list action * ending state :=
  let e := r_encoded r in
  let frames := round_frames cfg e in
  let (ws, fr) :=
    if numOutBytes e >? 0 then
      fragment_loop cfg (r_writes r)
        (mkSender (stamp st) (seq_number st) (coutq_i st) (errno st))
        (bitstream e) (numOutBytes e) frames
    else ([], (FragDone,
               mkSender (rtp_header st) (seq_number st) (coutq_i st) (errno st))) in
  let (fe, s) := fr in
  let sent := mkState (s_header s) (s_seq_number s) (timestamp st)
                      (poll_timeout st) (asrs_frames st) (pcm st)
                      (s_coutq_i s) (s_errno s) in
  match fe with
  | FragStuck => (map BtWrite ws, Stuck sent)
  | FragDisconnected => (map BtWrite ws, Exit sent)
  | FragDone =>
      (map BtWrite ws ++ [RtSync frames],
       Continue (mkState (s_header s) (s_seq_number s)
                         (u32 (timestamp st + u32 (frames * 10000) / samplerate cfg))
                         (poll_timeout st) (asrs_frames st + frames)
                         (Ffb.ffb_shift (pcm st) (numInSamples e))
                         (s_coutq_i s) (s_errno s)))
  end.

Fixpoint encode_rounds (cfg : config) (rounds : list round) (st : state)
  : list action * ending state :=
  if Ffb.ffb_len_out (pcm st) >? 0 then
    match rounds with
    | [] => ([], Stuck st)
    | r :: rest =>
        match encode_round cfg st r with
        | (acts, Continue st') =>
            let (acts', e) := encode_rounds cfg rest st' in (acts ++ acts', e)
        | (acts, e) => (acts, e)
        end
    end
  else ([], Continue st).

Definition read_and_send (cfg : config) (st : state) (it : iteration)
  : list action * ending state :=
  match Fifo.io_thread_read_pcm (it_reads it) (errno st) with
  | None => ([], Stuck st)
  | Some r =>
      let rel := if Fifo.released r then [ReleasePcm] else [] in
      let st := set_errno st (Fifo.errno_out r) in
      if Fifo.ret r =? 0 then
        (rel, Continue (set_poll_timeout st (keep_alive cfg * 1000)))
      else if Fifo.ret r =? -1 then
        if Fifo.errno_out r =? EAGAIN then (rel, Continue st) else (rel, Exit st)
      else
        let init_acts := if asrs_frames st =? 0 then [RtInit] else [] in
        let st := mkState (rtp_header st) (seq_number st) (timestamp st)
                          (poll_timeout st) (asrs_frames st)
                          (Ffb.ffb_seek (pcm st) (Fifo.ret r))
                          (coutq_i st) (errno st) in
        let (acts, e) := encode_rounds cfg (it_rounds it) st in
        (rel ++ init_acts ++ acts, e)
  end.

Definition step (cfg : config) (st : state) (it : iteration)
  : list action * ending state :=
  match it_poll it with
  | PollTimeout =>
      let st := set_poll_timeout st (-1) in
      ([CondSignalDrained], if it_pcm_closed it then Exit st else Continue st)
  | PollFail e =>
      let st := set_errno st e in
      if e =? EINTR then ([], Continue st) else ([], Exit st)
  | PollReady true =>
      match it_signal it with
      | Some TRANSPORT_PCM_OPEN | Some TRANSPORT_PCM_RESUME =>
          ([], Continue (mkState (rtp_header st) (seq_number st) (timestamp st)
                                 (-1) 0 (pcm st) (coutq_i st) (errno st)))
      | Some TRANSPORT_PCM_CLOSE => read_and_send cfg st it
      | Some TRANSPORT_PCM_SYNC => ([], Continue (set_poll_timeout st 100))
      | Some TRANSPORT_PCM_DROP => ([ReadPcmFlush], Continue st)
      | _ => ([], Continue st)
      end
  | PollReady false => read_and_send cfg st it
  end.

Definition run (cfg : config) : state -> list iteration -> list action * ending state :=
  Io.run (step cfg).

(** The payload cut into pieces of at most [n] bytes; [fuel] bounds the
    number of pieces. *)
Fixpoint chunks (fuel : nat) (n : nat) (payload : list byte) : list (list byte) :=
  match fuel with
  | O => []
  | S fuel' =>
      if (List.length payload <=? n)%nat then [payload]
      else firstn n payload :: chunks fuel' n (skipn n payload)
  end.

(** The socket takes the packet: [write] succeeds, at once or after
    interrupted and would-block attempts. *)
Definition accepts (env : Rtp.bt_env) : Prop :=
  Rtp.write_succeeds (Rtp.write_returns env) = true.

(** What the thread adds to its timestamp after a packet: nothing
    between the fragments of a payload, the round's advance after the
    marked one; as computed in C, and with the plain quotient. *)
Definition advance (cfg : config) (w : Rtp.bt_write) : Z :=
  if Rtp.markbit (Rtp.w_header w)
  then u32 (Rtp.w_pcm_frames w * 10000) / samplerate cfg
  else 0.

Definition cadence (cfg : config) (w : Rtp.bt_write) : Z :=
  if Rtp.markbit (Rtp.w_header w)
  then Rtp.w_pcm_frames w * 10000 / samplerate cfg
  else 0.

Definition timestamp_in_range (st : state) : Prop :=
  0 <= timestamp st < 2 ^ 32.

(** The fragments of one payload: all but the last are full and unmarked,
    the last is marked and not empty. *)
Fixpoint fragmented (max : Z) (ws : list Rtp.bt_write) : Prop :=
  match ws with
  | [] => False
  | w :: rest =>
      match rest with
      | [] =>
          Rtp.markbit (Rtp.w_header w) = true /\
          0 < Z.of_nat (List.length (Rtp.w_payload w)) <= max
      | _ :: _ =>
          Rtp.markbit (Rtp.w_header w) = false /\
          Z.of_nat (List.length (Rtp.w_payload w)) = max /\
          fragmented max rest
      end
  end.

(** What every fragment of a payload has in common. *)
Definition fragment_of (s : sender) (frames : Z) (w : Rtp.bt_write) : Prop :=
  Rtp.timestamp (Rtp.w_header w) = Rtp.timestamp (s_header s) /\
  Rtp.w_pcm_frames w = frames /\
  Rtp.w_media w = None /\
  Rtp.w_len w = Rtp.RTP_HEADER_LEN + Z.of_nat (List.length (Rtp.w_payload w)) /\
  Rtp.w_ret w = Rtp.w_len w.


End Aac.

(** ** LDAC source: [io_thread_a2dp_source_ldac] *)

Module Ldac.

Import Io.

Record config : Type := mkConfig {
  channels : Z;             (* ba_transport_get_channels(t) *)
  samplerate : Z;           (* ba_transport_get_sampling(t) *)
  ldac_pcm_samples : Z;     (* LDACBT_ENC_LSU * channels *)
  keep_alive : Z;           (* config.a2dp.keep_alive *)
  coutq_init : Z            (* t->a2dp.bt_fd_coutq_init *)
}.

Record state : Type := mkState {
  rtp_header : Rtp.rtp_header_t;
  rtp_media_header : Rtp.rtp_media_header_t;
  seq_number : Z;           (* uint16_t *)
  timestamp : Z;            (* uint32_t *)
  ts_frames : Z;            (* size_t *)
  coutq : Z;
  poll_timeout : Z;
  asrs_frames : Z;
  pcm : Ffb.t;
  errno : Z
}.

Definition init (cfg : config) (r1 r2 errno : Z) : state :=
  let (hdr, mhdr) := Rtp.io_thread_init_rtp r1 r2 in
  mkState hdr mhdr (Rtp.ntohs (Rtp.seq_number hdr)) (Rtp.ntohl (Rtp.timestamp hdr))
          0 0 (-1) 0 (Ffb.ffb_init (ldac_pcm_samples cfg)) errno.

(** One return of [ldacBT_encode]: the return code, the bytes of PCM
    used, the bytes written at [bt.tail] and the frame number. *)
Record ldac_encoded : Type := mkEncoded {
  enc_rc : Z;
  enc_len : Z;
  enc_out : list byte;
  enc_frames : Z
}.

Record iteration : Type := mkIteration {
  it_poll : poll_outcome;
  it_pcm_closed : bool;
  it_signal : option ba_transport_signal;
  it_reads : list Fifo.read_outcome;
  it_encodes : list (ldac_encoded * Rtp.bt_env)
}.

(** [while (input_len >= ldac_pcm_samples)]; the result carries the
    [input_len] the loop ended with. *)
Fixpoint encode_loop (cfg : config) (encodes : list (ldac_encoded * Rtp.bt_env))
  (st : state) (input_len : Z) : list action * (ending state * Z) :=
  if input_len >=? ldac_pcm_samples cfg then
    match encodes with
    | [] => ([], (Stuck st, input_len))
    | (e, env) :: rest =>
        if negb (enc_rc e =? 0) then ([], (Continue st, input_len))
        else
          let mhdr := Rtp.mkMedia (Rtp.frame_count_field (enc_frames e)) in
          let frames := enc_len e / Fifo.sizeof_int16 in
          let input_len := u64 (input_len - frames) in
          let encoded := Z.of_nat (List.length (enc_out e)) in
          let len := Rtp.RTP_HEADER_LEN + Rtp.sizeof_rtp_media_header + encoded in
          let ts_frames' := u64 (ts_frames st + frames) in
          let sent :=
            if encoded =? 0 then Some ([], (0, errno st, coutq st))
            else
              match Rtp.io_thread_write_bt (coutq_init cfg) env len
                      (errno st) (coutq st) with
              | None => None
              | Some (ret, errno', coutq') =>
                  Some ([Rtp.mkWrite (rtp_header st) (Some mhdr) (enc_out e) len
                                     ret errno' (ts_frames' / channels cfg)],
                        (ret, errno', coutq'))
              end in
          match sent with
          | None =>
              ([], (Stuck (mkState (rtp_header st) mhdr (seq_number st)
                                   (timestamp st) (ts_frames st) (coutq st)
                                   (poll_timeout st) (asrs_frames st) (pcm st)
                                   (errno st)), input_len))
          | Some (ws, (ret, errno', coutq')) =>
              if (ret =? -1) && is_disconnect errno' then
                (map BtWrite ws,
                 (Exit (mkState (rtp_header st) mhdr (seq_number st)
                                (timestamp st) (ts_frames st) coutq'
                                (poll_timeout st) (asrs_frames st) (pcm st)
                                errno'), input_len))
              else
                let sync := frames / channels cfg in
                let st' :=
                  if encoded =? 0 then
                    mkState (rtp_header st) mhdr (seq_number st) (timestamp st)
                            ts_frames' coutq' (poll_timeout st)
                            (asrs_frames st + sync) (pcm st) errno'
                  else
                    let timestamp' :=
                      u32 (timestamp st
                           + u64 (ts_frames' / channels cfg * 10000) / samplerate cfg) in
                    let seq := u16 (seq_number st + 1) in
                    mkState (Rtp.mkHeader (Rtp.version (rtp_header st))
                                          (Rtp.paytype (rtp_header st))
                                          (Rtp.markbit (rtp_header st))
                                          (Rtp.htons seq) (Rtp.htonl timestamp'))
                            mhdr seq timestamp' 0 coutq' (poll_timeout st)
                            (asrs_frames st + sync) (pcm st) errno' in
                let (acts, r) := encode_loop cfg rest st' input_len in
                (map BtWrite ws ++ RtSync sync :: acts, r)
          end
    end
  else ([], (Continue st, input_len)).

Definition set_poll_timeout (st : state) (v : Z) : state :=
  mkState (rtp_header st) (rtp_media_header st) (seq_number st) (timestamp st)
          (ts_frames st) (coutq st) v (asrs_frames st) (pcm st) (errno st).

Definition set_errno (st : state) (v : Z) : state :=
  mkState (rtp_header st) (rtp_media_header st) (seq_number st) (timestamp st)
          (ts_frames st) (coutq st) (poll_timeout st) (asrs_frames st) (pcm st) v.

Definition set_pcm (st : state) (b : Ffb.t) : state :=
  mkState (rtp_header st) (rtp_media_header st) (seq_number st) (timestamp st)
          (ts_frames st) (coutq st) (poll_timeout st) (asrs_frames st) b (errno st).

Definition read_and_send (cfg : config) (st : state) (it : iteration)
  : list action * ending state :=
  match Fifo.io_thread_read_pcm (it_reads it) (errno st) with
  | None => ([], Stuck st)
  | Some r =>
      let rel := if Fifo.released r then [ReleasePcm] else [] in
      let st := set_errno st (Fifo.errno_out r) in
      if Fifo.ret r =? 0 then
        (rel, Continue (set_poll_timeout st (keep_alive cfg * 1000)))
      else if Fifo.ret r =? -1 then
        if Fifo.errno_out r =? EAGAIN then (rel, Continue st) else (rel, Exit st)
      else
        let init_acts := if asrs_frames st =? 0 then [RtInit] else [] in
        let pcm1 := Ffb.ffb_seek (pcm st) (Fifo.ret r) in
        let samples := Ffb.ffb_len_out pcm1 in
        match encode_loop cfg (it_encodes it) (set_pcm st pcm1) samples with
        | (acts, (Continue st', input_len)) =>
            (rel ++ init_acts ++ acts,
             Continue (set_pcm st' (Ffb.ffb_shift pcm1 (u64 (samples - input_len)))))
        | (acts, (e, _)) => (rel ++ init_acts ++ acts, e)
        end
  end.

Definition step (cfg : config) (st : state) (it : iteration)
  : list action * ending state :=
  match it_poll it with
  | PollTimeout =>
      let st := set_poll_timeout st (-1) in
      ([CondSignalDrained], if it_pcm_closed it then Exit st else Continue st)
  | PollFail e =>
      let st := set_errno st e in
      if e =? EINTR then ([], Continue st) else ([], Exit st)
  | PollReady true =>
      match it_signal it with
      | Some TRANSPORT_PCM_OPEN | Some TRANSPORT_PCM_RESUME =>
          ([], Continue (mkState (rtp_header st) (rtp_media_header st)
                                 (seq_number st) (timestamp st) (ts_frames st)
                                 (coutq st) (-1) 0 (pcm st) (errno st)))
      | Some TRANSPORT_PCM_CLOSE => read_and_send cfg st it
      | Some TRANSPORT_PCM_SYNC => ([], Continue (set_poll_timeout st 100))
      | Some TRANSPORT_PCM_DROP => ([ReadPcmFlush], Continue st)
      | _ => ([], Continue st)
      end
  | PollReady false => read_and_send cfg st it
  end.

Definition run (cfg : config) : state -> list iteration -> list action * ending state :=
  Io.run (step cfg).

(** The header in memory holds the number of the next packet. *)
Definition header_in_step (st : state) : Prop :=
  Rtp.ntohs (Rtp.seq_number (rtp_header st)) = seq_number st /\
  0 <= seq_number st < 65536.


(** What the thread adds to its timestamp after a packet, as computed in
    C, and the plain quotient [F * 10000 / R]. *)
Definition advance (cfg : config) (w : Rtp.bt_write) : Z :=
  u64 (Rtp.w_pcm_frames w * 10000) / samplerate cfg.

Definition cadence (cfg : config) (w : Rtp.bt_write) : Z :=
  Rtp.w_pcm_frames w * 10000 / samplerate cfg.

End Ldac.

(** ** The PCM [Open] method: [bluealsa_pcm_open] *)

Module Dbus.

(** Modelled from the spec: the profile constants [BA_TRANSPORT_PROFILE_*]
    come from a header that is not part of the sources.  Section 3 lists
    the profiles; a transport has exactly one, so the bit tests of the
    code are tests for one profile. *)
Inductive profile : Type :=
| A2DP_SOURCE | A2DP_SINK | HSP_AG | HSP_HS | HFP_AG | HFP_HF | RFCOMM.

(** Modelled from the spec: the macro is not part of the sources; the SCO
    profiles are the four telephony ones (section 3, glossary). *)
Definition IS_BA_TRANSPORT_PROFILE_SCO (p : profile) : bool :=
  match p with
  | HSP_AG | HSP_HS | HFP_AG | HFP_HF => true
  | _ => false
  end.

(** [profile & BA_TRANSPORT_PROFILE_A2DP_SOURCE], also
    [profile == BA_TRANSPORT_PROFILE_A2DP_SOURCE]. *)
Definition is_a2dp_source (p : profile) : bool :=
  match p with A2DP_SOURCE => true | _ => false end.

(** [profile & BA_TRANSPORT_PROFILE_A2DP_SINK] *)
Definition is_a2dp_sink (p : profile) : bool :=
  match p with A2DP_SINK => true | _ => false end.

(** Modelled from the spec: the constant is not part of the sources;
    section 3 has "undefined" among the SCO codecs.  Its numeric value
    plays no role. *)
Definition HFP_CODEC_UNDEFINED : Z := 0.

(** Modelled from the spec: the two mode strings of [Open] (section 6). *)
Definition BLUEALSA_PCM_MODE_SOURCE : string := "source".
(** Modelled from the spec: see [BLUEALSA_PCM_MODE_SOURCE]. *)
Definition BLUEALSA_PCM_MODE_SINK : string := "sink".

(** The fields of [struct ba_transport] the method reads or writes: the
    FIFO descriptors of its three PCM endpoints among them. *)
Record ba_transport : Type := mkTransport {
  t_profile : profile;
  t_codec : Z;
  t_state : ba_transport_state;
  a2dp_pcm_fd : Z;
  sco_spk_pcm_fd : Z;
  sco_mic_pcm_fd : Z
}.

(** [&t->a2dp.pcm], [&t->sco.spk_pcm], [&t->sco.mic_pcm] *)
Inductive pcm_ref : Type := A2dpPcm | SpkPcm | MicPcm.

Definition pcm_fd (t : ba_transport) (p : pcm_ref) : Z :=
  match p with
  | A2dpPcm => a2dp_pcm_fd t
  | SpkPcm => sco_spk_pcm_fd t
  | MicPcm => sco_mic_pcm_fd t
  end.

Definition set_pcm_fd (t : ba_transport) (p : pcm_ref) (fd : Z) : ba_transport :=
  match p with
  | A2dpPcm => mkTransport (t_profile t) (t_codec t) (t_state t)
                           fd (sco_spk_pcm_fd t) (sco_mic_pcm_fd t)
  | SpkPcm => mkTransport (t_profile t) (t_codec t) (t_state t)
                          (a2dp_pcm_fd t) fd (sco_mic_pcm_fd t)
  | MicPcm => mkTransport (t_profile t) (t_codec t) (t_state t)
                          (a2dp_pcm_fd t) (sco_spk_pcm_fd t) fd
  end.

Inductive gdbus_error : Type :=
| G_DBUS_ERROR_INVALID_ARGS
| G_DBUS_ERROR_FAILED
| G_DBUS_ERROR_NOT_SUPPORTED.

(** The texts of the error replies; [strerror] stays symbolic. *)
Inductive message : Type :=
| InvalidOperationMode (mode : string)
| HfpCodecNotSelected
| OperationModeNotSupported
| Strerror (errno : Z)
| CreatePipe (errno : Z)
| SetupPipe (errno : Z)
| AcquireTransport (errno : Z).

Inductive reply : Type :=
| ReturnError (code : gdbus_error) (msg : message)
| ReturnFds (data_fd ctrl_fd : Z).

Definition is_error (r : reply) : bool :=
  match r with ReturnError _ _ => true | ReturnFds _ _ => false end.

(** System calls on descriptors, in program order.  The kernel hands out
    descriptors that are natural numbers. *)
Inductive syscall : Type :=
| SysPipe2 (r : option (N * N))
| SysSocketpair (r : option (N * N))
| SysFcntl (fd : Z) (ret : Z)
| SysClose (fd : Z).

(** What the environment answers during one call. *)
Record open_env : Type := mkEnv {
  pipe2_ret : option (N * N);        (* [None]: -1 *)
  socketpair_ret : option (N * N);   (* [None]: -1 *)
  fcntl_ret : Z;
  acquire_ret : Z;                   (* t->acquire(t) *)
  env_errno : Z
}.

Record outcome : Type := mkOutcome {
  o_reply : reply;
  o_transport : ba_transport;
  o_syscalls : list syscall;
  o_signals : list ba_transport_signal;   (* ba_transport_send_signal *)
  o_acquired : bool;                      (* t->acquire(t) was called *)
  o_watch : option Z                      (* descriptor given to the controller *)
}.

(** The choice of the endpoint, up to the test [pcm == NULL]. *)
Inductive selection : Type :=
| Selected (p : pcm_ref)
| InvalidMode
| CodecNotSelected
| NotSupported.

Definition select_pcm (t : ba_transport) (mode : string) : selection :=
  let is_source := String.eqb mode BLUEALSA_PCM_MODE_SOURCE in
  if negb is_source && negb (String.eqb mode BLUEALSA_PCM_MODE_SINK)
  then InvalidMode
  else if (is_source && is_a2dp_source (t_profile t))
          || (negb is_source && is_a2dp_sink (t_profile t))
  then Selected A2dpPcm
  else if IS_BA_TRANSPORT_PROFILE_SCO (t_profile t) then
    if t_codec t =? HFP_CODEC_UNDEFINED then CodecNotSelected
    else Selected (if is_source then SpkPcm else MicPcm)
  else NotSupported.

(** The loop at [fail:] over [pcm_fds]. *)
Definition cleanup (pcm_fds : list Z) : list syscall :=
  map SysClose (filter (fun fd => negb (fd =? -1)) pcm_fds).

Definition fail (t : ba_transport) (code : gdbus_error) (msg : message)
  (pcm_fds : list Z) (done : list syscall) (signals : list ba_transport_signal)
  (acquired : bool) : outcome :=
  mkOutcome (ReturnError code msg) t (done ++ cleanup pcm_fds) signals acquired None.

Definition bluealsa_pcm_open (t : ba_transport) (mode : string) (env : open_env)
  : outcome :=
  let pcm_fds := [-1; -1; -1; -1] in
  let is_source := String.eqb mode BLUEALSA_PCM_MODE_SOURCE in
  match select_pcm t mode with
  | InvalidMode =>
      fail t G_DBUS_ERROR_INVALID_ARGS (InvalidOperationMode mode) pcm_fds [] [] false
  | CodecNotSelected =>
      fail t G_DBUS_ERROR_FAILED HfpCodecNotSelected pcm_fds [] [] false
  | NotSupported =>
      fail t G_DBUS_ERROR_NOT_SUPPORTED OperationModeNotSupported pcm_fds [] [] false
  | Selected pcm =>
      if negb (pcm_fd t pcm =? -1) then
        fail t G_DBUS_ERROR_FAILED (Strerror EBUSY) pcm_fds [] [] false
      else
        match pipe2_ret env with
        | None =>
            fail t G_DBUS_ERROR_FAILED (CreatePipe (env_errno env)) pcm_fds
                 [SysPipe2 None] [] false
        | Some (p0, p1) =>
            let pcm_fds := [Z.of_N p0; Z.of_N p1; -1; -1] in
            match socketpair_ret env with
            | None =>
                fail t G_DBUS_ERROR_FAILED (CreatePipe (env_errno env)) pcm_fds
                     [SysPipe2 (Some (p0, p1)); SysSocketpair None] [] false
            | Some (s0, s1) =>
                let pcm_fds := [Z.of_N p0; Z.of_N p1; Z.of_N s0; Z.of_N s1] in
                let created := [SysPipe2 (Some (p0, p1));
                                SysSocketpair (Some (s0, s1))] in
                let fd := nth (if is_source then 0%nat else 1%nat) pcm_fds (-1) in
                let t := set_pcm_fd t pcm fd in
                let calls := created ++ [SysFcntl fd (fcntl_ret env)] in
                if fcntl_ret env =? -1 then
                  fail t G_DBUS_ERROR_FAILED (SetupPipe (env_errno env)) pcm_fds
                       calls [] false
                else if is_a2dp_source (t_profile t) && (acquire_ret env =? -1) then
                  fail t G_DBUS_ERROR_FAILED (AcquireTransport (env_errno env))
                       pcm_fds calls [TRANSPORT_PCM_OPEN] true
                else
                  mkOutcome
                    (ReturnFds (nth (if is_source then 1%nat else 0%nat) pcm_fds (-1))
                               (nth 3%nat pcm_fds (-1)))
                    t calls [TRANSPORT_PCM_OPEN]
                    (is_a2dp_source (t_profile t))
                    (Some (nth 2%nat pcm_fds (-1)))
            end
        end
  end.

(** The descriptors a trace creates and the descriptors it closes. *)
Fixpoint created (calls : list syscall) : list Z :=
  match calls with
  | [] => []
  | SysPipe2 (Some (a, b)) :: rest => Z.of_N a :: Z.of_N b :: created rest
  | SysSocketpair (Some (a, b)) :: rest => Z.of_N a :: Z.of_N b :: created rest
  | _ :: rest => created rest
  end.

Fixpoint closed (calls : list syscall) : list Z :=
  match calls with
  | [] => []
  | SysClose fd :: rest => fd :: closed rest
  | _ :: rest => closed rest
  end.

End Dbus.

(** ** Writing the PCM FIFO: [io_thread_write_pcm] *)

Module Pcm.

(** One return of [write(2)] on the FIFO: the bytes taken, or -1 with
    [errno] set. *)
Inductive write_outcome : Type :=
| Written (n : Z)
| WriteFail (errno : Z).

Record write_result : Type := mkWritten {
  ret : Z;                 (* [samples], 0 or -1 *)
  errno_out : Z;           (* as the last failed [write] left it *)
  released : bool;         (* ba_transport_release_pcm(pcm) was called *)
  polls : nat;             (* calls of poll(&pfd, 1, -1) *)
  sent : list byte;        (* what the FIFO took, in order *)
  pending : list write_outcome
}.

(** The bytes a [write(fd, head, len)] that returns [n] takes from
    [buffer], [head] being an offset into it. *)
Definition taken_bytes (buffer : list byte) (head len n : Z) : list byte :=
  firstn (Z.to_nat n) (firstn (Z.to_nat len) (skipn (Z.to_nat head) buffer)).

(** The [do { ... } while (len != 0);] loop.  A [continue] in its body
    jumps to the test of [len != 0].  [None]: the returns of [write] end
    while the loop is still running. *)
Fixpoint write_loop (returns : list write_outcome) (buffer : list byte)
  (samples head len errno : Z) (polls : nat) (sent : list byte)
  : option write_result :=
  match returns with
  | [] => None
  | Written n :: rest =>
      let sent := sent ++ taken_bytes buffer head len n in
      let head := head + n in
      let len := u64 (len - n) in
      if len =? 0 then Some (mkWritten samples errno false polls sent rest)
      else write_loop rest buffer samples head len errno polls sent
  | WriteFail e :: rest =>
      if e =? EINTR then
        if len =? 0 then Some (mkWritten samples e false polls sent rest)
        else write_loop rest buffer samples head len e polls sent
      else if e =? EAGAIN then
        if len =? 0 then Some (mkWritten samples e false (S polls) sent rest)
        else write_loop rest buffer samples head len e (S polls) sent
      else if e =? EPIPE then Some (mkWritten 0 e true polls sent rest)
      else Some (mkWritten (-1) e false polls sent rest)
  end.

(** [buffer] is the sample buffer seen as bytes, as the cast to
    [uint8_t *] has it. *)
Definition io_thread_write_pcm (returns : list write_outcome)
  (buffer : list byte) (samples errno : Z) : option write_result :=
  write_loop returns buffer samples 0 (u64 (samples * Fifo.sizeof_int16))
             errno 0 [].

(** [write(2)] keeps its contract: it takes between 0 and [len] bytes of
    the [len] it is offered. *)
Fixpoint honest (returns : list write_outcome) (len : Z) : Prop :=
  match returns with
  | [] => True
  | Written n :: rest => 0 <= n <= len /\ honest rest (len - n)
  | WriteFail _ :: rest => honest rest len
  end.

(** The bytes the successful returns add up to. *)
Fixpoint taken (returns : list write_outcome) : Z :=
  match returns with
  | [] => 0
  | Written n :: rest => n + taken rest
  | WriteFail _ :: rest => taken rest
  end.

(** Every failure is one the loop retries. *)
Definition retried (o : write_outcome) : Prop :=
  match o with
  | Written _ => True
  | WriteFail e => e = EINTR \/ e = EAGAIN
  end.

End Pcm.

(** ** Runs of a loop, whatever it emits *)

Module Loop.

Import Io.

(** [Io.run] for a thread with events of its own: iterations one after
    the other until one does not continue. *)
Fixpoint run {event state iteration : Type}
  (step : state -> iteration -> list event * ending state)
  (st : state) (its : list iteration) : list event * ending state :=
  match its with
  | [] => ([], Continue st)
  | it :: rest =>
      match step st it with
      | (evs, Continue st') =>
          let (evs', e) := run step st' rest in (evs ++ evs', e)
      | (evs, e) => (evs, e)
      end
  end.

End Loop.

(** ** A2DP sink threads: [io_thread_a2dp_sink_sbc], [io_thread_a2dp_sink_aac]

    The two threads share their loop up to the check of the sequence
    number.  A datagram is modelled as the thread reads it from [bt.data]:
    an RTP header, the CSRC entries and what follows them; a datagram
    shorter than its own header is outside the model.  [errno] is not
    threaded: the threads consult it only to log a call that failed.  The
    samples handed to the FIFO are the decoder's, after
    [io_thread_scale_pcm]. *)

Module Sink.

Import Io.

Record packet : Type := mkPacket {
  p_header : Rtp.rtp_header_t;
  p_cc : Z;                            (* rtp_header->cc *)
  p_media : Rtp.rtp_media_header_t;    (* SBC: the byte behind csrc[cc] *)
  p_payload : list byte                (* SBC: behind the media header;
                                          AAC: behind csrc[cc] *)
}.

(** Return of [read(pfds[1].fd, bt.tail, ffb_len_in(&bt))]. *)
Inductive bt_read : Type :=
| BtPacket (p : packet)     (* > 0 *)
| BtClosed                  (* 0 *)
| BtFail (errno : Z).       (* -1 *)

Inductive event : Type :=
| WarnPaytype (paytype : Z)         (* "Unsupported RTP payload type" *)
| WarnMissing (got expected : Z)    (* "Missing RTP packet" *)
| WarnQuirk                         (* "Activating RTP mark bit quirk workaround" *)
| Decode (input : list byte)        (* sbc_decode, aacDecoder_Fill *)
| WritePcm (samples ret : Z)        (* io_thread_write_pcm and its return *)
| CloseBt.                          (* close(pfds[1].fd); t->bt_fd = -1 *)

(** [uint16_t seq_number = -1;] *)
Definition seq_number_init : Z := u16 (-1).

(** The check of the sequence number: [seq_number] is the thread's
    counter, [field] the header's field as stored. *)
Definition track_seq (seq_number field : Z) : list event * Z :=
  let _seq_number := Rtp.ntohs field in
  let seq_number := u16 (seq_number + 1) in
  if negb (seq_number =? _seq_number) then
    (if negb (seq_number =? 0) then [WarnMissing _seq_number seq_number] else [],
     _seq_number)
  else ([], seq_number).

(** One return of [sbc_decode]: the bytes consumed (or a negative error
    code) and the samples left in [pcm.data]; [decoded] is their size. *)
Record sbc_decoded : Type := mkDecoded {
  dec_len : Z;
  dec_pcm : list byte
}.

(** [while (frames--)]: each round takes one answer of the decoder and the
    returns of [write] for the call of [io_thread_write_pcm]. *)
Fixpoint decode_loop (frames : nat)
  (decodes : list (sbc_decoded * list Pcm.write_outcome)) (payload : list byte)
  : option (list event) :=
  match frames with
  | O => Some []
  | S frames' =>
      match decodes with
      | [] => None
      | (d, returns) :: rest =>
          if dec_len d <? 0 then Some [Decode payload]
          else
            let samples := Z.of_nat (List.length (dec_pcm d)) / Fifo.sizeof_int16 in
            match Pcm.io_thread_write_pcm returns (dec_pcm d) samples 0 with
            | None => None
            | Some r =>
                match decode_loop frames' rest
                        (skipn (Z.to_nat (dec_len d)) payload) with
                | None => None
                | Some evs =>
                    Some (Decode payload :: WritePcm samples (Pcm.ret r) :: evs)
                end
            end
      end
  end.

Record sbc_iteration : Type := mkSbcIteration {
  sk_poll : poll_outcome;
  sk_read : bt_read;
  sk_pcm_fd : Z;                       (* t->a2dp.pcm.fd *)
  sk_decodes : list (sbc_decoded * list Pcm.write_outcome)
}.

(** One iteration of the SBC thread's [for (;;)]; the loop variable is
    [seq_number].  [payloadcheck] is [ENABLE_PAYLOADCHECK]. *)
Definition sbc_step (payloadcheck : bool) (seq_number : Z) (it : sbc_iteration)
  : list event * ending Z :=
  match sk_poll it with
  | PollFail e =>
      if e =? EINTR then ([], Continue seq_number) else ([], Exit seq_number)
  | PollReady true => ([], Continue seq_number)
  | _ =>
      match sk_read it with
      | BtFail _ => ([], Continue seq_number)
      | BtClosed => ([CloseBt], Exit seq_number)
      | BtPacket p =>
          if sk_pcm_fd it =? -1 then ([], Continue (u16 (-1)))
          else if payloadcheck && (Rtp.paytype (p_header p) <? 96) then
            ([WarnPaytype (Rtp.paytype (p_header p))], Continue seq_number)
          else
            let (warn, seq_number) :=
              track_seq seq_number (Rtp.seq_number (p_header p)) in
            match decode_loop (Z.to_nat (Rtp.frame_count (p_media p)))
                    (sk_decodes it) (p_payload p) with
            | None => (warn, Stuck seq_number)
            | Some evs => (warn ++ evs, Continue seq_number)
            end
      end
  end.

Definition sbc_run (payloadcheck : bool)
  : Z -> list sbc_iteration -> list event * ending Z :=
  Loop.run (sbc_step payloadcheck).

(** Modelled from the spec: [rewind()] sets the tail to 0 (section 4.1). *)
Definition ffb_rewind (b : Ffb.t) : Ffb.t := Ffb.mk (Ffb.size b) 0.

(** The decoder's answers for one access unit: whether [aacDecoder_Fill]
    and [aacDecoder_DecodeFrame] return [AAC_DEC_OK], the [frameSize] and
    [numChannels] of [aacDecoder_GetStreamInfo] ([None]: it returns
    [NULL]), the samples left in [pcm.data] and the returns of [write]. *)
Record aac_decoded : Type := mkAacDecoded {
  fill_ok : bool;
  frame_ok : bool;
  stream_info : option (Z * Z);
  aac_pcm : list byte;
  aac_returns : list Pcm.write_outcome
}.

(** The loop variables of the AAC thread. *)
Record aac_state : Type := mkAacState {
  a_seq_number : Z;         (* uint16_t *)
  markbit_quirk : Z;        (* int *)
  latm : Ffb.t;
  latm_data : list byte     (* the memory at [latm.data] *)
}.

Definition aac_init (mtu_read : Z) : aac_state :=
  mkAacState seq_number_init (-3) (Ffb.ffb_init mtu_read) [].

Record aac_iteration : Type := mkAacIteration {
  ak_poll : poll_outcome;
  ak_read : bt_read;
  ak_pcm_fd : Z;                       (* t->a2dp.pcm.fd *)
  ak_decoded : aac_decoded
}.

(** [if (markbit_quirk < 0) { ... }] *)
Definition track_markbit (quirk : Z) (markbit : bool) : list event * Z :=
  if quirk <? 0 then
    if markbit then ([], 0)
    else if quirk + 1 =? 0 then ([WarnQuirk], 1)
    else ([], quirk + 1)
  else ([], quirk).

(** The resize of the LATM buffer, the [memcpy] to its tail and the
    [ffb_seek] that follows. *)
Definition latm_append (mtu_read : Z) (b : Ffb.t) (data payload : list byte)
  : Ffb.t * list byte :=
  let rtp_latm_len := Z.of_nat (List.length payload) in
  let b :=
    if Ffb.ffb_len_in b <? rtp_latm_len then
      let prev_len := Ffb.ffb_len_out b in
      Ffb.ffb_seek (Ffb.ffb_init (Ffb.size b + mtu_read)) prev_len
    else b in
  let tail := Z.to_nat (Ffb.ffb_len_out b) in
  (Ffb.ffb_seek b rtp_latm_len,
   firstn tail data ++ payload ++ skipn (tail + List.length payload) data).

(** The body of the loop from the mark bit quirk on: [p] is the datagram
    read, [d] what the decoder will answer. *)
Definition aac_packet (mtu_read : Z) (st : aac_state) (p : packet)
  (d : aac_decoded) : list event * ending aac_state :=
  let markbit := Rtp.markbit (p_header p) in
  let (warn_quirk, quirk) := track_markbit (markbit_quirk st) markbit in
  let (warn_seq, seq_number) :=
    track_seq (a_seq_number st) (Rtp.seq_number (p_header p)) in
  let (b, data) := latm_append mtu_read (latm st) (latm_data st) (p_payload p) in
  let warn := warn_quirk ++ warn_seq in
  let kept := mkAacState seq_number quirk b data in
  if negb (quirk =? 1) && negb markbit then (warn, Continue kept)
  else
    let input := firstn (Z.to_nat (u32 (Ffb.ffb_len_out b))) data in
    if negb (fill_ok d) then (warn ++ [Decode input], Continue kept)
    else if negb (frame_ok d) then (warn ++ [Decode input], Continue kept)
    else
      match stream_info d with
      | None => (warn ++ [Decode input], Continue kept)
      | Some (frameSize, numChannels) =>
          let samples := u64 (frameSize * numChannels) in
          match Pcm.io_thread_write_pcm (aac_returns d) (aac_pcm d) samples 0 with
          | None => (warn ++ [Decode input], Stuck kept)
          | Some r =>
              (warn ++ [Decode input; WritePcm samples (Pcm.ret r)],
               Continue (mkAacState seq_number quirk (ffb_rewind b) data))
          end
      end.

(** One iteration of the AAC thread's [for (;;)]. *)
Definition aac_step (payloadcheck : bool) (mtu_read : Z) (st : aac_state)
  (it : aac_iteration) : list event * ending aac_state :=
  match ak_poll it with
  | PollFail e => if e =? EINTR then ([], Continue st) else ([], Exit st)
  | PollReady true => ([], Continue st)
  | _ =>
      match ak_read it with
      | BtFail _ => ([], Continue st)
      | BtClosed => ([CloseBt], Exit st)
      | BtPacket p =>
          if ak_pcm_fd it =? -1 then
            ([], Continue (mkAacState (u16 (-1)) (markbit_quirk st) (latm st)
                                      (latm_data st)))
          else if payloadcheck && (Rtp.paytype (p_header p) <? 96) then
            ([WarnPaytype (Rtp.paytype (p_header p))], Continue st)
          else aac_packet mtu_read st p (ak_decoded it)
      end
  end.

Definition aac_run (payloadcheck : bool) (mtu_read : Z)
  : aac_state -> list aac_iteration -> list event * ending aac_state :=
  Loop.run (aac_step payloadcheck mtu_read).

(** The datagram of an iteration, when the thread gets as far as the
    check of its sequence number. *)
Definition received (payloadcheck : bool) (poll : poll_outcome) (rd : bt_read)
  (pcm_fd : Z) : option packet :=
  match poll with
  | PollFail _ | PollReady true => None
  | _ =>
      match rd with
      | BtPacket p =>
          if pcm_fd =? -1 then None
          else if payloadcheck && (Rtp.paytype (p_header p) <? 96) then None
          else Some p
      | _ => None
      end
  end.

Fixpoint somes {A : Type} (l : list (option A)) : list A :=
  match l with
  | [] => []
  | Some a :: rest => a :: somes rest
  | None :: rest => somes rest
  end.

Definition sbc_received (payloadcheck : bool) (its : list sbc_iteration)
  : list packet :=
  somes (map (fun it => received payloadcheck (sk_poll it) (sk_read it)
                                 (sk_pcm_fd it)) its).

Definition aac_received (payloadcheck : bool) (its : list aac_iteration)
  : list packet :=
  somes (map (fun it => received payloadcheck (ak_poll it) (ak_read it)
                                 (ak_pcm_fd it)) its).

(** The sequence number of a datagram, in host byte order. *)
Definition number (p : packet) : Z := Rtp.ntohs (Rtp.seq_number (p_header p)).

Definition is_missing (e : event) : bool :=
  match e with WarnMissing _ _ => true | _ => false end.

(** The LATM buffer holds [acc] and nothing else. *)
Definition latm_holds (st : aac_state) (acc : list byte) : Prop :=
  0 <= Ffb.ffb_len_out (latm st) <= Ffb.size (latm st) /\
  Ffb.ffb_len_out (latm st) = Z.of_nat (List.length acc) /\
  firstn (List.length acc) (latm_data st) = acc.

(** The iterations read the datagrams [ps], one each, and get as far as
    the check of the sequence number with every one. *)
Definition aac_reads (payloadcheck : bool) (its : list aac_iteration)
  (ps : list packet) : Prop :=
  Forall2 (fun it p => received payloadcheck (ak_poll it) (ak_read it)
                                (ak_pcm_fd it) = Some p) its ps.

(** What the decoder was given, call by call. *)
Fixpoint decoder_inputs (evs : list event) : list (list byte) :=
  match evs with
  | [] => []
  | Decode input :: rest => input :: decoder_inputs rest
  | _ :: rest => decoder_inputs rest
  end.

(** A datagram written by a source thread, as a sink reads it: the source
    threads write no CSRC entries. *)
Definition packet_of (w : Rtp.bt_write) : packet :=
  mkPacket (Rtp.w_header w) 0
           (match Rtp.w_media w with Some m => m | None => Rtp.mkMedia 0 end)
           (Rtp.w_payload w).

End Sink.

(** ** aptX source: [io_thread_a2dp_source_aptx]

    The thread has the loop of the other source threads; its datagrams
    carry code words only, without an RTP header.  The write buffer is
    rewound at the end of every round of the outer loop, so each round
    starts with an empty buffer of [mtu_write] bytes. *)

Module Aptx.

Import Io.

Record config : Type := mkConfig {
  channels : Z;             (* ba_transport_get_channels(t), unsigned int *)
  mtu_write : Z;            (* t->mtu_write *)
  keep_alive : Z;           (* config.a2dp.keep_alive *)
  coutq_init : Z            (* t->a2dp.bt_fd_coutq_init *)
}.

(** [4 * channels], in [unsigned int]. *)
Definition block (cfg : config) : Z := u32 (4 * channels cfg).

(** [const size_t aptx_pcm_samples = 4 * channels;] *)
Definition aptx_pcm_samples (cfg : config) : Z := block cfg.

(** [const size_t aptx_code_len = 2 * sizeof(uint16_t);] *)
Definition aptx_code_len : Z := 4.

(** One call of [io_thread_write_bt]. *)
Record bt_write : Type := mkWrite {
  x_len : Z;                (* ffb_len_out(&bt) *)
  x_ret : Z;
  x_errno : Z;
  x_pcm_frames : Z          (* what asrsync_sync is given after it *)
}.

Inductive event : Type :=
| CondSignalDrained                  (* pthread_cond_signal(&t->a2dp.drained) *)
| ReadPcmFlush                       (* io_thread_read_pcm_flush *)
| ReleasePcm                         (* ba_transport_release_pcm *)
| RtInit                             (* asrsync_init *)
| RtSync (frames : Z)                (* asrsync_sync *)
| BtWrite (w : bt_write).            (* io_thread_write_bt *)

Fixpoint writes (l : list event) : list bt_write :=
  match l with
  | [] => []
  | BtWrite w :: rest => w :: writes rest
  | _ :: rest => writes rest
  end.

(** The loop variables. *)
Record state : Type := mkState {
  poll_timeout : Z;
  asrs_frames : Z;
  pcm : Ffb.t;
  coutq_i : Z;
  errno : Z
}.

Definition init (cfg : config) (errno : Z) : state :=
  mkState (-1) 0
          (Ffb.ffb_init (u64 (aptx_pcm_samples cfg * (mtu_write cfg / aptx_code_len))))
          0 errno.

(** One round of the outer loop: for each call of
    [aptxbtenc_encodestereo] whether it returned 0, and the environment
    of the call of [io_thread_write_bt]. *)
Record round : Type := mkRound {
  r_encodes : list bool;
  r_write : Rtp.bt_env
}.

Record iteration : Type := mkIteration {
  it_poll : poll_outcome;
  it_pcm_closed : bool;              (* [t->a2dp.pcm.fd == -1] after a timeout *)
  it_signal : option ba_transport_signal;
  it_reads : list Fifo.read_outcome;
  it_rounds : list round
}.

(** The variables of the inner loop. *)
Record encoding : Type := mkEncoding {
  input_len : Z;
  output_len : Z;
  bt : Ffb.t;
  pcm_frames : Z
}.

(** [while (input_len >= aptx_pcm_samples && output_len >= aptx_code_len)];
    [None] when the encoder's returns end before the loop does. *)
Fixpoint fill (cfg : config) (encodes : list bool) (a : encoding) : option encoding :=
  if (input_len a >=? aptx_pcm_samples cfg) && (output_len a >=? aptx_code_len)
  then
    match encodes with
    | [] => None
    | ok :: rest =>
        if negb ok then Some a
        else
          fill cfg rest
               (mkEncoding (u64 (input_len a - block cfg))
                           (u64 (output_len a - aptx_code_len))
                           (Ffb.ffb_seek (bt a) aptx_code_len)
                           (u64 (pcm_frames a + 4)))
    end
  else Some a.

Definition set_poll_timeout (st : state) (v : Z) : state :=
  mkState v (asrs_frames st) (pcm st) (coutq_i st) (errno st).

Definition set_errno (st : state) (v : Z) : state :=
  mkState (poll_timeout st) (asrs_frames st) (pcm st) (coutq_i st) v.

(** [while (input_len >= aptx_pcm_samples)]: [len_in] is [input_len] on
    entry, and the result carries the [input_len] the loop ended with. *)
Fixpoint encode_rounds (cfg : config) (rounds : list round) (st : state)
  (len_in : Z) : list event * (ending state * Z) :=
  if len_in >=? aptx_pcm_samples cfg then
    match rounds with
    | [] => ([], (Stuck st, len_in))
    | r :: rest =>
        let bt0 := Ffb.ffb_init (mtu_write cfg) in
        match fill cfg (r_encodes r)
                (mkEncoding len_in (Ffb.ffb_len_in bt0) bt0 0) with
        | None => ([], (Stuck st, len_in))
        | Some a =>
            let coutq_i := (coutq_i st + 1) mod 16 in
            let len := Ffb.ffb_len_out (bt a) in
            match Rtp.io_thread_write_bt (coutq_init cfg) (r_write r) len
                    (errno st) 0 with
            | None =>
                ([], (Stuck (mkState (poll_timeout st) (asrs_frames st) (pcm st)
                                     coutq_i (errno st)), input_len a))
            | Some (ret, errno', _) =>
                let w := mkWrite len ret errno' (pcm_frames a) in
                if (ret =? -1) && is_disconnect errno' then
                  ([BtWrite w],
                   (Exit (mkState (poll_timeout st) (asrs_frames st) (pcm st)
                                  coutq_i errno'), input_len a))
                else
                  let st' := mkState (poll_timeout st)
                                     (asrs_frames st + pcm_frames a) (pcm st)
                                     coutq_i errno' in
                  let (evs, res) := encode_rounds cfg rest st' (input_len a) in
                  (BtWrite w :: RtSync (pcm_frames a) :: evs, res)
            end
        end
    end
  else ([], (Continue st, len_in)).

(** From [io_thread_read_pcm] to the end of the body. *)
Definition read_and_send (cfg : config) (st : state) (it : iteration)
  : list event * ending state :=
  match Fifo.io_thread_read_pcm (it_reads it) (errno st) with
  | None => ([], Stuck st)
  | Some r =>
      let rel := if Fifo.released r then [ReleasePcm] else [] in
      let st := set_errno st (Fifo.errno_out r) in
      if Fifo.ret r =? 0 then
        (rel, Continue (set_poll_timeout st (keep_alive cfg * 1000)))
      else if Fifo.ret r =? -1 then
        if Fifo.errno_out r =? EAGAIN then (rel, Continue st) else (rel, Exit st)
      else
        let init_acts := if asrs_frames st =? 0 then [RtInit] else [] in
        let pcm1 := Ffb.ffb_seek (pcm st) (Fifo.ret r) in
        let samples := Ffb.ffb_len_out pcm1 in
        let st := mkState (poll_timeout st) (asrs_frames st) pcm1 (coutq_i st)
                          (errno st) in
        match encode_rounds cfg (it_rounds it) st samples with
        | (evs, (Continue st', len_left)) =>
            (rel ++ init_acts ++ evs,
             Continue (mkState (poll_timeout st') (asrs_frames st')
                               (Ffb.ffb_shift pcm1 (u64 (samples - len_left)))
                               (coutq_i st') (errno st')))
        | (evs, (e, _)) => (rel ++ init_acts ++ evs, e)
        end
  end.

(** One iteration of the [for (;;)] loop. *)
Definition step (cfg : config) (st : state) (it : iteration)
  : list event * ending state :=
  match it_poll it with
  | PollTimeout =>
      let st := set_poll_timeout st (-1) in
      ([CondSignalDrained], if it_pcm_closed it then Exit st else Continue st)
  | PollFail e =>
      let st := set_errno st e in
      if e =? EINTR then ([], Continue st) else ([], Exit st)
  | PollReady true =>
      match it_signal it with
      | Some TRANSPORT_PCM_OPEN | Some TRANSPORT_PCM_RESUME =>
          ([], Continue (mkState (-1) 0 (pcm st) (coutq_i st) (errno st)))
      | Some TRANSPORT_PCM_CLOSE => read_and_send cfg st it
      | Some TRANSPORT_PCM_SYNC => ([], Continue (set_poll_timeout st 100))
      | Some TRANSPORT_PCM_DROP => ([ReadPcmFlush], Continue st)
      | _ => ([], Continue st)
      end
  | PollReady false => read_and_send cfg st it
  end.

Definition run (cfg : config) : state -> list iteration -> list event * ending state :=
  Loop.run (step cfg).

(** [read(2)] on the FIFO returns a byte count that is not negative. *)
Definition reads_honest (it : iteration) : Prop :=
  Forall (fun o => match o with
                   | Fifo.ReadBytes n => 0 <= n
                   | Fifo.ReadFail _ => True
                   end) (it_reads it).

(** Less than one block of samples waits in the PCM buffer. *)
Definition no_block_waiting (cfg : config) (st : state) : Prop :=
  0 <= Ffb.ffb_len_out (pcm st) < aptx_pcm_samples cfg.

End Aptx.

(** ** Starting a thread: [io_thread_create] *)

Module Create.

Import Dbus.

(** Modelled from the spec: the A2DP codec ids come from a header that is
    not part of the sources; section 4.8 has the codecs with a flow of
    their own, every other id is [OtherCodec]. *)
Inductive a2dp_codec : Type :=
| A2DP_CODEC_SBC
| A2DP_CODEC_MPEG12
| A2DP_CODEC_MPEG24
| A2DP_CODEC_VENDOR_APTX
| A2DP_CODEC_VENDOR_LDAC
| OtherCodec.

(** The build options the function depends on. *)
Record build : Type := mkBuild {
  ENABLE_MPEG : bool;
  ENABLE_AAC : bool;
  ENABLE_APTX : bool;
  ENABLE_LDAC : bool
}.

Inductive routine : Type :=
| rfcomm_thread
| io_thread_sco
| io_thread_a2dp_source_sbc
| io_thread_a2dp_source_aac
| io_thread_a2dp_source_aptx
| io_thread_a2dp_source_ldac
| io_thread_a2dp_sink_sbc
| io_thread_a2dp_sink_aac.

Inductive event : Type :=
| WarnCodec                       (* warn("Codec not supported: %u") *)
| TransportRef                    (* ba_transport_ref(t) *)
| TransportUnref                  (* ba_transport_unref(t) *)
| ThreadCreate (r : routine) (ret : Z)   (* pthread_create and its return *)
| ThreadReset.                    (* t->thread = config.main_thread *)

(** The choice of [routine]; a [case] that is compiled out falls to
    [default]. *)
Definition select_routine (b : build) (p : profile) (codec : a2dp_codec)
  : option routine * list event :=
  match p with
  | RFCOMM => (Some rfcomm_thread, [])
  | HSP_AG | HSP_HS | HFP_AG | HFP_HF => (Some io_thread_sco, [])
  | A2DP_SOURCE =>
      match codec with
      | A2DP_CODEC_SBC => (Some io_thread_a2dp_source_sbc, [])
      | A2DP_CODEC_MPEG12 => if ENABLE_MPEG b then (None, []) else (None, [WarnCodec])
      | A2DP_CODEC_MPEG24 =>
          if ENABLE_AAC b then (Some io_thread_a2dp_source_aac, [])
          else (None, [WarnCodec])
      | A2DP_CODEC_VENDOR_APTX =>
          if ENABLE_APTX b then (Some io_thread_a2dp_source_aptx, [])
          else (None, [WarnCodec])
      | A2DP_CODEC_VENDOR_LDAC =>
          if ENABLE_LDAC b then (Some io_thread_a2dp_source_ldac, [])
          else (None, [WarnCodec])
      | OtherCodec => (None, [WarnCodec])
      end
  | A2DP_SINK =>
      match codec with
      | A2DP_CODEC_SBC => (Some io_thread_a2dp_sink_sbc, [])
      | A2DP_CODEC_MPEG12 => if ENABLE_MPEG b then (None, []) else (None, [WarnCodec])
      | A2DP_CODEC_MPEG24 =>
          if ENABLE_AAC b then (Some io_thread_a2dp_sink_aac, [])
          else (None, [WarnCodec])
      | _ => (None, [WarnCodec])
      end
  end.

(** [io_thread_create]: [pthread_create_ret] is what [pthread_create]
    returns when it is called; the result is the function's return and
    the events. *)
Definition io_thread_create (b : build) (p : profile) (codec : a2dp_codec)
  (pthread_create_ret : Z) : Z * list event :=
  match select_routine b p codec with
  | (None, evs) => (-1, evs)
  | (Some r, evs) =>
      if negb (pthread_create_ret =? 0) then
        (-1, evs ++ [TransportRef; ThreadCreate r pthread_create_ret;
                     ThreadReset; TransportUnref])
      else (0, evs ++ [TransportRef; ThreadCreate r pthread_create_ret])
  end.

(** The reference count after the events, from [n]. *)
Fixpoint refs (n : Z) (evs : list event) : Z :=
  match evs with
  | [] => n
  | TransportRef :: rest => refs (n + 1) rest
  | TransportUnref :: rest => refs (n - 1) rest
  | _ :: rest => refs n rest
  end.

(** The thread left running by the events, if any. *)
Fixpoint running (evs : list event) : option routine :=
  match evs with
  | [] => None
  | ThreadCreate r ret :: rest =>
      if ret =? 0 then Some r else running rest
  | _ :: rest => running rest
  end.

(** The routine works in the direction of the profile. *)
Definition serves (r : routine) (p : profile) : bool :=
  match r, p with
  | rfcomm_thread, RFCOMM => true
  | io_thread_sco, (HSP_AG | HSP_HS | HFP_AG | HFP_HF) => true
  | (io_thread_a2dp_source_sbc | io_thread_a2dp_source_aac
     | io_thread_a2dp_source_aptx | io_thread_a2dp_source_ldac), A2DP_SOURCE => true
  | (io_thread_a2dp_sink_sbc | io_thread_a2dp_sink_aac), A2DP_SINK => true
  | _, _ => false
  end.

End Create.

(** ** Streams: what a source writes and a sink reads *)

Module Stream.

(** The part of an RTP header a thread never changes. *)
Definition same_kind (h h' : Rtp.rtp_header_t) : Prop :=
  Rtp.version h' = Rtp.version h /\
  Rtp.paytype h' = Rtp.paytype h /\
  Rtp.markbit h' = Rtp.markbit h.

(** An SBC packet: the RTP header, the media header and the frames. *)
Definition sbc_packet (h : Rtp.rtp_header_t) (w : Rtp.bt_write) : Prop :=
  same_kind h (Rtp.w_header w) /\
  (exists m, Rtp.w_media w = Some m) /\
  Rtp.w_len w = Rtp.RTP_HEADER_LEN + Rtp.sizeof_rtp_media_header
                + Z.of_nat (List.length (Rtp.w_payload w)).

(** The encoder's frames are no longer than [sbc_get_frame_length] says. *)
Definition frames_fit (cfg : Sbc.config) (it : Sbc.iteration) : Prop :=
  Forall (fun e => Z.of_nat (List.length (Sbc.enc_frame e)) <= Sbc.sbc_frame_len cfg)
         (Sbc.it_encodes it).

(** The socket took the datagram whole. *)
Definition taken (w : Rtp.bt_write) : Prop := Rtp.w_ret w = Rtp.w_len w.

(** Among the actions is a write that failed because the BT socket is
    disconnected. *)
Definition fatal_write (acts : list Io.action) : Prop :=
  exists w, In (Io.BtWrite w) acts /\
            Rtp.w_ret w = -1 /\ Io.is_disconnect (Rtp.w_errno w) = true.

(** Why an iteration of a source thread may leave the loop: what [poll]
    returned and whether the PCM was closed then, what the read of the
    FIFO returned, and what the thread did. *)
Definition exit_cause (poll : Io.poll_outcome) (pcm_closed : bool)
  (reads : list Fifo.read_outcome) (errno : Z) (acts : list Io.action) : Prop :=
  (poll = Io.PollTimeout /\ pcm_closed = true) \/
  (exists e, poll = Io.PollFail e /\ e <> EINTR) \/
  (exists r, Fifo.io_thread_read_pcm reads errno = Some r /\
             Fifo.ret r = -1 /\ Fifo.errno_out r <> EAGAIN) \/
  fatal_write acts.

(** The three calls of the AAC decoder all succeed: [aacDecoder_Fill],
    [aacDecoder_DecodeFrame] and [aacDecoder_GetStreamInfo]. *)
Definition decoded_ok (d : Sink.aac_decoded) : bool :=
  Sink.fill_ok d && Sink.frame_ok d &&
  match Sink.stream_info d with Some _ => true | None => false end.

(** The socket took the packet: [io_thread_write_bt] did not return -1. *)
Definition on_wire (w : Rtp.bt_write) : bool := negb (Rtp.w_ret w =? -1).

(** The socket refused the packet. *)
Definition refused (w : Rtp.bt_write) : Prop := Rtp.w_ret w = -1.

(** The packets written to the BT socket: of the packets a thread handed
    to [io_thread_write_bt], those the socket did not refuse. *)
Definition written (acts : list Io.action) : list Rtp.bt_write :=
  filter on_wire (Io.writes acts).

(** The numbering of the packets [l] handed to [io_thread_write_bt], in
    order: they carry [s, s+1, ...]; hence two of them with nothing but
    refused packets in between are one apart, plus one for every refused
    packet; and when none is refused, the packets written are numbered
    without a gap. *)
Definition numbered_through_refusals (l : list Rtp.bt_write) : Prop :=
  Rtp.numbered l /\
  (forall pre a mid b post,
     l = pre ++ a :: mid ++ b :: post -> Forall refused mid ->
     Rtp.wire_seq b = u16 (Rtp.wire_seq a + 1 + Z.of_nat (List.length mid))) /\
  (Forall (fun w => on_wire w = true) l -> Rtp.numbered (filter on_wire l)).

(** A fragment that is not the last of its payload and that the socket
    took: [max] bytes of payload, mark bit clear. *)
Definition full_fragment (max : Z) (w : Rtp.bt_write) : Prop :=
  taken w /\ Rtp.markbit (Rtp.w_header w) = false /\
  Z.of_nat (List.length (Rtp.w_payload w)) = max.

(** The iteration gets as far as the read of the FIFO: [poll] reports
    data and no signal, or the signal is [TRANSPORT_PCM_CLOSE]. *)
Definition reaches_read (poll : Io.poll_outcome)
  (signal : option ba_transport_signal) : Prop :=
  poll = Io.PollReady false \/
  (poll = Io.PollReady true /\ signal = Some TRANSPORT_PCM_CLOSE).

(** The iteration of the SBC sink in which it reads the datagram [w],
    while a client holds the PCM on descriptor [fd]. *)
Definition sbc_delivery (fd : Z)
  (decodes : Rtp.bt_write -> list (Sink.sbc_decoded * list Pcm.write_outcome))
  (w : Rtp.bt_write) : Sink.sbc_iteration :=
  Sink.mkSbcIteration (Io.PollReady false) (Sink.BtPacket (Sink.packet_of w))
                      fd (decodes w).

(** The same for the AAC sink. *)
Definition aac_delivery (fd : Z) (decoded : Rtp.bt_write -> Sink.aac_decoded)
  (w : Rtp.bt_write) : Sink.aac_iteration :=
  Sink.mkAacIteration (Io.PollReady false) (Sink.BtPacket (Sink.packet_of w))
                      fd (decoded w).

End Stream.

(** ** The rest of the bus interface: [ba_variant_new_pcm_modes],
    [bluealsa_rfcomm_open], the property handlers and the registration *)

Module Bus.

Import Dbus.

(** [Open] gets as far as [pipe2]: an endpoint is selected and it is
    free. *)
Definition creates_descriptors (t : ba_transport) (mode : string) : bool :=
  match select_pcm t mode with
  | Selected pcm => pcm_fd t pcm =? -1
  | _ => false
  end.

(** The descriptors the kernel hands out during a call of [Open] that
    gets as far as [pipe2]: the two ends of the pipe and, [socketpair]
    being called only when [pipe2] succeeded, the two ends of the socket
    pair. *)
Definition handed_out (env : open_env) : list Z :=
  match pipe2_ret env with
  | None => []
  | Some (p0, p1) =>
      Z.of_N p0 :: Z.of_N p1 ::
      match socketpair_ret env with
      | None => []
      | Some (s0, s1) => [Z.of_N s0; Z.of_N s1]
      end
  end.

(** [ba_variant_new_pcm_modes]: [g_variant_new_strv(&modes[i], n)] takes
    [n] strings from index [i] on. *)
Definition ba_variant_new_pcm_modes (t : ba_transport) : list string :=
  let modes := [BLUEALSA_PCM_MODE_SOURCE; BLUEALSA_PCM_MODE_SINK] in
  if is_a2dp_source (t_profile t) then firstn 1 (skipn 0 modes)
  else if is_a2dp_sink (t_profile t) then firstn 1 (skipn 1 modes)
  else if IS_BA_TRANSPORT_PROFILE_SCO (t_profile t) then firstn 2 modes
  else firstn 0 modes.

(** The texts of the error replies of [bluealsa_rfcomm_open]. *)
Inductive rfcomm_text : Type :=
| RfStrerror (errno : Z)
| RfCreateSocket (errno : Z).

Inductive rfcomm_reply : Type :=
| RfcommError (code : gdbus_error) (text : rfcomm_text)
| RfcommFd (fd : Z).

Record rfcomm_outcome : Type := mkRfcomm {
  rf_reply : rfcomm_reply;
  rf_handler_fd : Z;                       (* t->rfcomm.handler_fd afterwards *)
  rf_syscalls : list syscall;
  rf_signals : list ba_transport_signal
}.

(** [handler_fd] is [t->rfcomm.handler_fd] on entry, [socketpair_ret] what
    [socketpair] delivers ([None]: -1, with [errno]). *)
Definition bluealsa_rfcomm_open (handler_fd : Z) (socketpair_ret : option (N * N))
  (errno : Z) : rfcomm_outcome :=
  if negb (handler_fd =? -1) then
    mkRfcomm (RfcommError G_DBUS_ERROR_FAILED (RfStrerror EBUSY)) handler_fd [] []
  else
    match socketpair_ret with
    | None =>
        mkRfcomm (RfcommError G_DBUS_ERROR_FAILED (RfCreateSocket errno)) handler_fd
                 [SysSocketpair None] []
    | Some (s0, s1) =>
        mkRfcomm (RfcommFd (Z.of_N s1)) (Z.of_N s0)
                 [SysSocketpair (Some (s0, s1))] [TRANSPORT_PING]
    end.

(** The values a PCM object has on the bus, by the function that builds
    them. *)
Inductive pcm_value : Type :=
| DevicePath      (* ba_variant_new_device_path *)
| PcmModes        (* ba_variant_new_pcm_modes *)
| Channels        (* ba_variant_new_channels *)
| Sampling        (* ba_variant_new_sampling *)
| Codec           (* ba_variant_new_codec *)
| Delay           (* ba_variant_new_delay *)
| Volume          (* ba_variant_new_volume *)
| Battery.        (* ba_variant_new_battery *)

(** [bluealsa_pcm_get_property]; [None]: [NULL] is returned and [*error]
    is set to [G_DBUS_ERROR_NOT_SUPPORTED]. *)
Definition bluealsa_pcm_get_property (property : string) : option pcm_value :=
  if String.eqb property "Device" then Some DevicePath
  else if String.eqb property "Modes" then Some PcmModes
  else if String.eqb property "Channels" then Some Channels
  else if String.eqb property "Sampling" then Some Sampling
  else if String.eqb property "Codec" then Some Codec
  else if String.eqb property "Delay" then Some Delay
  else if String.eqb property "Volume" then Some Volume
  else if String.eqb property "Battery" then Some Battery
  else None.

(** [bluealsa_pcm_set_property]: the [gboolean] returned;
    [ba_transport_set_volume_packed] is called exactly when it is [true]. *)
Definition bluealsa_pcm_set_property (property : string) : bool :=
  String.eqb property "Volume".

(** The bits of the [mask] of [bluealsa_dbus_transport_update], whose
    numeric values come from a header that is not part of the sources: the
    code tests each bit on its own. *)
Record update_mask : Type := mkMask {
  update_channels : bool;
  update_sampling : bool;
  update_codec : bool;
  update_delay : bool;
  update_volume : bool;
  update_battery : bool
}.

Definition added (b : bool) (name : string) (v : pcm_value)
  : list (string * pcm_value) :=
  if b then [(name, v)] else [].

(** [bluealsa_dbus_transport_update]: the dictionary of the
    [PropertiesChanged] signal, in the order it is built. *)
Definition bluealsa_dbus_transport_update (mask : update_mask)
  : list (string * pcm_value) :=
  added (update_channels mask) "Channels" Channels
  ++ added (update_sampling mask) "Sampling" Sampling
  ++ added (update_codec mask) "Codec" Codec
  ++ added (update_delay mask) "Delay" Delay
  ++ added (update_volume mask) "Volume" Volume
  ++ added (update_battery mask) "Battery" Battery.

(** The dictionary built for [PCMAdded] by
    [bluealsa_dbus_transport_register] and for each entry of [GetPCMs] by
    [bluealsa_manager_get_pcms]. *)
Definition pcm_props : list (string * pcm_value) :=
  [("Device", DevicePath); ("Modes", PcmModes); ("Channels", Channels);
   ("Sampling", Sampling); ("Codec", Codec); ("Delay", Delay);
   ("Volume", Volume)]%string.

(** What the registration functions do on the bus and to the reference
    count of a transport, in call order. *)
Inductive bus_event : Type :=
| TransportRef                                  (* ba_transport_ref(t) *)
| RfcommRef                                     (* ba_transport_ref(t->sco.rfcomm) *)
| TransportUnref                                (* ba_transport_unref(t) *)
| RegisterPcm (id : Z)                          (* register_object, PCM interface *)
| RegisterRfcomm (id : Z)                       (* register_object, RFCOMM interface *)
| UnregisterObject (id : Z)
| PCMAdded (props : list (string * pcm_value))
| PCMRemoved.

(** [bluealsa_dbus_transport_register]: [has_rfcomm] is
    [t->sco.rfcomm != NULL]; [id] and [rfcomm_id] are what the two calls of
    [g_dbus_connection_register_object] return (0: failure).  The result
    is [t->ba_dbus_id], the [ba_dbus_id] of the RFCOMM transport when it
    is assigned, and the events. *)
Definition bluealsa_dbus_transport_register (t : ba_transport) (has_rfcomm : bool)
  (id rfcomm_id : Z) : Z * option Z * list bus_event :=
  let rfcomm := IS_BA_TRANSPORT_PROFILE_SCO (t_profile t) && has_rfcomm in
  (id,
   if rfcomm then Some rfcomm_id else None,
   [TransportRef; RegisterPcm id]
   ++ (if rfcomm then [RfcommRef; RegisterRfcomm rfcomm_id] else [])
   ++ [PCMAdded pcm_props]).

(** [bluealsa_dbus_transport_unregister]: [ba_dbus_id] is [t->ba_dbus_id]
    on entry; the result is its value afterwards and the events. *)
Definition bluealsa_dbus_transport_unregister (p : profile) (ba_dbus_id : Z)
  : Z * list bus_event :=
  if ba_dbus_id =? 0 then (ba_dbus_id, [])
  else
    (0,
     [UnregisterObject ba_dbus_id]
     ++ (match p with RFCOMM => [] | _ => [PCMRemoved] end)
     ++ [TransportUnref]).

Definition is_added (e : bus_event) : bool :=
  match e with PCMAdded _ => true | _ => false end.

Definition is_removed (e : bus_event) : bool :=
  match e with PCMRemoved => true | _ => false end.

(** The reference count of [t] after the events, from [n]. *)
Fixpoint refs (n : Z) (evs : list bus_event) : Z :=
  match evs with
  | [] => n
  | TransportRef :: rest => refs (n + 1) rest
  | TransportUnref :: rest => refs (n - 1) rest
  | _ :: rest => refs n rest
  end.

End Bus.

(** ** Sample inputs for the sink threads *)

Module SinkSample.

Definition header (n : Z) (mark : bool) : Rtp.rtp_header_t :=
  Rtp.mkHeader 2 96 mark (Rtp.htons n) 0.

Definition datagram (n : Z) (mark : bool) (payload : list byte) : Sink.packet :=
  Sink.mkPacket (header n mark) 0 (Rtp.mkMedia 0) payload.

(** The SBC thread reads the datagrams 65535 and 0, with a signal in
    between. *)
Definition sbc_its : list Sink.sbc_iteration :=
  [Sink.mkSbcIteration (Io.PollReady false) (Sink.BtPacket (datagram 65535 false []))
                       5 [];
   Sink.mkSbcIteration (Io.PollReady true) Sink.BtClosed 5 [];
   Sink.mkSbcIteration (Io.PollReady false) (Sink.BtPacket (datagram 0 false []))
                       5 []].

(** A decoder that fails. *)
Definition no_decode : Sink.aac_decoded := Sink.mkAacDecoded false false None [] [].

(** An access unit in three fragments. *)
Definition fragments : list Sink.packet :=
  [datagram 7 false [x01; x02]; datagram 8 false [x03]].
Definition last_fragment : Sink.packet := datagram 9 true [x04].

Definition aac_its : list Sink.aac_iteration :=
  map (fun p => Sink.mkAacIteration (Io.PollReady false) (Sink.BtPacket p) 5 no_decode)
      (fragments ++ [last_fragment]).

(** The AAC thread after it has seen a mark bit, its LATM buffer empty. *)
Definition aac_st : Sink.aac_state :=
  Sink.mkAacState 6 0 (Ffb.ffb_init 24) [].

End SinkSample.

(** ** Sample inputs for the aptX thread *)

Module AptxSample.

(** Stereo, and a write MTU that holds three code words. *)
Definition cfg : Aptx.config := Aptx.mkConfig 2 12 0 0.

(** Twenty samples arrive: the complete blocks in the buffer (two at
    first, three with what stayed behind) are encoded and written in one
    datagram. *)
Definition full : Aptx.iteration :=
  Aptx.mkIteration (Io.PollReady false) false None [Fifo.ReadBytes 40]
                   [Aptx.mkRound [true; true; true]
                                 (Rtp.mkBtEnv (Some 0) [Rtp.WriteDone])].

End AptxSample.

(** ** Sample inputs *)

Module Sample.

(** SBC: stereo at 44.1 kHz, 512-byte codesize, 119-byte frames, MTU 679. *)
Definition sbc_cfg : Sbc.config := Sbc.mkConfig 2 44100 256 119 0 0.
Definition sbc_st : Sbc.state := fst (Sbc.init sbc_cfg 679 4660 305419896 0).

Definition accept : Rtp.bt_env := Rtp.mkBtEnv (Some 0) [Rtp.WriteDone].

(** A short read: four samples arrive. *)
Definition sbc_short : Sbc.iteration :=
  Sbc.mkIteration (Io.PollReady false) false None [Fifo.ReadBytes 8] [] accept.

(** A full read: one codesize arrives and is encoded into one frame. *)
Definition sbc_frame : list byte := repeat x9c 119.
Definition sbc_full : Sbc.iteration :=
  Sbc.mkIteration (Io.PollReady false) false None [Fifo.ReadBytes 512]
                  [Sbc.mkEncoded 512 sbc_frame] accept.

(** AAC: stereo at 44.1 kHz, MTU 24, so 12 payload bytes per packet. *)
Definition aac_cfg : Aac.config := Aac.mkConfig 2 44100 24 0 0.
Definition aac_st : Aac.state := Aac.init 2 1024 4660 305419896 0.
Definition aac_payload : list byte := repeat x47 30.
Definition aac_round : Aac.round :=
  Aac.mkRound (Aac.mkEncoded 2048 aac_payload) [accept; accept; accept].

(** A read of one AAC frame of input, encoded in one round. *)
Definition aac_full : Aac.iteration :=
  Aac.mkIteration (Io.PollReady false) false None [Fifo.ReadBytes 4096] [aac_round].

Definition sbc_run : list Rtp.bt_write :=
  Io.writes (fst (Sbc.run sbc_cfg sbc_st [sbc_short; sbc_full; sbc_full])).

Definition aac_run : list Rtp.bt_write :=
  Io.writes (fst (Aac.run aac_cfg aac_st [aac_full; aac_full])).

(** LDAC: stereo at 44.1 kHz; one read fills the buffer and the encoder
    turns it into a 20-byte packet. *)
Definition ldac_cfg : Ldac.config := Ldac.mkConfig 2 44100 256 0 0.
Definition ldac_st : Ldac.state := Ldac.init ldac_cfg 4660 305419896 0.

(** An A2DP source transport whose FIFO is open on descriptor 7, and one
    that is idle. *)
Definition busy_transport : Dbus.ba_transport :=
  Dbus.mkTransport Dbus.A2DP_SOURCE 0 TRANSPORT_ACTIVE 7 (-1) (-1).
Definition idle_transport : Dbus.ba_transport :=
  Dbus.mkTransport Dbus.A2DP_SOURCE 0 TRANSPORT_IDLE (-1) (-1) (-1).

(** Both descriptor pairs are created, then the acquisition fails. *)
Definition acquire_fails : Dbus.open_env :=
  Dbus.mkEnv (Some (8%N, 9%N)) (Some (10%N, 11%N)) 0 (-1) 5.

End Sample.

(** ** Theorems: control channel *)

Unset Implicit Arguments.

Lemma strncmp_refl_prefix (k : list ascii) (n : nat) :
  Ctl.strncmp (firstn n k) k (List.length (firstn n k)) = 0.
Proof.
  revert n; induction k as [|c k IH]; intros [|n]; simpl; try reflexivity.
  rewrite Ascii.eqb_refl; simpl.
  destruct (Ascii.eqb c Ascii.zero); [reflexivity|apply IH].
Qed.

(** Every prefix of a keyword is accepted like the keyword. *)
Lemma controller_accepts_prefix (n : nat) :
  Ctl.reply (Ctl.bluealsa_pcm_controller Ctl.G_IO_STATUS_NORMAL
               (firstn n (Ctl.payload Ctl.BLUEALSA_PCM_CTRL_DRAIN)))
  = Some "OK"%string.
Proof.
  unfold Ctl.bluealsa_pcm_controller, Ctl.matches, Ctl.payload.
  rewrite strncmp_refl_prefix. reflexivity.
Qed.

(** The four keywords are answered with OK and trigger their action. *)
Lemma controller_keywords :
  let run s := Ctl.bluealsa_pcm_controller Ctl.G_IO_STATUS_NORMAL (Ctl.payload s) in
  run "Drain"%string = Ctl.mkResult [Ctl.DrainPcm] (Some "OK"%string) true /\
  run "Drop"%string =
    Ctl.mkResult [Ctl.SendSignal TRANSPORT_PCM_DROP] (Some "OK"%string) true /\
  run "Pause"%string =
    Ctl.mkResult [Ctl.SetState TRANSPORT_PAUSED; Ctl.SendSignal TRANSPORT_PCM_PAUSE]
                 (Some "OK"%string) true /\
  run "Resume"%string =
    Ctl.mkResult [Ctl.SetState TRANSPORT_ACTIVE; Ctl.SendSignal TRANSPORT_PCM_RESUME]
                 (Some "OK"%string) true.
Proof. repeat split; reflexivity. Qed.

(** A frame that was read never removes the watch: the channel stays
    usable whatever the payload. *)
Lemma controller_keeps_channel (command : list ascii) :
  Ctl.keep_watch (Ctl.bluealsa_pcm_controller Ctl.G_IO_STATUS_NORMAL command) = true.
Proof.
  unfold Ctl.bluealsa_pcm_controller.
  repeat match goal with |- context [if ?b then _ else _] => destruct b end;
    reflexivity.
Qed.

(** Every frame of a session is answered. *)
Lemma session_length (frames : list (list ascii)) :
  List.length (Ctl.session frames) = List.length frames.
Proof.
  induction frames as [|f rest IH]; [reflexivity|].
  cbn [Ctl.session List.length].
  rewrite controller_keeps_channel. now rewrite IH.
Qed.

(** The spec's own example: an unknown word is refused. *)
Lemma controller_xyzzy :
  Ctl.session [Ctl.payload "Xyzzy"; Ctl.payload "Drain"]
  = [Some "Invalid"%string; Some "OK"%string].
Proof. reflexivity. Qed.

(** C1 (the code departs from the claim).  The claim answers "Invalid" to
    every payload that is not exactly one of the four keywords.  The
    handler compares with [strncmp] bounded by the number of characters
    received, so the two-character frame "Dr" is taken for "Drain": the
    transport is drained and the reply is "OK". *)
Theorem C1_prefix_payload_is_accepted :
  Ctl.payload "Dr" <> Ctl.payload Ctl.BLUEALSA_PCM_CTRL_DRAIN /\
  Ctl.payload "Dr" <> Ctl.payload Ctl.BLUEALSA_PCM_CTRL_DROP /\
  Ctl.payload "Dr" <> Ctl.payload Ctl.BLUEALSA_PCM_CTRL_PAUSE /\
  Ctl.payload "Dr" <> Ctl.payload Ctl.BLUEALSA_PCM_CTRL_RESUME /\
  Ctl.bluealsa_pcm_controller Ctl.G_IO_STATUS_NORMAL (Ctl.payload "Dr")
  = Ctl.mkResult [Ctl.DrainPcm] (Some "OK"%string) true.
Proof. repeat split; try discriminate; reflexivity. Qed.

(** ** Theorems: volume scaling *)

Module ScaleFacts.

Import Floats.

Lemma zrange_complete (n : nat) (a s : Z) :
  a <= s < a + Z.of_nat n -> In s (Scale.zrange a n).
Proof.
  revert a; induction n as [|n IH]; intros a H; [lia|].
  cbn [Scale.zrange]. destruct (Z.eq_dec a s) as [->|Hne]; [now left|right].
  apply IH. lia.
Qed.

Lemma all_int16_complete (s : Z) : Scale.is_int16 s -> In s Scale.all_int16.
Proof.
  unfold Scale.is_int16, Scale.INT16_MIN, Scale.INT16_MAX, Scale.all_int16.
  intros H. apply zrange_complete.
  replace (Z.of_nat (Z.to_nat 65536)) with 65536%Z by reflexivity.
  unfold Scale.INT16_MIN. lia.
Qed.

Lemma scale_sample_unit_all :
  forallb (fun s => Scale.scale_sample 1%float s =? s) Scale.all_int16 = true.
Proof. vm_compute. reflexivity. Qed.

(** Multiplying by 1.0 and converting back leaves a 16-bit sample alone. *)
Lemma scale_sample_unit (s : Z) :
  Scale.is_int16 s -> Scale.scale_sample 1%float s = s.
Proof.
  intros H. apply Z.eqb_eq.
  exact (proj1 (forallb_forall _ _) scale_sample_unit_all s (all_int16_complete s H)).
Qed.

Lemma scale_from_unit (channels : Z) (buffer : list Z) (i : nat) :
  Forall Scale.is_int16 buffer ->
  Scale.scale_from i channels 1%float 1%float buffer = buffer.
Proof.
  intros H. revert i. induction H as [|s rest Hs _ IH]; intros i; simpl.
  - reflexivity.
  - rewrite IH. f_equal.
    destruct (channels =? 1); [|destruct (Nat.even i)]; now apply scale_sample_unit.
Qed.

(** The exponent at full volume is exactly zero in binary64 arithmetic. *)
Lemma full_volume_exponent :
  ((-64 + 64.0 * Scale.double_of_int 127 / 127) / 20)%float = 0%float.
Proof. reflexivity. Qed.

(** C6.  With both channels at volume 127 and neither muted, scaling a
    buffer of 16-bit samples leaves every sample unchanged, for one or two
    channels; of the C library only [pow(10, 0) = 1] is used. *)
Theorem C6_full_volume_scaling_is_identity
  (pow : PrimFloat.float -> PrimFloat.float -> PrimFloat.float)
  (t : Scale.a2dp_volume) (buffer : list Z) (channels : Z) :
  pow 10%float 0%float = 1%float ->
  Scale.ch1_volume t = 127 -> Scale.ch2_volume t = 127 ->
  Scale.ch1_muted t = false -> Scale.ch2_muted t = false ->
  Forall Scale.is_int16 buffer ->
  Scale.io_thread_scale_pcm pow t buffer channels = buffer.
Proof.
  intros Hpow Hv1 Hv2 Hm1 Hm2 Hbuf.
  unfold Scale.io_thread_scale_pcm, Scale.snd_pcm_scale_s16le.
  rewrite Hv1, Hv2, Hm1, Hm2. cbn [negb].
  rewrite full_volume_exponent, Hpow.
  now apply scale_from_unit.
Qed.

Lemma C6_full_volume_scaling_witness :
  Scale.io_thread_scale_pcm Scale.pow_at_zero
    (Scale.mkVolume false false 127 127) [-32768; -1; 0; 1; 32767] 2
  = [-32768; -1; 0; 1; 32767].
Proof.
  apply C6_full_volume_scaling_is_identity; try reflexivity.
  repeat constructor; unfold Scale.is_int16, Scale.INT16_MIN, Scale.INT16_MAX; lia.
Defined.

End ScaleFacts.

(** ** Theorems: RTP numbering *)

Lemma u16_range (x : Z) : 0 <= u16 x < 65536.
Proof. unfold u16. change (2 ^ 16) with 65536. apply Z.mod_pos_bound. lia. Qed.


Lemma u16_idem (x : Z) : u16 (u16 x) = u16 x.
Proof. unfold u16. apply Z.mod_mod. discriminate. Qed.

Lemma ntohs_htons (x : Z) : 0 <= x < 65536 -> Rtp.ntohs (Rtp.htons x) = x.
Proof.
  intros H. unfold Rtp.ntohs, Rtp.htons.
  pose proof (Z.div_mod x 256 ltac:(lia)) as E.
  pose proof (Z.mod_pos_bound x 256 ltac:(lia)) as Hlo.
  assert (Hhi : 0 <= x / 256 < 256).
  { split; [apply Z.div_pos; lia|apply Z.div_lt_upper_bound; lia]. }
  rewrite (Z.mod_small (x / 256) 256) by lia.
  replace ((x mod 256 * 256 + x / 256) mod 256) with (x / 256).
  2:{ rewrite Z.add_comm, Z.mod_add by lia. now rewrite Z.mod_small by lia. }
  replace ((x mod 256 * 256 + x / 256) / 256) with (x mod 256).
  2:{ rewrite Z.add_comm, Z.div_add by lia. rewrite (Z.div_small (x / 256)) by lia. lia. }
  rewrite (Z.mod_small (x mod 256)) by lia. lia.
Qed.

Lemma htons_range (x : Z) : 0 <= Rtp.htons x < 65536.
Proof.
  unfold Rtp.htons.
  pose proof (Z.mod_pos_bound x 256 ltac:(lia)).
  pose proof (Z.mod_pos_bound (x / 256) 256 ltac:(lia)). lia.
Qed.

Lemma ntohl_htonl (x : Z) : 0 <= x < 4294967296 -> Rtp.ntohl (Rtp.htonl x) = x.
Proof.
  intros H. unfold Rtp.ntohl, Rtp.htonl.
  set (a := x mod 256). set (b := (x / 256) mod 256).
  set (c := (x / 65536) mod 256). set (d := (x / 16777216) mod 256).
  assert (Ha : 0 <= a < 256) by (apply Z.mod_pos_bound; lia).
  assert (Hb : 0 <= b < 256) by (apply Z.mod_pos_bound; lia).
  assert (Hc : 0 <= c < 256) by (apply Z.mod_pos_bound; lia).
  assert (Hd : 0 <= d < 256) by (apply Z.mod_pos_bound; lia).
  assert (Ex : x = a + 256 * b + 65536 * c + 16777216 * d).
  { subst a b c d.
    pose proof (Z.div_mod x 256 ltac:(lia)).
    pose proof (Z.div_mod (x / 256) 256 ltac:(lia)).
    pose proof (Z.div_mod (x / 256 / 256) 256 ltac:(lia)).
    pose proof (Z.div_mod (x / 256 / 256 / 256) 256 ltac:(lia)).
    replace (x / 65536) with (x / 256 / 256)
      by (rewrite Z.div_div by lia; reflexivity).
    replace (x / 16777216) with (x / 256 / 256 / 256)
      by (rewrite !Z.div_div by lia; reflexivity).
    assert (x / 256 / 256 / 256 / 256 = 0).
    { rewrite !Z.div_div by lia. apply Z.div_small. lia. }
    lia. }
  set (y := a * 16777216 + b * 65536 + c * 256 + d).
  assert (E1 : y mod 256 = d).
  { subst y. replace (a * 16777216 + b * 65536 + c * 256 + d)
      with (d + (a * 65536 + b * 256 + c) * 256) by ring.
    rewrite Z.mod_add by lia. apply Z.mod_small. lia. }
  assert (E2 : (y / 256) mod 256 = c).
  { subst y. replace (a * 16777216 + b * 65536 + c * 256 + d)
      with (d + (a * 65536 + b * 256 + c) * 256) by ring.
    rewrite Z.div_add by lia. rewrite (Z.div_small d) by lia.
    replace (0 + (a * 65536 + b * 256 + c)) with (c + (a * 256 + b) * 256) by ring.
    rewrite Z.mod_add by lia. apply Z.mod_small. lia. }
  assert (E3 : (y / 65536) mod 256 = b).
  { subst y. replace (a * 16777216 + b * 65536 + c * 256 + d)
      with (c * 256 + d + (a * 256 + b) * 65536) by ring.
    rewrite Z.div_add by lia. rewrite (Z.div_small (c * 256 + d)) by lia.
    replace (0 + (a * 256 + b)) with (b + a * 256) by ring.
    rewrite Z.mod_add by lia. apply Z.mod_small. lia. }
  assert (E4 : (y / 16777216) mod 256 = a).
  { subst y. replace (a * 16777216 + b * 65536 + c * 256 + d)
      with (b * 65536 + c * 256 + d + a * 16777216) by ring.
    rewrite Z.div_add by lia. rewrite (Z.div_small (b * 65536 + c * 256 + d)) by lia.
    apply Z.mod_small. lia. }
  rewrite E1, E2, E3, E4. lia.
Qed.

Section LinkedFacts.

Variable m : Z.
Hypothesis m_pos : 0 < m.
Variable field : Rtp.bt_write -> Z.
Variable adv : Rtp.bt_write -> Z.

Lemma linked_app (l1 l2 : list Rtp.bt_write) (k : Z) :
  Rtp.linked m field adv k (l1 ++ l2) <->
  Rtp.linked m field adv k l1 /\
  Rtp.linked m field adv (Rtp.after adv k l1) l2.
Proof.
  revert k; induction l1 as [|w l1 IH]; intros k; simpl.
  - tauto.
  - rewrite IH. tauto.
Qed.

Lemma after_app (l1 l2 : list Rtp.bt_write) (k : Z) :
  Rtp.after adv k (l1 ++ l2) = Rtp.after adv (Rtp.after adv k l1) l2.
Proof. revert k; induction l1 as [|w l1 IH]; intros k; simpl; auto. Qed.

Lemma linked_mod (l : list Rtp.bt_write) (k k' : Z) :
  k mod m = k' mod m ->
  Rtp.linked m field adv k l -> Rtp.linked m field adv k' l.
Proof.
  revert k k'; induction l as [|w l IH]; intros k k' E; simpl; [tauto|].
  intros [H1 H2]. split; [congruence|].
  apply (IH (k + adv w)); [|exact H2].
  rewrite (Z.add_mod k), (Z.add_mod k') by lia. now rewrite E.
Qed.

Lemma after_mod (l : list Rtp.bt_write) (k k' : Z) :
  k mod m = k' mod m ->
  Rtp.after adv k l mod m = Rtp.after adv k' l mod m.
Proof.
  revert k k'; induction l as [|w l IH]; intros k k' E; simpl; [exact E|].
  apply IH. rewrite (Z.add_mod k), (Z.add_mod k') by lia. now rewrite E.
Qed.

Lemma linked_paced (l : list Rtp.bt_write) (k : Z) :
  Rtp.linked m field adv k l -> Rtp.paced m field adv l.
Proof.
  revert k; induction l as [|p [|q l] IH]; intros k; simpl; auto.
  intros (Hp & Hq & Hl). split.
  - rewrite Hq, Hp. now rewrite Zplus_mod_idemp_l.
  - apply (IH (k + adv p)). simpl. auto.
Qed.

End LinkedFacts.

(** A run keeps a field linked when every iteration does.  [key] reads
    the next value of the field off the loop variables, [inv] is what the
    loop variables satisfy and [good] what the iterations are assumed to. *)
Section RunLinked.

Variables state iteration : Type.
Variable step : state -> iteration -> list Io.action * Io.ending state.
Variable m : Z.
Hypothesis m_pos : 0 < m.
Variable field : Rtp.bt_write -> Z.
Variable adv : Rtp.bt_write -> Z.
Variable key : state -> Z.
Variable inv : state -> Prop.
Variable good : iteration -> Prop.

Hypothesis step_linked : forall st it,
  inv st -> good it ->
  Rtp.linked m field adv (key st) (Io.writes (fst (step st it))) /\
  forall st', snd (step st it) = Io.Continue st' ->
    inv st' /\
    key st' mod m = Rtp.after adv (key st) (Io.writes (fst (step st it))) mod m.

Lemma writes_app (a b : list Io.action) :
  Io.writes (a ++ b) = Io.writes a ++ Io.writes b.
Proof.
  induction a as [|x a IH]; simpl; [reflexivity|].
  destruct x; simpl; rewrite ?IH; reflexivity.
Qed.

Lemma run_linked (its : list iteration) (st : state) :
  inv st -> Forall good its ->
  Rtp.linked m field adv (key st) (Io.writes (fst (Io.run step st its))).
Proof.
  intros Hinv Hgood. revert st Hinv.
  induction Hgood as [|it its Hit _ IH]; intros st Hinv; simpl; [exact I|].
  destruct (step_linked st it Hinv Hit) as [Hl Hc].
  destruct (step st it) as [acts e] eqn:Es. simpl in Hl, Hc.
  destruct e as [st'| |]; simpl; try exact Hl.
  destruct (Hc st' eq_refl) as [Hinv' Hkey].
  specialize (IH st' Hinv').
  destruct (Io.run step st' its) as [acts' e']. simpl in *.
  rewrite writes_app. apply linked_app. split; [exact Hl|].
  exact (linked_mod m m_pos field adv _ (key st') _ Hkey IH).
Qed.

End RunLinked.

(** *** SBC *)

Lemma wire_seq_stored (h : Rtp.rtp_header_t) (x : Z) w :
  Rtp.w_header w = h -> Rtp.seq_number h = Rtp.htons (u16 x) ->
  Rtp.wire_seq w = x mod 2 ^ 16.
Proof.
  intros <- E. unfold Rtp.wire_seq. rewrite E.
  rewrite ntohs_htons by apply u16_range. reflexivity.
Qed.

Lemma writes_init_acts (b : bool) (rest : list Io.action) :
  Io.writes ((if b then [Io.RtInit] else []) ++ rest) = Io.writes rest.
Proof. destruct b; reflexivity. Qed.

Lemma writes_release (b : bool) (rest : list Io.action) :
  Io.writes ((if b then [Io.ReleasePcm] else []) ++ rest) = Io.writes rest.
Proof. destruct b; reflexivity. Qed.

Lemma writes_only_init (b : bool) :
  Io.writes (if b then [Io.RtInit] else []) = [].
Proof. destruct b; reflexivity. Qed.

Lemma writes_only_release (b : bool) :
  Io.writes (if b then [Io.ReleasePcm] else []) = [].
Proof. destruct b; reflexivity. Qed.

Lemma succ_mod (x : Z) : (u16 (x + 1) + 1) mod 2 ^ 16 = (x + 1 + 1) mod 2 ^ 16.
Proof. unfold u16. now rewrite Zplus_mod_idemp_l. Qed.

Lemma sbc_encode_and_send_seq cfg st it samples :
  Rtp.linked (2 ^ 16) Rtp.wire_seq Rtp.one_each (Sbc.seq_number st + 1)
             (Io.writes (fst (Sbc.encode_and_send cfg st it samples))) /\
  forall st', snd (Sbc.encode_and_send cfg st it samples) = Io.Continue st' ->
    (Sbc.seq_number st' + 1) mod 2 ^ 16 =
    Rtp.after Rtp.one_each (Sbc.seq_number st + 1)
              (Io.writes (fst (Sbc.encode_and_send cfg st it samples))) mod 2 ^ 16.
Proof.
  unfold Sbc.encode_and_send.
  destruct (Sbc.encode_loop _ _ _) as [a|].
  2:{ cbn [fst snd]. rewrite writes_only_init. split; [exact I|discriminate]. }
  destruct (Rtp.io_thread_write_bt _ _ _ _ _) as [[[ret e] q]|].
  2:{ cbn [fst snd]. rewrite writes_only_init. split; [exact I|discriminate]. }
  destruct ((ret =? -1) && Io.is_disconnect e); cbn [fst snd];
    rewrite writes_init_acts; cbn [Io.writes Rtp.linked Rtp.after].
  - split; [|discriminate]. split; [|exact I].
    eapply wire_seq_stored; reflexivity.
  - split.
    + split; [|exact I]. eapply wire_seq_stored; reflexivity.
    + intros st' E. injection E as <-. cbn [Sbc.seq_number].
      unfold Rtp.one_each. apply succ_mod.
Qed.

Lemma sbc_read_and_send_seq cfg st it :
  Rtp.linked (2 ^ 16) Rtp.wire_seq Rtp.one_each (Sbc.seq_number st + 1)
             (Io.writes (fst (Sbc.read_and_send cfg st it))) /\
  forall st', snd (Sbc.read_and_send cfg st it) = Io.Continue st' ->
    (Sbc.seq_number st' + 1) mod 2 ^ 16 =
    Rtp.after Rtp.one_each (Sbc.seq_number st + 1)
              (Io.writes (fst (Sbc.read_and_send cfg st it))) mod 2 ^ 16.
Proof.
  unfold Sbc.read_and_send.
  destruct (Fifo.io_thread_read_pcm _ _) as [r|];
    [|split; [exact I|discriminate]].
  destruct (Fifo.ret r =? 0).
  { cbn [fst snd]. rewrite writes_only_release. split; [exact I|].
    intros st' E. injection E as <-. reflexivity. }
  destruct (Fifo.ret r =? -1).
  { destruct (Fifo.errno_out r =? EAGAIN); cbn [fst snd];
      rewrite writes_only_release; (split; [exact I|]);
      intros st' E; [injection E as <-; reflexivity|discriminate]. }
  pose proof (sbc_encode_and_send_seq cfg (Sbc.set_errno st (Fifo.errno_out r))
                it (Fifo.ret r)) as H.
  destruct (Sbc.encode_and_send _ _ _ _) as [acts e]. cbn [fst snd] in *.
  rewrite writes_release. exact H.
Qed.

Lemma sbc_step_seq cfg st it :
  Rtp.linked (2 ^ 16) Rtp.wire_seq Rtp.one_each (Sbc.seq_number st + 1)
             (Io.writes (fst (Sbc.step cfg st it))) /\
  forall st', snd (Sbc.step cfg st it) = Io.Continue st' ->
    (Sbc.seq_number st' + 1) mod 2 ^ 16 =
    Rtp.after Rtp.one_each (Sbc.seq_number st + 1)
              (Io.writes (fst (Sbc.step cfg st it))) mod 2 ^ 16.
Proof.
  unfold Sbc.step.
  destruct (Sbc.it_poll it) as [|e|[|]].
  - cbn [fst snd Io.writes]. split; [exact I|].
    destruct (Sbc.it_pcm_closed it); intros st' E;
      [discriminate|injection E as <-; reflexivity].
  - destruct (e =? EINTR); cbn [fst snd Io.writes]; (split; [exact I|]);
      intros st' E; [injection E as <-; reflexivity|discriminate].
  - destruct (Sbc.it_signal it) as [[| | | | | |]|];
      try apply sbc_read_and_send_seq;
      cbn [fst snd Io.writes]; (split; [exact I|]);
      intros st' E; injection E as <-; reflexivity.
  - apply sbc_read_and_send_seq.
Qed.

(** *** AAC *)

Lemma writes_map_BtWrite (ws : list Rtp.bt_write) :
  Io.writes (map Io.BtWrite ws) = ws.
Proof. induction ws as [|w ws IH]; simpl; [reflexivity|now rewrite IH]. Qed.

Lemma aac_fragment_loop_seq cfg envs s buffer payload_len frames :
  Rtp.linked (2 ^ 16) Rtp.wire_seq Rtp.one_each (Aac.s_seq_number s + 1)
             (fst (Aac.fragment_loop cfg envs s buffer payload_len frames)) /\
  forall s',
    snd (Aac.fragment_loop cfg envs s buffer payload_len frames) = (Aac.FragDone, s') ->
    (Aac.s_seq_number s' + 1) mod 2 ^ 16 =
    Rtp.after Rtp.one_each (Aac.s_seq_number s + 1)
      (fst (Aac.fragment_loop cfg envs s buffer payload_len frames)) mod 2 ^ 16.
Proof.
  revert s buffer payload_len.
  induction envs as [|env rest IH]; intros s buffer payload_len;
    cbn [Aac.fragment_loop].
  - cbn [fst snd]. split; [exact I|discriminate].
  - destruct (Rtp.io_thread_write_bt _ _ _ _ _) as [[[ret e] q]|].
    2:{ cbn [fst snd]. split; [exact I|discriminate]. }
    destruct (ret =? -1).
    { cbn [fst snd Rtp.linked Rtp.after]. split.
      - split; [|exact I]. eapply wire_seq_stored; reflexivity.
      - intros s' E. destruct (Io.is_disconnect e); [discriminate|].
        injection E as <-. cbn [Aac.s_seq_number]. apply succ_mod. }
    destruct (u64 (payload_len - (ret - Rtp.RTP_HEADER_LEN)) =? 0).
    { cbn [fst snd Rtp.linked Rtp.after]. split.
      - split; [|exact I]. eapply wire_seq_stored; reflexivity.
      - intros s' E. injection E as <-. cbn [Aac.s_seq_number]. apply succ_mod. }
    match goal with
    | |- context [Aac.fragment_loop cfg rest ?s1 ?b1 ?p1 frames] =>
        specialize (IH s1 b1 p1);
        destruct (Aac.fragment_loop cfg rest s1 b1 p1 frames) as [ws r]
    end.
    cbn [fst snd Rtp.linked Rtp.after Aac.s_seq_number] in *.
    destruct IH as [IH1 IH2]. unfold Rtp.one_each at 1 3.
    assert (E1 : (Aac.s_seq_number s + 1 + 1) mod 2 ^ 16
                 = (u16 (Aac.s_seq_number s + 1) + 1) mod 2 ^ 16)
      by (symmetry; apply succ_mod).
    split.
    + split; [eapply wire_seq_stored; reflexivity|].
      eapply linked_mod; [lia| |exact IH1]. symmetry; exact E1.
    + intros s' E. rewrite (IH2 s' E).
      apply after_mod; [lia|]. symmetry; exact E1.
Qed.

Lemma aac_encode_round_seq cfg st r :
  Rtp.linked (2 ^ 16) Rtp.wire_seq Rtp.one_each (Aac.seq_number st + 1)
             (Io.writes (fst (Aac.encode_round cfg st r))) /\
  forall st', snd (Aac.encode_round cfg st r) = Io.Continue st' ->
    (Aac.seq_number st' + 1) mod 2 ^ 16 =
    Rtp.after Rtp.one_each (Aac.seq_number st + 1)
              (Io.writes (fst (Aac.encode_round cfg st r))) mod 2 ^ 16.
Proof.
  unfold Aac.encode_round.
  destruct (Aac.numOutBytes (Aac.r_encoded r) >? 0).
  - match goal with
    | |- context [Aac.fragment_loop cfg ?e ?s ?b ?p ?f] =>
        pose proof (aac_fragment_loop_seq cfg e s b p f) as H;
        destruct (Aac.fragment_loop cfg e s b p f) as [ws [fe s']]
    end.
    cbn [fst snd Aac.s_seq_number] in H. destruct H as [H1 H2].
    destruct fe; cbn [fst snd]; rewrite ?writes_app, writes_map_BtWrite.
    + cbn [Io.writes]. rewrite app_nil_r. split; [exact H1|].
      intros st' E. injection E as <-. cbn [Aac.seq_number].
      apply H2. reflexivity.
    + split; [exact H1|discriminate].
    + split; [exact H1|discriminate].
  - cbn [fst snd map app Io.writes Rtp.linked Rtp.after]. split; [exact I|].
    intros st' E. injection E as <-. reflexivity.
Qed.

Lemma aac_encode_rounds_seq cfg rounds st :
  Rtp.linked (2 ^ 16) Rtp.wire_seq Rtp.one_each (Aac.seq_number st + 1)
             (Io.writes (fst (Aac.encode_rounds cfg rounds st))) /\
  forall st', snd (Aac.encode_rounds cfg rounds st) = Io.Continue st' ->
    (Aac.seq_number st' + 1) mod 2 ^ 16 =
    Rtp.after Rtp.one_each (Aac.seq_number st + 1)
              (Io.writes (fst (Aac.encode_rounds cfg rounds st))) mod 2 ^ 16.
Proof.
  revert st. induction rounds as [|r rest IH]; intros st;
    cbn [Aac.encode_rounds];
    destruct (Ffb.ffb_len_out (Aac.pcm st) >? 0);
    try (cbn [fst snd Io.writes Rtp.linked Rtp.after];
         split; [exact I|intros st' E; try discriminate;
                          injection E as <-; reflexivity]).
  destruct (aac_encode_round_seq cfg st r) as [H1 H2].
  destruct (Aac.encode_round cfg st r) as [acts [st1|st1|st1]];
    cbn [fst snd] in *; try (split; [exact H1|discriminate]).
  specialize (H2 st1 eq_refl). destruct (IH st1) as [IH1 IH2].
  destruct (Aac.encode_rounds cfg rest st1) as [acts' e]. cbn [fst snd] in *.
  rewrite writes_app. split.
  - apply linked_app. split; [exact H1|].
    eapply linked_mod; [lia|exact H2|exact IH1].
  - intros st' E. rewrite (IH2 st' E), after_app.
    apply after_mod; [lia|exact H2].
Qed.

Lemma aac_read_and_send_seq cfg st it :
  Rtp.linked (2 ^ 16) Rtp.wire_seq Rtp.one_each (Aac.seq_number st + 1)
             (Io.writes (fst (Aac.read_and_send cfg st it))) /\
  forall st', snd (Aac.read_and_send cfg st it) = Io.Continue st' ->
    (Aac.seq_number st' + 1) mod 2 ^ 16 =
    Rtp.after Rtp.one_each (Aac.seq_number st + 1)
              (Io.writes (fst (Aac.read_and_send cfg st it))) mod 2 ^ 16.
Proof.
  unfold Aac.read_and_send.
  destruct (Fifo.io_thread_read_pcm _ _) as [r|];
    [|split; [exact I|discriminate]].
  destruct (Fifo.ret r =? 0).
  { cbn [fst snd]. rewrite writes_only_release. split; [exact I|].
    intros st' E. injection E as <-. reflexivity. }
  destruct (Fifo.ret r =? -1).
  { destruct (Fifo.errno_out r =? EAGAIN); cbn [fst snd];
      rewrite writes_only_release; (split; [exact I|]);
      intros st' E; [injection E as <-; reflexivity|discriminate]. }
  match goal with
  | |- context [Aac.encode_rounds cfg ?rs ?s1] =>
      pose proof (aac_encode_rounds_seq cfg rs s1) as H;
      destruct (Aac.encode_rounds cfg rs s1) as [acts e]
  end.
  cbn [fst snd Aac.seq_number Aac.set_errno] in *.
  rewrite writes_release, writes_init_acts. exact H.
Qed.

Lemma aac_step_seq cfg st it :
  Rtp.linked (2 ^ 16) Rtp.wire_seq Rtp.one_each (Aac.seq_number st + 1)
             (Io.writes (fst (Aac.step cfg st it))) /\
  forall st', snd (Aac.step cfg st it) = Io.Continue st' ->
    (Aac.seq_number st' + 1) mod 2 ^ 16 =
    Rtp.after Rtp.one_each (Aac.seq_number st + 1)
              (Io.writes (fst (Aac.step cfg st it))) mod 2 ^ 16.
Proof.
  unfold Aac.step.
  destruct (Aac.it_poll it) as [|e|[|]].
  - cbn [fst snd Io.writes]. split; [exact I|].
    destruct (Aac.it_pcm_closed it); intros st' E;
      [discriminate|injection E as <-; reflexivity].
  - destruct (e =? EINTR); cbn [fst snd Io.writes]; (split; [exact I|]);
      intros st' E; [injection E as <-; reflexivity|discriminate].
  - destruct (Aac.it_signal it) as [[| | | | | |]|];
      try apply aac_read_and_send_seq;
      cbn [fst snd Io.writes]; (split; [exact I|]);
      intros st' E; injection E as <-; reflexivity.
  - apply aac_read_and_send_seq.
Qed.

(** *** LDAC *)

Lemma ldac_init_in_step cfg r1 r2 e : Ldac.header_in_step (Ldac.init cfg r1 r2 e).
Proof.
  unfold Ldac.header_in_step, Ldac.init. cbn. split; [reflexivity|].
  apply htons_range.
Qed.

Lemma ldac_encode_loop_seq cfg encodes st input_len :
  Ldac.header_in_step st ->
  Rtp.linked (2 ^ 16) Rtp.wire_seq Rtp.one_each (Ldac.seq_number st)
             (Io.writes (fst (Ldac.encode_loop cfg encodes st input_len))) /\
  forall st' n,
    snd (Ldac.encode_loop cfg encodes st input_len) = (Io.Continue st', n) ->
    Ldac.header_in_step st' /\
    Ldac.seq_number st' mod 2 ^ 16 =
    Rtp.after Rtp.one_each (Ldac.seq_number st)
      (Io.writes (fst (Ldac.encode_loop cfg encodes st input_len))) mod 2 ^ 16.
Proof.
  revert st input_len.
  induction encodes as [|[e env] rest IH]; intros st input_len Hst;
    cbn [Ldac.encode_loop]; destruct (input_len >=? Ldac.ldac_pcm_samples cfg);
    try (cbn [fst snd Io.writes Rtp.linked Rtp.after]; split; [exact I|];
         intros st' n E; first [discriminate E
                               |injection E as <- _; split; [exact Hst|reflexivity]]).
  destruct (negb (Ldac.enc_rc e =? 0)).
  { cbn [fst snd Io.writes Rtp.linked Rtp.after]. split; [exact I|].
    intros st' n E. injection E as <- _. split; [exact Hst|reflexivity]. }
  destruct Hst as [Hh Hr].
  destruct (Z.of_nat (List.length (Ldac.enc_out e)) =? 0) eqn:Eenc.
  - (* nothing to send yet *)
    cbn [andb Z.eqb]. 
    match goal with
    | |- context [Ldac.encode_loop cfg rest ?s1 ?n1] =>
        destruct (IH s1 n1) as [IH1 IH2]; [split; assumption|];
        destruct (Ldac.encode_loop cfg rest s1 n1) as [acts r]
    end.
    cbn [fst snd map app Io.writes Ldac.seq_number] in *.
    split; [exact IH1|exact IH2].
  - destruct (Rtp.io_thread_write_bt _ _ _ _ _) as [[[ret e'] q]|].
    2:{ cbn [fst snd Io.writes]. split; [exact I|discriminate]. }
    assert (Hw : forall w, Rtp.w_header w = Ldac.rtp_header st ->
                 Rtp.wire_seq w = Ldac.seq_number st mod 2 ^ 16).
    { intros w Ew. unfold Rtp.wire_seq. rewrite Ew, Hh.
      symmetry. apply Z.mod_small. exact Hr. }
    destruct ((ret =? -1) && Io.is_disconnect e').
    { cbn [fst snd map Io.writes Rtp.linked Rtp.after]. split; [|discriminate].
      split; [apply Hw; reflexivity|exact I]. }
    match goal with
    | |- context [Ldac.encode_loop cfg rest ?s1 ?n1] =>
        destruct (IH s1 n1) as [IH1 IH2];
        [split; cbn [Ldac.rtp_header Ldac.seq_number Rtp.seq_number];
         [apply ntohs_htons; apply u16_range|apply u16_range]|];
        destruct (Ldac.encode_loop cfg rest s1 n1) as [acts r]
    end.
    cbn [fst snd map app Io.writes Rtp.linked Rtp.after Ldac.seq_number] in *.
    unfold Rtp.one_each at 1 3.
    assert (E1 : u16 (Ldac.seq_number st + 1) mod 2 ^ 16
                 = (Ldac.seq_number st + 1) mod 2 ^ 16) by apply u16_idem.
    split.
    + split; [apply Hw; reflexivity|].
      eapply linked_mod; [lia|exact E1|exact IH1].
    + intros st' n E. destruct (IH2 st' n E) as [Hs Ha]. split; [exact Hs|].
      rewrite Ha. apply after_mod; [lia|exact E1].
Qed.

Lemma ldac_read_and_send_seq cfg st it :
  Ldac.header_in_step st ->
  Rtp.linked (2 ^ 16) Rtp.wire_seq Rtp.one_each (Ldac.seq_number st)
             (Io.writes (fst (Ldac.read_and_send cfg st it))) /\
  forall st', snd (Ldac.read_and_send cfg st it) = Io.Continue st' ->
    Ldac.header_in_step st' /\
    Ldac.seq_number st' mod 2 ^ 16 =
    Rtp.after Rtp.one_each (Ldac.seq_number st)
              (Io.writes (fst (Ldac.read_and_send cfg st it))) mod 2 ^ 16.
Proof.
  intros Hst. unfold Ldac.read_and_send.
  destruct (Fifo.io_thread_read_pcm _ _) as [r|];
    [|split; [exact I|discriminate]].
  destruct (Fifo.ret r =? 0).
  { cbn [fst snd]. rewrite writes_only_release. split; [exact I|].
    intros st' E. injection E as <-. split; [exact Hst|reflexivity]. }
  destruct (Fifo.ret r =? -1).
  { destruct (Fifo.errno_out r =? EAGAIN); cbn [fst snd];
      rewrite writes_only_release; (split; [exact I|]);
      intros st' E; [injection E as <-; split; [exact Hst|reflexivity]
                    |discriminate]. }
  match goal with
  | |- context [Ldac.encode_loop cfg ?es ?s1 ?n1] =>
      destruct (ldac_encode_loop_seq cfg es s1 n1 Hst) as [H1 H2];
      destruct (Ldac.encode_loop cfg es s1 n1) as [acts [e n]]
  end.
  cbn [fst snd Ldac.seq_number Ldac.set_pcm Ldac.set_errno] in *.
  destruct e as [st1|st1|st1]; cbn [fst snd];
    rewrite writes_release, writes_init_acts;
    (split; [exact H1|]); try discriminate.
  intros st' E. injection E as <-.
  destruct (H2 st1 n eq_refl) as [Hs Ha]. split; [exact Hs|exact Ha].
Qed.

Lemma ldac_step_seq cfg st it :
  Ldac.header_in_step st ->
  Rtp.linked (2 ^ 16) Rtp.wire_seq Rtp.one_each (Ldac.seq_number st)
             (Io.writes (fst (Ldac.step cfg st it))) /\
  forall st', snd (Ldac.step cfg st it) = Io.Continue st' ->
    Ldac.header_in_step st' /\
    Ldac.seq_number st' mod 2 ^ 16 =
    Rtp.after Rtp.one_each (Ldac.seq_number st)
              (Io.writes (fst (Ldac.step cfg st it))) mod 2 ^ 16.
Proof.
  intros Hst. unfold Ldac.step.
  destruct (Ldac.it_poll it) as [|e|[|]].
  - cbn [fst snd Io.writes]. split; [exact I|].
    destruct (Ldac.it_pcm_closed it); intros st' E;
      [discriminate|injection E as <-; split; [exact Hst|reflexivity]].
  - destruct (e =? EINTR); cbn [fst snd Io.writes]; (split; [exact I|]);
      intros st' E; [injection E as <-; split; [exact Hst|reflexivity]
                    |discriminate].
  - destruct (Ldac.it_signal it) as [[| | | | | |]|];
      try (apply ldac_read_and_send_seq; exact Hst);
      cbn [fst snd Io.writes]; (split; [exact I|]);
      intros st' E; injection E as <-; (split; [exact Hst|reflexivity]).
  - apply ldac_read_and_send_seq; exact Hst.
Qed.

(** *** Sequence numbers of a whole run *)

Lemma linked_seq_numbers (l : list Rtp.bt_write) (k : Z) :
  Rtp.linked (2 ^ 16) Rtp.wire_seq Rtp.one_each k l ->
  map Rtp.wire_seq l = Rtp.seq_numbers_from k (List.length l).
Proof.
  revert k; induction l as [|w l IH]; intros k; simpl; [reflexivity|].
  intros [H1 H2]. rewrite H1. unfold u16. f_equal. apply IH. exact H2.
Qed.

Lemma paced_successive (l : list Rtp.bt_write) :
  Rtp.paced (2 ^ 16) Rtp.wire_seq Rtp.one_each l ->
  Rtp.successive (map Rtp.wire_seq l).
Proof.
  induction l as [|p [|q l] IH]; simpl; auto.
  intros [H1 H2]. split; [exact H1|]. apply IH. exact H2.
Qed.

Lemma linked_numbered (l : list Rtp.bt_write) (k : Z) :
  Rtp.linked (2 ^ 16) Rtp.wire_seq Rtp.one_each k l -> Rtp.numbered l.
Proof.
  intros H. split.
  - exists k. now apply linked_seq_numbers.
  - apply paced_successive. eapply linked_paced. exact H.
Qed.

Lemma Forall_trivial {A : Type} (l : list A) : Forall (fun _ => True) l.
Proof. induction l; constructor; auto. Qed.

Lemma sbc_run_seq cfg st its :
  Rtp.linked (2 ^ 16) Rtp.wire_seq Rtp.one_each (Sbc.seq_number st + 1)
             (Io.writes (fst (Sbc.run cfg st its))).
Proof.
  unfold Sbc.run.
  apply (run_linked Sbc.state Sbc.iteration (Sbc.step cfg) (2 ^ 16) ltac:(lia)
           Rtp.wire_seq Rtp.one_each (fun st => Sbc.seq_number st + 1)
           (fun _ => True) (fun _ => True)); [|exact I|apply Forall_trivial].
  intros st0 it _ _. destruct (sbc_step_seq cfg st0 it) as [H1 H2].
  split; [exact H1|]. intros st' E. split; [exact I|]. apply H2. exact E.
Qed.

Lemma aac_run_seq cfg st its :
  Rtp.linked (2 ^ 16) Rtp.wire_seq Rtp.one_each (Aac.seq_number st + 1)
             (Io.writes (fst (Aac.run cfg st its))).
Proof.
  unfold Aac.run.
  apply (run_linked Aac.state Aac.iteration (Aac.step cfg) (2 ^ 16) ltac:(lia)
           Rtp.wire_seq Rtp.one_each (fun st => Aac.seq_number st + 1)
           (fun _ => True) (fun _ => True)); [|exact I|apply Forall_trivial].
  intros st0 it _ _. destruct (aac_step_seq cfg st0 it) as [H1 H2].
  split; [exact H1|]. intros st' E. split; [exact I|]. apply H2. exact E.
Qed.

Lemma ldac_run_seq cfg st its :
  Ldac.header_in_step st ->
  Rtp.linked (2 ^ 16) Rtp.wire_seq Rtp.one_each (Ldac.seq_number st)
             (Io.writes (fst (Ldac.run cfg st its))).
Proof.
  intros Hst. unfold Ldac.run.
  apply (run_linked Ldac.state Ldac.iteration (Ldac.step cfg) (2 ^ 16) ltac:(lia)
           Rtp.wire_seq Rtp.one_each Ldac.seq_number
           Ldac.header_in_step (fun _ => True)); [|exact Hst|apply Forall_trivial].
  intros st0 it H0 _. exact (ldac_step_seq cfg st0 it H0).
Qed.

Lemma after_one_each (l : list Rtp.bt_write) (k : Z) :
  Rtp.after Rtp.one_each k l = k + Z.of_nat (List.length l).
Proof.
  revert k. induction l as [|w l IH]; intros k; cbn [Rtp.after List.length].
  - cbn. lia.
  - rewrite IH. unfold Rtp.one_each. lia.
Qed.

Lemma linked_gap (l pre mid post : list Rtp.bt_write) (a b : Rtp.bt_write) (k : Z) :
  Rtp.linked (2 ^ 16) Rtp.wire_seq Rtp.one_each k l ->
  l = pre ++ a :: mid ++ b :: post ->
  Rtp.wire_seq b = u16 (Rtp.wire_seq a + 1 + Z.of_nat (List.length mid)).
Proof.
  intros H ->. apply linked_app in H. destruct H as [_ H].
  cbn [Rtp.linked] in H. destruct H as [Ha H].
  apply linked_app in H. destruct H as [_ H].
  cbn [Rtp.linked] in H. destruct H as [Hb _].
  rewrite Hb, Ha, after_one_each. unfold Rtp.one_each, u16.
  rewrite <- !Z.add_assoc, Zplus_mod_idemp_l. reflexivity.
Qed.

Lemma filter_all {A : Type} (f : A -> bool) (l : list A) :
  Forall (fun x => f x = true) l -> filter f l = l.
Proof.
  induction 1 as [|x l Hx _ IH]; [reflexivity|].
  cbn [filter]. rewrite Hx, IH. reflexivity.
Qed.

Lemma linked_through_refusals (l : list Rtp.bt_write) (k : Z) :
  Rtp.linked (2 ^ 16) Rtp.wire_seq Rtp.one_each k l ->
  Stream.numbered_through_refusals l.
Proof.
  intros H. split; [|split].
  - exact (linked_numbered _ _ H).
  - intros pre a mid b post E _. eapply linked_gap; eassumption.
  - intros Hall. rewrite filter_all by exact Hall. exact (linked_numbered _ _ H).
Qed.

(** C3 (counterexample).  An SBC thread makes three packets; the socket
    takes the first, refuses the second with ENOBUFS (105) and takes the
    third.  The two packets written are numbered 13331 and 13333: the
    number of the refused packet is missing on the wire. *)
Lemma C3_refused_packet_leaves_a_gap :
  let refuse := Rtp.mkBtEnv (Some 0) [Rtp.WriteFail 105] in
  let refused :=
    Sbc.mkIteration (Io.PollReady false) false None [Fifo.ReadBytes 512]
                    [Sbc.mkEncoded 512 Sample.sbc_frame] refuse in
  let acts := fst (Sbc.run Sample.sbc_cfg Sample.sbc_st
                     [Sample.sbc_full; refused; Sample.sbc_full]) in
  map Rtp.wire_seq (Io.writes acts) = [13331; 13332; 13333] /\
  map Rtp.wire_seq (Stream.written acts) = [13331; 13333] /\
  ~ Rtp.successive (map Rtp.wire_seq (Stream.written acts)).
Proof.
  cbv zeta. split; [vm_compute; reflexivity|].
  split; [vm_compute; reflexivity|].
  intros H.
  assert (E : map Rtp.wire_seq
                (Stream.written
                   (fst (Sbc.run Sample.sbc_cfg Sample.sbc_st
                           [Sample.sbc_full;
                            Sbc.mkIteration (Io.PollReady false) false None
                              [Fifo.ReadBytes 512]
                              [Sbc.mkEncoded 512 Sample.sbc_frame]
                              (Rtp.mkBtEnv (Some 0) [Rtp.WriteFail 105]);
                            Sample.sbc_full])))
              = [13331; 13333]) by (vm_compute; reflexivity).
  rewrite E in H. cbn [Rtp.successive] in H. destruct H as [H _].
  vm_compute in H. discriminate H.
Qed.

(** C3 (amended).  In every run of the SBC, the AAC and the LDAC source
    thread, from any loop state (for LDAC: from the state the thread sets
    up, with any two random draws), the packets handed to
    [io_thread_write_bt] carry the sequence numbers [s, s+1, s+2, ...]
    modulo 65536 for some [s]: a packet takes its number before the write
    and keeps it when the socket refuses it.  So of two packets with only
    refused ones between them the later carries the number of the earlier
    plus one, plus one for each refused packet; and the packets written
    are numbered without a gap when no write is refused. *)
Theorem C3_rtp_sequence_numbers :
  (forall cfg st its,
     Stream.numbered_through_refusals (Io.writes (fst (Sbc.run cfg st its)))) /\
  (forall cfg st its,
     Stream.numbered_through_refusals (Io.writes (fst (Aac.run cfg st its)))) /\
  (forall cfg r1 r2 e its,
     Stream.numbered_through_refusals
       (Io.writes (fst (Ldac.run cfg (Ldac.init cfg r1 r2 e) its)))).
Proof.
  split; [|split]; intros.
  - exact (@linked_through_refusals _ _ (sbc_run_seq cfg st its)).
  - exact (@linked_through_refusals _ _ (aac_run_seq cfg st its)).
  - exact (linked_through_refusals _ _
             (ldac_run_seq cfg _ its (ldac_init_in_step cfg r1 r2 e))).
Qed.

(** ** Theorems: reading the PCM FIFO *)

Lemma read_retry_interrupted (n : nat) (final : Fifo.read_outcome) (e0 : Z) :
  Fifo.read_retry (Fifo.interrupted n final) e0 =
  Fifo.read_retry [final] (match n with O => e0 | S _ => EINTR end).
Proof.
  unfold Fifo.interrupted. revert e0.
  induction n as [|n IH]; intros e0; [reflexivity|].
  cbn [repeat app Fifo.read_retry]. change (EINTR =? EINTR) with true.
  cbn iota. rewrite IH. destruct n; reflexivity.
Qed.

(** Interrupted attempts are retried and leave no trace but [errno]. *)
Lemma read_pcm_interrupted (n : nat) (final : Fifo.read_outcome) (e0 : Z) :
  Fifo.io_thread_read_pcm (Fifo.interrupted n final) e0 =
  Fifo.io_thread_read_pcm [final] (match n with O => e0 | S _ => EINTR end).
Proof. unfold Fifo.io_thread_read_pcm. now rewrite read_retry_interrupted. Qed.

(** C2 (counterexample).  A read that fails with EAGAIN makes the call
    return -1, not 0. *)
Lemma C2_eagain_does_not_return_zero :
  exists r,
    Fifo.io_thread_read_pcm [Fifo.ReadFail EAGAIN] 0 = Some r /\
    Fifo.ret r = -1 /\ Fifo.ret r <> 0.
Proof. eexists. split; [reflexivity|]. split; [reflexivity|discriminate]. Qed.

(** C2 (amended).  Whatever [errno] held before and however often the
    read is interrupted first: the interrupted attempts are retried; a
    read of 0 bytes and a read failing with EBADF release the endpoint and
    return 0; a read failing with EAGAIN returns -1 with [errno] left at
    EAGAIN and does not release the endpoint. *)
Theorem C2_read_pcm_outcomes (n : nat) (e0 : Z) :
  (forall final, exists e1,
     Fifo.io_thread_read_pcm (Fifo.interrupted n final) e0 =
     Fifo.io_thread_read_pcm [final] e1) /\
  (exists r,
     Fifo.io_thread_read_pcm (Fifo.interrupted n (Fifo.ReadBytes 0)) e0 = Some r /\
     Fifo.ret r = 0 /\ Fifo.released r = true) /\
  (exists r,
     Fifo.io_thread_read_pcm (Fifo.interrupted n (Fifo.ReadFail EBADF)) e0 = Some r /\
     Fifo.ret r = 0 /\ Fifo.released r = true) /\
  (exists r,
     Fifo.io_thread_read_pcm (Fifo.interrupted n (Fifo.ReadFail EAGAIN)) e0 = Some r /\
     Fifo.ret r = -1 /\ Fifo.errno_out r = EAGAIN /\ Fifo.released r = false).
Proof.
  repeat split.
  - intros final. eexists. apply read_pcm_interrupted.
  - rewrite read_pcm_interrupted. unfold Fifo.io_thread_read_pcm.
    cbn [Fifo.read_retry]. change (0 >? 0) with false. cbn iota.
    destruct (_ =? EBADF); eexists; repeat split; reflexivity.
  - rewrite read_pcm_interrupted. eexists. repeat split; reflexivity.
  - rewrite read_pcm_interrupted. eexists. repeat split; reflexivity.
Qed.

(** A read that delivers bytes releases nothing and reports the samples. *)
Lemma read_pcm_data (n : nat) (bytes e0 : Z) :
  0 < bytes ->
  exists r,
    Fifo.io_thread_read_pcm (Fifo.interrupted n (Fifo.ReadBytes bytes)) e0 = Some r /\
    Fifo.ret r = bytes / 2 /\ Fifo.released r = false.
Proof.
  intros H. rewrite read_pcm_interrupted. unfold Fifo.io_thread_read_pcm.
  cbn [Fifo.read_retry]. destruct (Z.gtb_spec bytes 0); [|lia].
  eexists. repeat split; reflexivity.
Qed.

(** ** Theorems: SBC packets *)

Lemma write_retry_completes (returns : list Rtp.write_outcome) (len e0 q0 : Z) :
  Rtp.write_completes returns = true ->
  exists ret e q, Rtp.write_retry returns len e0 q0 = Some (ret, e, q).
Proof.
  revert e0 q0. induction returns as [|o rest IH]; intros e0 q0; [discriminate|].
  cbn [Rtp.write_completes existsb Rtp.write_retry].
  destruct o as [|e]; [intros _; eauto|].
  destruct (e =? EINTR); [cbn [negb andb orb]; intros H; apply IH; exact H|].
  destruct (e =? EAGAIN); [cbn [negb andb orb]; intros H; apply IH; exact H|].
  intros _; eauto.
Qed.

Lemma write_bt_completes (ci : Z) (env : Rtp.bt_env) (len e0 q0 : Z) :
  Rtp.write_completes (Rtp.write_returns env) = true ->
  exists ret e q, Rtp.io_thread_write_bt ci env len e0 q0 = Some (ret, e, q).
Proof. intros H. unfold Rtp.io_thread_write_bt. now apply write_retry_completes. Qed.

(** The encoding loop ends when the encoder, each time it is called,
    fails or consumes one codesize, and its answers are not fewer than
    the frames the input holds. *)
Lemma sbc_encode_loop_returns cfg encodes a :
  0 < Sbc.sbc_pcm_samples cfg ->
  Forall (fun e => Sbc.enc_len e < 0 \/
                   Sbc.enc_len e / Fifo.sizeof_int16 = Sbc.sbc_pcm_samples cfg)
         encodes ->
  0 <= Sbc.input_len a < 2 ^ 64 ->
  Sbc.input_len a / Sbc.sbc_pcm_samples cfg <= Z.of_nat (List.length encodes) ->
  Sbc.encode_loop cfg encodes a <> None.
Proof.
  intros Hp Henc. revert a.
  induction Henc as [|e rest He _ IH]; intros a Hr Hn; cbn [Sbc.encode_loop].
  - destruct (Z.geb_spec (Sbc.input_len a) (Sbc.sbc_pcm_samples cfg)) as [Hge|Hlt].
    + exfalso. cbn [List.length Z.of_nat] in Hn.
      assert (1 <= Sbc.input_len a / Sbc.sbc_pcm_samples cfg)
        by (apply Z.div_le_lower_bound; lia). lia.
    + cbn [andb]. discriminate.
  - destruct (Z.geb_spec (Sbc.input_len a) (Sbc.sbc_pcm_samples cfg)) as [Hge|Hlt];
      [|cbn [andb]; discriminate].
    cbn [andb]. destruct (Sbc.output_len a >=? Sbc.sbc_frame_len cfg); [|discriminate].
    destruct (Z.ltb_spec (Sbc.enc_len e) 0) as [Hneg|Hpos]; [discriminate|].
    destruct He as [He|He]; [lia|]. rewrite He.
    apply IH; cbn [Sbc.input_len].
    + unfold u64. rewrite Z.mod_small by lia. lia.
    + unfold u64. rewrite Z.mod_small by lia.
      replace (Sbc.input_len a - Sbc.sbc_pcm_samples cfg)
        with (Sbc.input_len a + (-1) * Sbc.sbc_pcm_samples cfg) by ring.
      rewrite Z.div_add by lia. cbn [List.length] in Hn.
      rewrite Nat2Z.inj_succ in Hn. lia.
Qed.

(** What [io_thread_write_bt] returns is decided by the first return of
    [write] that is not retried: the length, or -1. *)
Lemma write_retry_ret (returns : list Rtp.write_outcome) (len e0 q0 ret e q : Z) :
  Rtp.write_retry returns len e0 q0 = Some (ret, e, q) ->
  ret = if Rtp.write_succeeds returns then len else -1.
Proof.
  revert e0 q0. induction returns as [|o rest IH]; intros e0 q0; [discriminate|].
  cbn [Rtp.write_retry Rtp.write_succeeds]. destruct o as [|e1].
  - intros [= <- _ _]. reflexivity.
  - destruct (e1 =? EINTR); [cbn [orb andb]; apply IH|].
    destruct (e1 =? EAGAIN); [cbn [orb andb]; apply IH|].
    cbn [orb andb]. intros [= <- _ _]. reflexivity.
Qed.

Lemma write_bt_ret (ci : Z) (env : Rtp.bt_env) (len e0 q0 ret e q : Z) :
  Rtp.io_thread_write_bt ci env len e0 q0 = Some (ret, e, q) ->
  ret = if Rtp.write_succeeds (Rtp.write_returns env) then len else -1.
Proof. unfold Rtp.io_thread_write_bt. apply write_retry_ret. Qed.

Lemma written_init_acts (b : bool) (rest : list Io.action) :
  Stream.written ((if b then [Io.RtInit] else []) ++ rest) = Stream.written rest.
Proof. unfold Stream.written. rewrite writes_init_acts. reflexivity. Qed.

(** After a read of [samples] samples the thread calls
    [io_thread_write_bt] once, whatever the encoding loop did. *)
Lemma sbc_encode_and_send_once cfg st it samples a :
  Rtp.write_completes (Rtp.write_returns (Sbc.it_write it)) = true ->
  Sbc.encode_loop cfg (Sbc.it_encodes it)
    (Sbc.mkEncoding (Ffb.ffb_len_out (Ffb.ffb_seek (Sbc.pcm st) samples))
       (Sbc.bt_size st - (Rtp.RTP_HEADER_LEN + Rtp.sizeof_rtp_media_header))
       [] 0 0) = Some a ->
  exists w,
    Io.writes (fst (Sbc.encode_and_send cfg st it samples)) = [w] /\
    Stream.written (fst (Sbc.encode_and_send cfg st it samples))
    = (if Rtp.write_succeeds (Rtp.write_returns (Sbc.it_write it)) then [w] else []) /\
    Rtp.wire_seq w = u16 (Sbc.seq_number st + 1) /\
    Rtp.w_media w = Some (Rtp.mkMedia (Rtp.frame_count_field (Sbc.sbc_frames a))) /\
    Rtp.w_payload w = Sbc.payload a /\
    Rtp.w_len w = 13 + Z.of_nat (List.length (Sbc.payload a)) /\
    Sbc.seq_number (Io.final_state (snd (Sbc.encode_and_send cfg st it samples)))
    = u16 (Sbc.seq_number st + 1).
Proof.
  intros Hwrite Hloop. unfold Sbc.encode_and_send. rewrite Hloop.
  match goal with
  | |- context [Rtp.io_thread_write_bt ?ci ?env ?len ?e0 ?q0] =>
      destruct (write_bt_completes ci env len e0 q0 Hwrite) as (ret & e & q & Ew);
      pose proof (@write_bt_ret _ _ _ _ _ _ _ _ Ew) as Hret;
      rewrite Ew
  end.
  assert (Hw : Stream.on_wire
                 (Rtp.mkWrite
                    (Rtp.mkHeader (Rtp.version (Sbc.rtp_header st))
                       (Rtp.paytype (Sbc.rtp_header st))
                       (Rtp.markbit (Sbc.rtp_header st))
                       (Rtp.htons (u16 (Sbc.seq_number st + 1)))
                       (Rtp.htonl (Sbc.timestamp st)))
                    (Some (Rtp.mkMedia (Rtp.frame_count_field (Sbc.sbc_frames a))))
                    (Sbc.payload a)
                    (Rtp.RTP_HEADER_LEN + Rtp.sizeof_rtp_media_header
                     + Z.of_nat (List.length (Sbc.payload a)))
                    ret e (Sbc.pcm_frames a))
               = Rtp.write_succeeds (Rtp.write_returns (Sbc.it_write it))).
  { unfold Stream.on_wire. cbn [Rtp.w_ret]. rewrite Hret.
    destruct (Rtp.write_succeeds _); [|reflexivity].
    unfold Rtp.RTP_HEADER_LEN, Rtp.sizeof_rtp_media_header.
    destruct (Z.eqb_spec (12 + 1 + Z.of_nat (List.length (Sbc.payload a))) (-1));
      [lia|reflexivity]. }
  eexists.
  destruct ((ret =? -1) && Io.is_disconnect e); cbn [fst snd];
    rewrite written_init_acts, writes_init_acts;
    unfold Stream.written; cbn [Io.writes filter]; rewrite Hw;
    (split; [reflexivity|]);
    (split; [destruct (Rtp.write_succeeds _); reflexivity|]);
    cbn [Rtp.w_len Rtp.w_payload Rtp.w_media Io.final_state Sbc.seq_number];
    unfold Rtp.wire_seq; cbn [Rtp.w_header Rtp.seq_number];
    rewrite ntohs_htons by apply u16_range;
    unfold Rtp.RTP_HEADER_LEN, Rtp.sizeof_rtp_media_header; repeat split.
Qed.

(** C9 (counterexample).  A read delivers four samples, the thread makes
    its packet of the two headers, and the socket refuses it with ENOBUFS
    (105): the thread goes on, and no packet has been written. *)
Lemma C9_refused_packet_is_not_written :
  let refuse := Rtp.mkBtEnv (Some 0) [Rtp.WriteFail 105] in
  let it := Sbc.mkIteration (Io.PollReady false) false None [Fifo.ReadBytes 8] []
                            refuse in
  (exists r, Fifo.io_thread_read_pcm (Sbc.it_reads it) (Sbc.errno Sample.sbc_st)
             = Some r /\ Fifo.ret r = 4) /\
  Stream.written (fst (Sbc.step Sample.sbc_cfg Sample.sbc_st it)) = [] /\
  exists st', snd (Sbc.step Sample.sbc_cfg Sample.sbc_st it) = Io.Continue st'.
Proof.
  cbv zeta. split; [eexists; split; reflexivity|].
  split; [vm_compute; reflexivity|]. eexists. vm_compute. reflexivity.
Qed.

(** C9 (amended).  In an iteration of the SBC thread that gets as far as
    the read of the FIFO, when [read] delivers [n > 0] bytes and the write
    on the BT socket returns:
    (1) one byte alone is no sample: the thread calls nothing and writes
    no packet;
    (2) with two bytes or more, once the encoding loop has ended, the
    thread hands exactly one packet to [io_thread_write_bt], numbered one
    above the previous and made of the two headers, 13 bytes, and the
    frames encoded; this packet is written if the socket takes it, and no
    packet is written if the socket refuses it; the thread's sequence
    number has moved on by one either way;
    (3) if the samples gathered so far are fewer than one SBC codesize,
    the encoding loop does not run and the packet is the two headers
    alone, with frame count 0. *)
Theorem C9_sbc_one_packet_per_batch cfg st it n e rest :
  Stream.reaches_read (Sbc.it_poll it) (Sbc.it_signal it) ->
  Fifo.read_retry (Sbc.it_reads it) (Sbc.errno st) = Some (n, e, rest) ->
  0 < n ->
  Rtp.write_completes (Rtp.write_returns (Sbc.it_write it)) = true ->
  let samples := Ffb.ffb_len_out (Ffb.ffb_seek (Sbc.pcm st) (n / 2)) in
  let loop :=
    Sbc.encode_loop cfg (Sbc.it_encodes it)
      (Sbc.mkEncoding samples
         (Sbc.bt_size st - (Rtp.RTP_HEADER_LEN + Rtp.sizeof_rtp_media_header))
         [] 0 0) in
  let acts := fst (Sbc.step cfg st it) in
  let taken := Rtp.write_succeeds (Rtp.write_returns (Sbc.it_write it)) in
  (n = 1 -> Io.writes acts = []) /\
  (2 <= n -> forall a, loop = Some a ->
   exists w,
     Io.writes acts = [w] /\
     Stream.written acts = (if taken then [w] else []) /\
     Rtp.wire_seq w = u16 (Sbc.seq_number st + 1) /\
     Rtp.w_media w = Some (Rtp.mkMedia (Rtp.frame_count_field (Sbc.sbc_frames a))) /\
     Rtp.w_payload w = Sbc.payload a /\
     Rtp.w_len w = 13 + Z.of_nat (List.length (Sbc.payload a)) /\
     Sbc.seq_number (Io.final_state (snd (Sbc.step cfg st it)))
     = u16 (Sbc.seq_number st + 1)) /\
  (2 <= n -> samples < Sbc.sbc_pcm_samples cfg ->
   exists w,
     Io.writes acts = [w] /\
     Stream.written acts = (if taken then [w] else []) /\
     Rtp.w_len w = 13 /\ Rtp.w_payload w = [] /\
     Rtp.w_media w = Some (Rtp.mkMedia 0) /\
     Rtp.wire_seq w = u16 (Sbc.seq_number st + 1) /\
     Sbc.seq_number (Io.final_state (snd (Sbc.step cfg st it)))
     = u16 (Sbc.seq_number st + 1)).
Proof.
  intros Hreach Hread Hn Hwrite samples loop acts taken.
  assert (Hstep : Sbc.step cfg st it = Sbc.read_and_send cfg st it).
  { unfold Sbc.step. destruct Hreach as [-> | [-> ->]]; reflexivity. }
  assert (Hr : Fifo.io_thread_read_pcm (Sbc.it_reads it) (Sbc.errno st)
               = Some (Fifo.mkRead (n / Fifo.sizeof_int16) e false rest)).
  { unfold Fifo.io_thread_read_pcm. rewrite Hread.
    destruct (Z.gtb_spec n 0); [reflexivity|lia]. }
  assert (Hsmall : n = 1 -> Io.writes acts = []).
  { intros ->. subst acts. rewrite Hstep. unfold Sbc.read_and_send. rewrite Hr.
    reflexivity. }
  assert (Hbig : 2 <= n -> forall a, loop = Some a ->
    exists w,
      Io.writes acts = [w] /\
      Stream.written acts = (if taken then [w] else []) /\
      Rtp.wire_seq w = u16 (Sbc.seq_number st + 1) /\
      Rtp.w_media w = Some (Rtp.mkMedia (Rtp.frame_count_field (Sbc.sbc_frames a))) /\
      Rtp.w_payload w = Sbc.payload a /\
      Rtp.w_len w = 13 + Z.of_nat (List.length (Sbc.payload a)) /\
      Sbc.seq_number (Io.final_state (snd (Sbc.step cfg st it)))
      = u16 (Sbc.seq_number st + 1)).
  { intros H2 a Ha. subst acts loop samples taken. rewrite Hstep.
    unfold Sbc.read_and_send. rewrite Hr. cbn [Fifo.ret Fifo.released Fifo.errno_out].
    unfold Fifo.sizeof_int16.
    assert (1 <= n / 2) by (apply Z.div_le_lower_bound; lia).
    destruct (Z.eqb_spec (n / 2) 0) as [E|_]; [lia|].
    destruct (Z.eqb_spec (n / 2) (-1)) as [E|_]; [lia|].
    destruct (@sbc_encode_and_send_once cfg (Sbc.set_errno st e) it (n / 2) a Hwrite Ha)
      as (w & H1 & H2' & H3).
    destruct (Sbc.encode_and_send cfg (Sbc.set_errno st e) it (n / 2)) as [acts e'].
    cbn [fst snd app] in *. exists w. split; [exact H1|].
    split; [exact H2'|exact H3]. }
  split; [exact Hsmall|]. split; [exact Hbig|].
  intros H2 Hfew.
  assert (Hloop : loop = Some (Sbc.mkEncoding samples
                    (Sbc.bt_size st - (Rtp.RTP_HEADER_LEN + Rtp.sizeof_rtp_media_header))
                    [] 0 0)).
  { subst loop. destruct (Sbc.it_encodes it) as [|e0 encs];
      cbn [Sbc.encode_loop Sbc.input_len];
      (destruct (Z.geb_spec samples (Sbc.sbc_pcm_samples cfg)) as [?|_]; [lia|]);
      reflexivity. }
  destruct (Hbig H2 _ Hloop) as (w & H1 & Hw & Hs & Hm & Hp & Hl & Hq).
  cbn [Sbc.sbc_frames Sbc.payload List.length Z.of_nat] in *.
  exists w. repeat split; assumption.
Qed.

Lemma C9_sbc_one_packet_witness :
  let acts := fst (Sbc.step Sample.sbc_cfg Sample.sbc_st Sample.sbc_short) in
  exists w,
    Io.writes acts = [w] /\
    Stream.written acts
    = (if Rtp.write_succeeds (Rtp.write_returns (Sbc.it_write Sample.sbc_short))
       then [w] else []) /\
    Rtp.w_len w = 13 /\ Rtp.w_payload w = [] /\
    Rtp.w_media w = Some (Rtp.mkMedia 0) /\
    Rtp.wire_seq w = u16 (Sbc.seq_number Sample.sbc_st + 1) /\
    Sbc.seq_number
      (Io.final_state (snd (Sbc.step Sample.sbc_cfg Sample.sbc_st Sample.sbc_short)))
    = u16 (Sbc.seq_number Sample.sbc_st + 1).
Proof.
  apply (proj2 (proj2 (@C9_sbc_one_packet_per_batch Sample.sbc_cfg Sample.sbc_st
                         Sample.sbc_short 8 0 []
                         (or_introl eq_refl) eq_refl eq_refl eq_refl))).
  - lia.
  - reflexivity.
Defined.

(** ** Theorems: timestamps *)








Section Paced.

Variable m : Z.
Variable field : Rtp.bt_write -> Z.


End Paced.

(** ** Theorems: AAC fragmentation *)

Lemma write_retry_succeeds (returns : list Rtp.write_outcome) (len e q : Z) :
  Rtp.write_succeeds returns = true ->
  exists e' q', Rtp.write_retry returns len e q = Some (len, e', q').
Proof.
  revert e q. induction returns as [|o rest IH]; intros e q; [discriminate|].
  cbn [Rtp.write_succeeds Rtp.write_retry]. destruct o as [|e1]; [eauto|].
  destruct (e1 =? EINTR); [cbn [orb andb]; intros H; apply IH; exact H|].
  destruct (e1 =? EAGAIN); [cbn [orb andb]; intros H; apply IH; exact H|].
  discriminate.
Qed.

Lemma write_bt_accepts ci env len e q :
  Aac.accepts env ->
  exists e' q', Rtp.io_thread_write_bt ci env len e q = Some (len, e', q').
Proof. intros H. unfold Rtp.io_thread_write_bt. now apply write_retry_succeeds. Qed.

Lemma aac_fragment_loop_accepted cfg envs :
  forall s buffer frames,
  Forall Aac.accepts envs ->
  0 < Aac.payload_len_max cfg ->
  0 < Z.of_nat (List.length buffer) < 2 ^ 64 ->
  Z.of_nat (List.length buffer)
  <= Aac.payload_len_max cfg * Z.of_nat (List.length envs) ->
  exists ws s',
    Aac.fragment_loop cfg envs s buffer (Z.of_nat (List.length buffer)) frames
    = (ws, (Aac.FragDone, s')) /\
    List.concat (map Rtp.w_payload ws) = buffer /\
    Aac.fragmented (Aac.payload_len_max cfg) ws /\
    Forall (Aac.fragment_of s frames) ws /\
    Rtp.timestamp (Aac.s_header s') = Rtp.timestamp (Aac.s_header s) /\
    Aac.s_seq_number s' = u16 (Aac.s_seq_number s + Z.of_nat (List.length ws)) /\
    Z.of_nat (List.length ws)
    = (Z.of_nat (List.length buffer) + Aac.payload_len_max cfg - 1)
      / Aac.payload_len_max cfg.
Proof.
  set (M := Aac.payload_len_max cfg).
  induction envs as [|env rest IH]; intros s buffer frames Hacc HM HL Henough.
  { cbn [List.length Z.of_nat] in Henough. lia. }
  inversion Hacc as [|? ? Henv Hrest]; subst.
  cbn [Aac.fragment_loop]. fold M.
  set (L := Z.of_nat (List.length buffer)) in *.
  destruct (Z.gtb_spec L M) as [Hbig|Hsmall].
  - (* a full fragment, more to come *)
    destruct (write_bt_accepts (Aac.coutq_init cfg) env (Rtp.RTP_HEADER_LEN + M)
                (Aac.s_errno s) 0 Henv) as (e' & q' & Ew).
    rewrite Ew.
    destruct (Z.eqb_spec (Rtp.RTP_HEADER_LEN + M) (-1)) as [E|_];
      [unfold Rtp.RTP_HEADER_LEN in E; lia|].
    replace (Rtp.RTP_HEADER_LEN + M - Rtp.RTP_HEADER_LEN) with M by ring.
    assert (Hlen' : Z.of_nat (List.length (skipn (Z.to_nat M) buffer)) = L - M).
    { rewrite length_skipn. subst L. lia. }
    replace (u64 (L - M)) with (Z.of_nat (List.length (skipn (Z.to_nat M) buffer)))
      by (rewrite Hlen'; unfold u64; rewrite Z.mod_small; lia).
    destruct (Z.eqb_spec (Z.of_nat (List.length (skipn (Z.to_nat M) buffer))) 0)
      as [E|_]; [lia|].
    match goal with
    | |- context [Aac.fragment_loop cfg rest ?s1 ?b1 _ frames] =>
        destruct (IH s1 b1 frames Hrest HM) as
          (ws & s' & Ef & Hcat & Hfrag & Hall & Hts & Hseq & Hcount);
        [lia|rewrite Hlen'; cbn [List.length] in Henough;
             rewrite Nat2Z.inj_succ in Henough; lia|]
    end.
    rewrite Ef. eexists _, s'. split; [reflexivity|].
    destruct (Z.leb_spec L M) as [?|_]; [lia|].
    assert (Hfirst : Z.of_nat (List.length (firstn (Z.to_nat M) buffer)) = M).
    { rewrite length_firstn. subst L. lia. }
    split; [|split; [|split; [|split; [|split]]]].
    + cbn [map List.concat Rtp.w_payload]. rewrite Hcat. apply firstn_skipn.
    + cbn [Aac.fragmented]. destruct ws as [|w' ws']; [destruct Hfrag|].
      cbn [Rtp.w_header Rtp.markbit Rtp.w_payload].
      split; [reflexivity|]. split; assumption.
    + constructor.
      * unfold Aac.fragment_of.
        cbn [Rtp.w_header Rtp.timestamp Rtp.w_pcm_frames Rtp.w_media Rtp.w_len
             Rtp.w_ret Rtp.w_payload].
        rewrite Hfirst. repeat split.
      * eapply Forall_impl; [|exact Hall]. intros w Hw.
        unfold Aac.fragment_of in *. cbn [Aac.s_header Rtp.timestamp] in Hw. exact Hw.
    + rewrite Hts. reflexivity.
    + rewrite Hseq. cbn [Aac.s_seq_number List.length]. unfold u16.
      rewrite Zplus_mod_idemp_l. f_equal. lia.
    + cbn [List.length]. rewrite Nat2Z.inj_succ, Hcount, Hlen'.
      replace (L + M - 1) with (L - M + M - 1 + 1 * M) by ring.
      rewrite Z.div_add by lia. lia.
  - (* the last fragment *)
    destruct (write_bt_accepts (Aac.coutq_init cfg) env (Rtp.RTP_HEADER_LEN + L)
                (Aac.s_errno s) 0 Henv) as (e' & q' & Ew).
    rewrite Ew.
    destruct (Z.eqb_spec (Rtp.RTP_HEADER_LEN + L) (-1)) as [E|_];
      [unfold Rtp.RTP_HEADER_LEN in E; lia|].
    replace (Rtp.RTP_HEADER_LEN + L - Rtp.RTP_HEADER_LEN) with L by ring.
    replace (u64 (L - L)) with 0 by (now rewrite Z.sub_diag).
    cbn [Z.eqb]. eexists _, _. split; [reflexivity|].
    destruct (Z.leb_spec L M) as [_|?]; [|lia].
    assert (Hall : firstn (Z.to_nat L) buffer = buffer).
    { subst L. rewrite Nat2Z.id. apply firstn_all. }
    split; [|split; [|split; [|split; [|split]]]].
    + cbn [map List.concat Rtp.w_payload]. rewrite Hall. apply app_nil_r.
    + cbn [Aac.fragmented Rtp.w_header Rtp.markbit Rtp.w_payload].
      rewrite Hall. fold L. split; [reflexivity|lia].
    + constructor; [|constructor]. unfold Aac.fragment_of. cbn [Rtp.w_header
        Rtp.timestamp Rtp.w_pcm_frames Rtp.w_media Rtp.w_len Rtp.w_ret Rtp.w_payload].
      rewrite Hall. fold L. repeat split.
    + reflexivity.
    + reflexivity.
    + cbn [List.length]. change (Z.of_nat 1) with 1.
      apply Z.div_unique with (r := L - 1); lia.
Qed.


Lemma sample_aac_timestamp : Aac.timestamp_in_range Sample.aac_st.
Proof. unfold Aac.timestamp_in_range. vm_compute. split; [discriminate|reflexivity]. Qed.

Lemma sample_accepts : Aac.accepts Sample.accept.
Proof. reflexivity. Qed.

(** ** Theorems: AAC timestamps *)







(** *** LDAC timestamps *)












(** ** Theorems: the PCM [Open] method *)

Lemma keep_fd (n : N) : negb (Z.of_N n =? -1) = true.
Proof. destruct (Z.eqb_spec (Z.of_N n) (-1)); [lia|reflexivity]. Qed.

Lemma cleanup_pipe (a b : N) :
  Dbus.cleanup [Z.of_N a; Z.of_N b; -1; -1]
  = [Dbus.SysClose (Z.of_N a); Dbus.SysClose (Z.of_N b)].
Proof. unfold Dbus.cleanup. cbn [filter]. rewrite !keep_fd. reflexivity. Qed.

Lemma cleanup_all (a b c d : N) :
  Dbus.cleanup [Z.of_N a; Z.of_N b; Z.of_N c; Z.of_N d]
  = [Dbus.SysClose (Z.of_N a); Dbus.SysClose (Z.of_N b);
     Dbus.SysClose (Z.of_N c); Dbus.SysClose (Z.of_N d)].
Proof. unfold Dbus.cleanup. cbn [filter]. rewrite !keep_fd. reflexivity. Qed.

Lemma created_app (a b : list Dbus.syscall) :
  Dbus.created (a ++ b) = Dbus.created a ++ Dbus.created b.
Proof.
  induction a as [|x a IH]; [reflexivity|].
  destruct x as [[[? ?]|]|[[? ?]|]|? ?|?]; cbn [app Dbus.created]; rewrite IH; reflexivity.
Qed.

Lemma closed_app (a b : list Dbus.syscall) :
  Dbus.closed (a ++ b) = Dbus.closed a ++ Dbus.closed b.
Proof.
  induction a as [|x a IH]; [reflexivity|].
  destruct x; cbn [app Dbus.closed]; rewrite IH; reflexivity.
Qed.

(** C8.  When the method reaches an endpoint (the mode is one of the two
    and the transport serves it) whose FIFO descriptor is not -1, it
    replies with the description of EBUSY and changes nothing: the
    transport, its state and its descriptors are as before, no descriptor
    is created or closed, no signal is sent, the transport is not
    acquired and no controller is installed. *)
Theorem C8_open_busy_endpoint t mode env pcm :
  Dbus.select_pcm t mode = Dbus.Selected pcm ->
  Dbus.pcm_fd t pcm <> -1 ->
  Dbus.bluealsa_pcm_open t mode env
  = Dbus.mkOutcome (Dbus.ReturnError Dbus.G_DBUS_ERROR_FAILED (Dbus.Strerror EBUSY))
                   t [] [] false None.
Proof.
  intros Hsel Hfd. unfold Dbus.bluealsa_pcm_open. rewrite Hsel.
  destruct (Z.eqb_spec (Dbus.pcm_fd t pcm) (-1)) as [E|_]; [contradiction|].
  reflexivity.
Qed.

(** The replies given before any descriptor is created (unknown mode,
    HFP codec not selected, mode not served, endpoint busy) leave the
    transport as it is and call nothing. *)
Lemma open_early_replies_change_nothing t mode env :
  (forall pcm, Dbus.select_pcm t mode = Dbus.Selected pcm -> Dbus.pcm_fd t pcm <> -1) ->
  exists code msg,
    Dbus.bluealsa_pcm_open t mode env
    = Dbus.mkOutcome (Dbus.ReturnError code msg) t [] [] false None.
Proof.
  intros H. unfold Dbus.bluealsa_pcm_open.
  destruct (Dbus.select_pcm t mode) as [pcm| | |]; try (eexists _, _; reflexivity).
  destruct (Z.eqb_spec (Dbus.pcm_fd t pcm) (-1)) as [E|_];
    [exfalso; exact (H pcm eq_refl E)|].
  eexists _, _; reflexivity.
Qed.

Lemma C8_open_busy_endpoint_witness :
  Dbus.bluealsa_pcm_open Sample.busy_transport "source" Sample.acquire_fails
  = Dbus.mkOutcome (Dbus.ReturnError Dbus.G_DBUS_ERROR_FAILED (Dbus.Strerror EBUSY))
                   Sample.busy_transport [] [] false None.
Proof.
  apply (C8_open_busy_endpoint Sample.busy_transport "source" Sample.acquire_fails
           Dbus.A2dpPcm).
  - reflexivity.
  - discriminate.
Defined.

(** C10.  Whenever the method replies with an error, every descriptor the
    kernel handed out during the call has been closed when the method
    returns: both ends of the pipe if [pipe2] succeeded, and both ends of
    the socket pair if [socketpair] succeeded as well.  They are closed
    once each, in the order of creation, after the other system calls of
    the method, and nothing else is closed; no descriptor is left with a
    controller.  A call that does not get as far as [pipe2] (the mode is
    invalid or not supported, the codec is not selected, the endpoint is
    busy) is handed no descriptor and closes none. *)
Theorem C10_open_error_closes_descriptors t mode env :
  Dbus.is_error (Dbus.o_reply (Dbus.bluealsa_pcm_open t mode env)) = true ->
  let o := Dbus.bluealsa_pcm_open t mode env in
  let fds := if Bus.creates_descriptors t mode then Bus.handed_out env else [] in
  Dbus.created (Dbus.o_syscalls o) = fds /\
  Dbus.closed (Dbus.o_syscalls o) = fds /\
  (exists calls,
     Dbus.o_syscalls o = calls ++ map Dbus.SysClose fds /\ Dbus.closed calls = []) /\
  Dbus.o_watch o = None.
Proof.
  unfold Dbus.bluealsa_pcm_open, Bus.creates_descriptors, Bus.handed_out.
  destruct (Dbus.select_pcm t mode) as [pcm| | |];
    try (intros _; repeat split; exists []; split; reflexivity).
  destruct (Dbus.pcm_fd t pcm =? -1); cbn [negb];
    [|intros _; repeat split; exists []; split; reflexivity].
  destruct (Dbus.pipe2_ret env) as [[p0 p1]|];
    [|intros _; repeat split; eexists [_]; split; reflexivity].
  destruct (Dbus.socketpair_ret env) as [[s0 s1]|].
  2:{ intros _. cbn [Dbus.fail Dbus.o_syscalls Dbus.o_watch].
      rewrite cleanup_pipe, closed_app, created_app. repeat split.
      eexists [_; _]. split; reflexivity. }
  destruct (Dbus.fcntl_ret env =? -1).
  { intros _. cbn [Dbus.fail Dbus.o_syscalls Dbus.o_watch].
    rewrite cleanup_all, !closed_app, !created_app. repeat split.
    eexists [_; _; _]. split; reflexivity. }
  destruct (Dbus.is_a2dp_source _ && (Dbus.acquire_ret env =? -1)).
  { intros _. cbn [Dbus.fail Dbus.o_syscalls Dbus.o_watch].
    rewrite cleanup_all, !closed_app, !created_app. repeat split.
    eexists [_; _; _]. split; reflexivity. }
  cbn [Dbus.o_reply Dbus.is_error]. discriminate.
Qed.

Lemma C10_open_error_closes_descriptors_witness :
  let o := Dbus.bluealsa_pcm_open Sample.idle_transport "source" Sample.acquire_fails in
  let fds := if Bus.creates_descriptors Sample.idle_transport "source"
             then Bus.handed_out Sample.acquire_fails else [] in
  Dbus.created (Dbus.o_syscalls o) = fds /\
  Dbus.closed (Dbus.o_syscalls o) = fds /\
  (exists calls,
     Dbus.o_syscalls o = calls ++ map Dbus.SysClose fds /\ Dbus.closed calls = []) /\
  Dbus.o_watch o = None.
Proof.
  apply (@C10_open_error_closes_descriptors Sample.idle_transport "source"
           Sample.acquire_fails).
  reflexivity.
Defined.

(** The acquisition fails after the endpoint took its descriptor: the
    descriptor is closed, the endpoint keeps its number. *)
Lemma open_acquire_failure_trace :
  Dbus.bluealsa_pcm_open Sample.idle_transport "source" Sample.acquire_fails
  = Dbus.mkOutcome
      (Dbus.ReturnError Dbus.G_DBUS_ERROR_FAILED (Dbus.AcquireTransport 5))
      (Dbus.mkTransport Dbus.A2DP_SOURCE 0 TRANSPORT_IDLE 8 (-1) (-1))
      [Dbus.SysPipe2 (Some (8%N, 9%N)); Dbus.SysSocketpair (Some (10%N, 11%N));
       Dbus.SysFcntl 8 0;
       Dbus.SysClose 8; Dbus.SysClose 9; Dbus.SysClose 10; Dbus.SysClose 11]
      [TRANSPORT_PCM_OPEN] true None.
Proof. reflexivity. Qed.

(** ** Theorems: draining *)

(** A PCM_SYNC signal sets the poll timeout to 100 ms and does nothing
    else; the poll that times out signals the drained condition and puts
    the timeout back to -1.  The same holds in the three threads. *)
Lemma sync_sets_poll_timeout :
  (forall cfg st it,
     Sbc.it_poll it = Io.PollReady true ->
     Sbc.it_signal it = Some TRANSPORT_PCM_SYNC ->
     Sbc.step cfg st it = ([], Io.Continue (Sbc.set_poll_timeout st 100))) /\
  (forall cfg st it,
     Aac.it_poll it = Io.PollReady true ->
     Aac.it_signal it = Some TRANSPORT_PCM_SYNC ->
     Aac.step cfg st it = ([], Io.Continue (Aac.set_poll_timeout st 100))) /\
  (forall cfg st it,
     Ldac.it_poll it = Io.PollReady true ->
     Ldac.it_signal it = Some TRANSPORT_PCM_SYNC ->
     Ldac.step cfg st it = ([], Io.Continue (Ldac.set_poll_timeout st 100))).
Proof.
  repeat split; intros cfg st it Hp Hs;
    [unfold Sbc.step|unfold Aac.step|unfold Ldac.step];
    rewrite Hp, Hs; reflexivity.
Qed.

Lemma poll_timeout_signals_drained :
  (forall cfg st it,
     Sbc.it_poll it = Io.PollTimeout ->
     fst (Sbc.step cfg st it) = [Io.CondSignalDrained] /\
     Sbc.poll_timeout (Io.final_state (snd (Sbc.step cfg st it))) = -1) /\
  (forall cfg st it,
     Aac.it_poll it = Io.PollTimeout ->
     fst (Aac.step cfg st it) = [Io.CondSignalDrained] /\
     Aac.poll_timeout (Io.final_state (snd (Aac.step cfg st it))) = -1) /\
  (forall cfg st it,
     Ldac.it_poll it = Io.PollTimeout ->
     fst (Ldac.step cfg st it) = [Io.CondSignalDrained] /\
     Ldac.poll_timeout (Io.final_state (snd (Ldac.step cfg st it))) = -1).
Proof.
  split; [|split]; intros cfg st it Hp;
    [unfold Sbc.step|unfold Aac.step|unfold Ldac.step]; rewrite Hp; cbn [fst snd];
    [destruct (Sbc.it_pcm_closed it)|destruct (Aac.it_pcm_closed it)
    |destruct (Ldac.it_pcm_closed it)]; split; reflexivity.
Qed.

(** A read that meets the end of the FIFO replaces the timeout, whatever
    it was, by the keep-alive time. *)
Lemma sbc_eof_sets_keep_alive cfg st it r :
  Sbc.it_poll it = Io.PollReady false ->
  Fifo.io_thread_read_pcm (Sbc.it_reads it) (Sbc.errno st) = Some r ->
  Fifo.ret r = 0 ->
  Sbc.poll_timeout (Io.final_state (snd (Sbc.step cfg st it)))
  = Sbc.keep_alive cfg * 1000.
Proof.
  intros Hp Hr H0. unfold Sbc.step. rewrite Hp. unfold Sbc.read_and_send.
  rewrite Hr, H0. reflexivity.
Qed.

Section RunDrained.

Variables state iteration : Type.
Variable step : state -> iteration -> list Io.action * Io.ending state.
Variable poll : iteration -> Io.poll_outcome.

Hypothesis step_quiet : forall st it,
  poll it <> Io.PollTimeout -> ~ In Io.CondSignalDrained (fst (step st it)).



End RunDrained.















(** ** Theorems: writing the PCM FIFO *)

Lemma firstn_skipn_firstn {A : Type} (a b : nat) (l : list A) :
  firstn a l ++ firstn b (skipn a l) = firstn (a + b) l.
Proof.
  revert l. induction a as [|a IH]; intros l; [reflexivity|].
  destruct l as [|x l]; [now rewrite skipn_nil, !firstn_nil|].
  cbn [firstn skipn Nat.add app]. now rewrite IH.
Qed.

Lemma taken_bytes_extend (buffer : list byte) (head len n : Z) :
  0 <= head -> 0 <= n <= len ->
  firstn (Z.to_nat head) buffer ++ Pcm.taken_bytes buffer head len n
  = firstn (Z.to_nat (head + n)) buffer.
Proof.
  intros Hh Hn. unfold Pcm.taken_bytes.
  rewrite firstn_firstn, Nat.min_l by lia.
  rewrite firstn_skipn_firstn. f_equal. lia.
Qed.

Lemma u64_small (x : Z) : 0 <= x < 2 ^ 64 -> u64 x = x.
Proof. intros H. unfold u64. now apply Z.mod_small. Qed.

Lemma write_loop_sound (returns : list Pcm.write_outcome) :
  forall (buffer : list byte) (samples head len e : Z) (polls : nat)
         (sent : list byte) (r : Pcm.write_result),
    0 <= head -> 0 < len < 2 ^ 64 ->
    head + len = Z.of_nat (List.length buffer) ->
    Pcm.honest returns len ->
    sent = firstn (Z.to_nat head) buffer ->
    Pcm.write_loop returns buffer samples head len e polls sent = Some r ->
    (Pcm.ret r = samples /\ Pcm.released r = false /\ Pcm.sent r = buffer) \/
    (exists k, (k < List.length buffer)%nat /\ Pcm.sent r = firstn k buffer /\
       ((Pcm.ret r = 0 /\ Pcm.released r = true /\ Pcm.errno_out r = EPIPE) \/
        (Pcm.ret r = -1 /\ Pcm.released r = false /\
         Pcm.errno_out r <> EINTR /\ Pcm.errno_out r <> EAGAIN /\
         Pcm.errno_out r <> EPIPE))).
Proof.
  induction returns as [|o rest IH];
    intros buffer samples head len e polls sent r Hh Hl Hsum Hon Hs;
    cbn [Pcm.write_loop]; [discriminate|].
  destruct o as [n|e'].
  - destruct Hon as [Hn Hon]. rewrite u64_small by lia.
    rewrite Hs, taken_bytes_extend by lia.
    destruct (Z.eqb_spec (len - n) 0) as [E|E].
    + intros [= <-]. left. cbn [Pcm.ret Pcm.released Pcm.sent].
      split; [reflexivity|split; [reflexivity|]].
      apply firstn_all2. lia.
    + apply IH; try lia; [exact Hon|reflexivity].
  - cbn [Pcm.honest] in Hon.
    destruct (Z.eqb_spec len 0) as [E|_]; [lia|].
    destruct (Z.eqb_spec e' EINTR) as [E1|N1]; [now apply IH|].
    destruct (Z.eqb_spec e' EAGAIN) as [E2|N2]; [now apply IH|].
    assert (Hk : (Z.to_nat head < List.length buffer)%nat) by lia.
    destruct (Z.eqb_spec e' EPIPE) as [E3|N3]; intros [= <-]; right;
      exists (Z.to_nat head); cbn [Pcm.ret Pcm.released Pcm.sent Pcm.errno_out];
      (split; [exact Hk|split; [exact Hs|]]); [left|right]; repeat split; assumption.
Qed.

Lemma write_loop_completes (returns : list Pcm.write_outcome) :
  forall (buffer : list byte) (samples head len e : Z) (polls : nat)
         (sent : list byte),
    0 <= head -> 0 < len < 2 ^ 64 ->
    head + len = Z.of_nat (List.length buffer) ->
    Pcm.honest returns len -> Forall Pcm.retried returns ->
    Pcm.taken returns = len ->
    sent = firstn (Z.to_nat head) buffer ->
    exists r,
      Pcm.write_loop returns buffer samples head len e polls sent = Some r /\
      Pcm.ret r = samples /\ Pcm.released r = false /\ Pcm.sent r = buffer.
Proof.
  induction returns as [|o rest IH];
    intros buffer samples head len e polls sent Hh Hl Hsum Hon Hre Htk Hs;
    cbn [Pcm.write_loop]; [cbn in Htk; lia|].
  apply Forall_cons_iff in Hre as [Ho Hrest].
  destruct o as [n|e'].
  - destruct Hon as [Hn Hon]. cbn [Pcm.taken] in Htk.
    rewrite u64_small by lia. rewrite Hs, taken_bytes_extend by lia.
    destruct (Z.eqb_spec (len - n) 0) as [E|E].
    + eexists. split; [reflexivity|]. cbn [Pcm.ret Pcm.released Pcm.sent].
      split; [reflexivity|split; [reflexivity|]]. apply firstn_all2. lia.
    + apply IH; try lia; [exact Hon|exact Hrest|reflexivity].
  - cbn [Pcm.honest] in Hon. cbn [Pcm.taken] in Htk.
    destruct (Z.eqb_spec len 0) as [E|_]; [lia|].
    cbn [Pcm.retried] in Ho.
    destruct (Z.eqb_spec e' EINTR) as [E1|N1]; [now apply IH|].
    destruct (Z.eqb_spec e' EAGAIN) as [E2|N2]; [now apply IH|].
    destruct Ho; contradiction.
Qed.

(** X1.  [io_thread_write_pcm], called with at least one sample on a FIFO
    whose [write] takes no more than it is offered, ends in one of three
    ways: it returns [samples], the endpoint is kept and the FIFO has taken
    the whole buffer, in order, however the writes were split and
    interrupted; or it returns 0 after [EPIPE] and has released the
    endpoint; or it returns -1 with an [errno] other than [EINTR],
    [EAGAIN] and [EPIPE] and has kept the endpoint.  In the last two cases
    the FIFO holds a proper prefix of the buffer. *)
Theorem write_pcm_all_or_prefix (returns : list Pcm.write_outcome)
  (buffer : list byte) (samples e0 : Z) (r : Pcm.write_result) :
  0 < samples -> samples * 2 < 2 ^ 64 ->
  Z.of_nat (List.length buffer) = samples * 2 ->
  Pcm.honest returns (samples * 2) ->
  Pcm.io_thread_write_pcm returns buffer samples e0 = Some r ->
  (Pcm.ret r = samples /\ Pcm.released r = false /\ Pcm.sent r = buffer) \/
  (exists k, (k < List.length buffer)%nat /\ Pcm.sent r = firstn k buffer /\
     ((Pcm.ret r = 0 /\ Pcm.released r = true /\ Pcm.errno_out r = EPIPE) \/
      (Pcm.ret r = -1 /\ Pcm.released r = false /\
       Pcm.errno_out r <> EINTR /\ Pcm.errno_out r <> EAGAIN /\
       Pcm.errno_out r <> EPIPE))).
Proof.
  intros Hs Hb Hlen Hon. unfold Pcm.io_thread_write_pcm, Fifo.sizeof_int16.
  rewrite u64_small by lia.
  apply write_loop_sound; try lia; [exact Hon|reflexivity].
Qed.

Lemma write_pcm_all_or_prefix_witness :
  let buffer := [x01; x02; x03; x04] in
  let r := Pcm.mkWritten 2 EINTR false 1 buffer [Pcm.WriteFail 5] in
  (Pcm.ret r = 2 /\ Pcm.released r = false /\ Pcm.sent r = buffer) \/
  (exists k, (k < List.length buffer)%nat /\ Pcm.sent r = firstn k buffer /\
     ((Pcm.ret r = 0 /\ Pcm.released r = true /\ Pcm.errno_out r = EPIPE) \/
      (Pcm.ret r = -1 /\ Pcm.released r = false /\
       Pcm.errno_out r <> EINTR /\ Pcm.errno_out r <> EAGAIN /\
       Pcm.errno_out r <> EPIPE))).
Proof.
  intros buffer r.
  apply (write_pcm_all_or_prefix
           [Pcm.WriteFail EAGAIN; Pcm.Written 1; Pcm.WriteFail EINTR;
            Pcm.Written 3; Pcm.WriteFail 5] buffer 2 0 r); try reflexivity.
  cbn. lia.
Defined.

(** X2.  [io_thread_write_pcm] returns [samples], with the whole buffer in
    the FIFO and the endpoint kept, whenever every failure of [write] is
    [EINTR] or [EAGAIN] and the bytes [write] takes add up to the size of
    the buffer: short writes are continued where they stopped. *)
Theorem write_pcm_completes (returns : list Pcm.write_outcome)
  (buffer : list byte) (samples e0 : Z) :
  0 < samples -> samples * 2 < 2 ^ 64 ->
  Z.of_nat (List.length buffer) = samples * 2 ->
  Pcm.honest returns (samples * 2) ->
  Forall Pcm.retried returns ->
  Pcm.taken returns = samples * 2 ->
  exists r,
    Pcm.io_thread_write_pcm returns buffer samples e0 = Some r /\
    Pcm.ret r = samples /\ Pcm.released r = false /\ Pcm.sent r = buffer.
Proof.
  intros Hs Hb Hlen Hon Hre Htk. unfold Pcm.io_thread_write_pcm, Fifo.sizeof_int16.
  rewrite u64_small by lia.
  apply write_loop_completes; try lia; [exact Hon|exact Hre|reflexivity].
Qed.

Lemma write_pcm_completes_witness :
  exists r,
    Pcm.io_thread_write_pcm
      [Pcm.WriteFail EAGAIN; Pcm.Written 1; Pcm.WriteFail EINTR; Pcm.Written 0;
       Pcm.Written 3]
      [x01; x02; x03; x04] 2 0 = Some r /\
    Pcm.ret r = 2 /\ Pcm.released r = false /\ Pcm.sent r = [x01; x02; x03; x04].
Proof.
  apply write_pcm_completes; try reflexivity.
  - cbn. lia.
  - repeat (apply Forall_cons; [cbn; auto|]). apply Forall_nil.
Defined.

(** X3.  Called with no samples, [io_thread_write_pcm] makes one [write]
    of zero bytes and, unless that fails for good, returns 0 without
    releasing the endpoint: an interrupted or refused [write] is not
    retried, because [continue] re-tests [len != 0]. *)
Theorem write_pcm_no_samples (o : Pcm.write_outcome)
  (rest : list Pcm.write_outcome) (buffer : list byte) (e0 : Z) :
  Pcm.honest [o] 0 -> Pcm.retried o ->
  exists r,
    Pcm.io_thread_write_pcm (o :: rest) buffer 0 e0 = Some r /\
    Pcm.ret r = 0 /\ Pcm.released r = false /\ Pcm.sent r = [] /\
    Pcm.pending r = rest.
Proof.
  intros Hon Hre. unfold Pcm.io_thread_write_pcm. cbn [Pcm.write_loop].
  change (u64 (0 * Fifo.sizeof_int16)) with 0.
  destruct o as [n|e].
  - destruct Hon as [Hn _]. assert (n = 0) by lia. subst n.
    eexists. split; [reflexivity|]. repeat split.
  - cbn [Pcm.retried] in Hre. destruct Hre as [-> | ->];
      eexists; (split; [reflexivity|]); repeat split.
Qed.

Lemma write_pcm_no_samples_witness :
  exists r,
    Pcm.io_thread_write_pcm [Pcm.WriteFail EAGAIN] [] 0 0 = Some r /\
    Pcm.ret r = 0 /\ Pcm.released r = false /\ Pcm.sent r = [] /\
    Pcm.pending r = [].
Proof.
  apply write_pcm_no_samples.
  - exact I.
  - right. reflexivity.
Defined.

(** ** Theorems: writing the BT socket *)

Lemma last_cons_default {A : Type} (l : list A) :
  forall e d : A, last (e :: l) d = last l e.
Proof.
  induction l as [|a l IH]; intros e d; [reflexivity|].
  change (last (e :: a :: l) d) with (last (a :: l) d).
  now rewrite (IH a d), (IH a e).
Qed.

Lemma write_retry_retries (es : list Z) :
  forall (final : Rtp.write_outcome) (rest : list Rtp.write_outcome)
         (len e0 q : Z),
    Forall (fun e => e = EINTR \/ e = EAGAIN) es ->
    match final with
    | Rtp.WriteDone => True
    | Rtp.WriteFail e => e <> EINTR /\ e <> EAGAIN
    end ->
    Rtp.write_retry (map Rtp.WriteFail es ++ final :: rest) len e0 q
    = Some (match final with Rtp.WriteDone => len | Rtp.WriteFail _ => -1 end,
            match final with Rtp.WriteDone => last es e0 | Rtp.WriteFail e => e end,
            if existsb (fun e => e =? EAGAIN) es then 1024 * 16 else q).
Proof.
  induction es as [|e es IH]; intros final rest len e0 q Hes Hfin.
  - cbn [map app Rtp.write_retry existsb last].
    destruct final as [|e]; [reflexivity|]. destruct Hfin as [H1 H2].
    destruct (Z.eqb_spec e EINTR); [contradiction|].
    destruct (Z.eqb_spec e EAGAIN); [contradiction|]. reflexivity.
  - apply Forall_cons_iff in Hes as [He Hes].
    cbn [map app Rtp.write_retry existsb].
    assert (Hlast := fun d => last_cons_default es e d).
    destruct He as [-> | ->].
    + change (EINTR =? EINTR) with true. change (EINTR =? EAGAIN) with false.
      cbn [orb]. rewrite IH by assumption. rewrite Hlast. reflexivity.
    + change (EAGAIN =? EINTR) with false. change (EAGAIN =? EAGAIN) with true.
      cbn [orb]. rewrite IH by assumption. rewrite Hlast.
      destruct (existsb _ es); reflexivity.
Qed.

(** X4.  [io_thread_write_bt] retries [write] through any number of
    [EINTR] and [EAGAIN] failures and returns what the first other return
    decides: the length it was given, or -1 with that return's [errno].
    The queue depth it reports is 16384 once a [write] was refused with
    [EAGAIN]; otherwise it is the distance of the [TIOCOUTQ] reading from
    the initial one, or the caller's value when the ioctl fails. *)
Theorem write_bt_retries (ci : Z) (outq : option Z) (es : list Z)
  (final : Rtp.write_outcome) (rest : list Rtp.write_outcome) (len e0 q0 : Z) :
  Forall (fun e => e = EINTR \/ e = EAGAIN) es ->
  match final with
  | Rtp.WriteDone => True
  | Rtp.WriteFail e => e <> EINTR /\ e <> EAGAIN
  end ->
  Rtp.io_thread_write_bt ci
    (Rtp.mkBtEnv outq (map Rtp.WriteFail es ++ final :: rest)) len e0 q0
  = Some (match final with Rtp.WriteDone => len | Rtp.WriteFail _ => -1 end,
          match final with Rtp.WriteDone => last es e0 | Rtp.WriteFail e => e end,
          if existsb (fun e => e =? EAGAIN) es then 16384
          else match outq with None => q0 | Some q => Z.abs (ci - q) end).
Proof.
  intros Hes Hfin. unfold Rtp.io_thread_write_bt.
  cbn [Rtp.write_returns Rtp.ioctl_outq].
  rewrite write_retry_retries by assumption. reflexivity.
Qed.

Lemma write_bt_retries_witness :
  Rtp.io_thread_write_bt 100
    (Rtp.mkBtEnv (Some 30) (map Rtp.WriteFail [EINTR; EAGAIN] ++ Rtp.WriteDone :: []))
    25 0 0
  = Some (25, EAGAIN, 16384).
Proof.
  apply (write_bt_retries 100 (Some 30) [EINTR; EAGAIN] Rtp.WriteDone [] 25 0 0).
  - repeat (apply Forall_cons; [auto|]). apply Forall_nil.
  - exact I.
Defined.

(** ** Theorems: the sink threads *)

Lemma track_seq_number (seq field : Z) :
  snd (Sink.track_seq seq field) = Rtp.ntohs field.
Proof.
  unfold Sink.track_seq.
  destruct (Z.eqb_spec (u16 (seq + 1)) (Rtp.ntohs field)) as [E|E]; cbn [negb snd];
    [exact E|reflexivity].
Qed.

Lemma track_seq_quiet (seq field : Z) :
  seq = Sink.seq_number_init \/ Rtp.ntohs field = u16 (seq + 1) ->
  fst (Sink.track_seq seq field) = [].
Proof.
  intros H. unfold Sink.track_seq.
  destruct (Z.eqb_spec (u16 (seq + 1)) (Rtp.ntohs field)) as [E|E]; cbn [negb fst];
    [reflexivity|].
  destruct H as [-> | H]; [reflexivity|]. congruence.
Qed.

Lemma decode_loop_quiet (frames : nat) :
  forall decodes payload evs,
    Sink.decode_loop frames decodes payload = Some evs ->
    Forall (fun e => Sink.is_missing e = false) evs.
Proof.
  induction frames as [|k IH]; intros decodes payload evs; cbn [Sink.decode_loop].
  - intros [= <-]. constructor.
  - destruct decodes as [|[d returns] rest]; [discriminate|].
    destruct (Sink.dec_len d <? 0).
    + intros [= <-]. repeat constructor.
    + destruct (Pcm.io_thread_write_pcm _ _ _ _) as [r|]; [|discriminate].
      destruct (Sink.decode_loop k rest _) as [evs'|] eqn:E; [|discriminate].
      intros [= <-]. repeat constructor. eapply IH. exact E.
Qed.

Lemma sbc_step_quiet (pc : bool) (seq : Z) (it : Sink.sbc_iteration) :
  match Sink.received pc (Sink.sk_poll it) (Sink.sk_read it) (Sink.sk_pcm_fd it) with
  | None =>
      Forall (fun e => Sink.is_missing e = false) (fst (Sink.sbc_step pc seq it)) /\
      forall seq', snd (Sink.sbc_step pc seq it) = Io.Continue seq' ->
                   seq' = seq \/ seq' = Sink.seq_number_init
  | Some p =>
      seq = Sink.seq_number_init \/ Sink.number p = u16 (seq + 1) ->
      Forall (fun e => Sink.is_missing e = false) (fst (Sink.sbc_step pc seq it)) /\
      forall seq', snd (Sink.sbc_step pc seq it) = Io.Continue seq' ->
                   seq' = Sink.number p
  end.
Proof.
  unfold Sink.received, Sink.sbc_step.
  destruct (Sink.sk_poll it) as [|e|[|]];
    try (destruct (e =? EINTR); cbn [fst snd]; split; [constructor| |constructor|];
         intros seq' [= <-]; left; reflexivity);
    try (cbn [fst snd]; split; [constructor|intros seq' [= <-]; left; reflexivity]).
  all: destruct (Sink.sk_read it) as [p| |e];
    try (cbn [fst snd]; split; [repeat constructor|];
         first [discriminate|intros seq' [= <-]; left; reflexivity]).
  all: destruct (Sink.sk_pcm_fd it =? -1);
    [cbn [fst snd]; split; [constructor|intros seq' [= <-]; right; reflexivity]|].
  all: destruct (pc && (Rtp.paytype (Sink.p_header p) <? 96));
    [cbn [fst snd]; split; [repeat constructor|intros seq' [= <-]; left; reflexivity]|].
  all: intros Hseq;
    pose proof (track_seq_number seq (Rtp.seq_number (Sink.p_header p))) as Hn;
    pose proof (track_seq_quiet seq (Rtp.seq_number (Sink.p_header p)) Hseq) as Hq;
    destruct (Sink.track_seq seq _) as [warn seq1]; cbn [fst snd] in Hn, Hq; subst warn;
    destruct (Sink.decode_loop _ _ _) as [evs|] eqn:E; cbn [fst snd app];
    (split; [first [eapply decode_loop_quiet; exact E|constructor]|]);
    first [discriminate|intros seq' [= <-]; exact Hn].
Qed.

Lemma sbc_run_quiet (pc : bool) (its : list Sink.sbc_iteration) :
  forall seq,
    (match map Sink.number (Sink.sbc_received pc its) with
     | [] => True
     | n :: _ => seq = Sink.seq_number_init \/ n = u16 (seq + 1)
     end) ->
    Rtp.successive (map Sink.number (Sink.sbc_received pc its)) ->
    Forall (fun e => Sink.is_missing e = false) (fst (Sink.sbc_run pc seq its)).
Proof.
  induction its as [|it its IH]; intros seq Hhead Hsucc; [constructor|].
  unfold Sink.sbc_run in *. cbn [Loop.run].
  unfold Sink.sbc_received in *. cbn [map Sink.somes] in Hhead, Hsucc.
  pose proof (sbc_step_quiet pc seq it) as Hstep.
  destruct (Sink.received pc _ _ _) as [p|].
  - cbn [Sink.somes map] in Hhead, Hsucc.
    destruct (Hstep Hhead) as [Hq Hc]. clear Hstep.
    destruct (Sink.sbc_step pc seq it) as [evs [seq'| |]]; cbn [fst snd] in *;
      try exact Hq.
    specialize (Hc seq' eq_refl). subst seq'.
    specialize (IH (Sink.number p)).
    destruct (Loop.run _ _ its) as [evs' e']. cbn [fst] in *.
    apply Forall_app. split; [exact Hq|]. apply IH.
    + destruct (map Sink.number _) as [|n rest]; [exact I|].
      right. cbn [Rtp.successive] in Hsucc. apply Hsucc.
    + destruct (map Sink.number _) as [|n rest]; [exact I|].
      cbn [Rtp.successive] in Hsucc. apply Hsucc.
  - destruct Hstep as [Hq Hc].
    destruct (Sink.sbc_step pc seq it) as [evs [seq'| |]]; cbn [fst snd] in *;
      try exact Hq.
    specialize (Hc seq' eq_refl).
    specialize (IH seq').
    destruct (Loop.run _ _ its) as [evs' e']. cbn [fst] in *.
    apply Forall_app. split; [exact Hq|]. apply IH; [|exact Hsucc].
    destruct (map Sink.number _) as [|n rest]; [exact I|].
    destruct Hc as [-> | ->]; [exact Hhead|left; reflexivity].
Qed.

(** X5.  The SBC sink thread logs no missing packet as long as the
    datagrams that reach its check are numbered consecutively modulo
    65536, whatever the first number is and whatever else happens in
    between: signals, failed reads and polls, datagrams dropped while no
    client holds the PCM. *)
Theorem sbc_sink_in_order (payloadcheck : bool) (its : list Sink.sbc_iteration) :
  Rtp.successive (map Sink.number (Sink.sbc_received payloadcheck its)) ->
  Forall (fun e => Sink.is_missing e = false)
         (fst (Sink.sbc_run payloadcheck Sink.seq_number_init its)).
Proof.
  intros H. apply sbc_run_quiet; [|exact H].
  destruct (map Sink.number _); [exact I|left; reflexivity].
Qed.

Lemma sbc_sink_in_order_witness :
  Forall (fun e => Sink.is_missing e = false)
         (fst (Sink.sbc_run true Sink.seq_number_init SinkSample.sbc_its)).
Proof.
  apply sbc_sink_in_order. vm_compute. split; [reflexivity|exact I].
Defined.

(** ** Theorems: what every SBC packet has *)

Section RunInv.

Variables state iteration : Type.
Variable step : state -> iteration -> list Io.action * Io.ending state.
Variable inv : state -> Prop.
Variable good : iteration -> Prop.
Variable P : Rtp.bt_write -> Prop.

Hypothesis step_inv : forall st it,
  inv st -> good it ->
  Forall P (Io.writes (fst (step st it))) /\
  forall st', snd (step st it) = Io.Continue st' -> inv st'.

Lemma run_inv (its : list iteration) (st : state) :
  inv st -> Forall good its -> Forall P (Io.writes (fst (Io.run step st its))).
Proof.
  intros Hinv Hgood. revert st Hinv.
  induction Hgood as [|it its Hit _ IH]; intros st Hinv; cbn [Io.run];
    [constructor|].
  destruct (step_inv st it Hinv Hit) as [Hp Hc].
  destruct (step st it) as [acts e]. cbn [fst snd] in Hp, Hc.
  destruct e as [st'| |]; cbn [fst]; try exact Hp.
  specialize (IH st' (Hc st' eq_refl)).
  destruct (Io.run step st' its) as [acts' e']. cbn [fst] in *.
  rewrite writes_app. apply Forall_app. split; assumption.
Qed.

End RunInv.

Lemma sbc_encode_loop_fits cfg (encodes : list Sbc.sbc_encoded) :
  forall (a a' : Sbc.encoding) (room : Z),
    Forall (fun e => Z.of_nat (List.length (Sbc.enc_frame e)) <= Sbc.sbc_frame_len cfg)
           encodes ->
    0 <= Sbc.output_len a < 2 ^ 64 ->
    Z.of_nat (List.length (Sbc.payload a)) + Sbc.output_len a = room ->
    Sbc.encode_loop cfg encodes a = Some a' ->
    0 <= Sbc.output_len a' /\
    Z.of_nat (List.length (Sbc.payload a')) + Sbc.output_len a' = room.
Proof.
  induction encodes as [|e rest IH]; intros a a' room Hfit Hout Hroom;
    cbn [Sbc.encode_loop].
  - destruct (_ && _); [discriminate|]. intros [= <-]. split; [lia|exact Hroom].
  - apply Forall_cons_iff in Hfit as [He Hrest].
    destruct (Sbc.input_len a >=? Sbc.sbc_pcm_samples cfg); cbn [andb];
      [|intros [= <-]; split; [lia|exact Hroom]].
    destruct (Z.geb_spec (Sbc.output_len a) (Sbc.sbc_frame_len cfg)) as [Hge|_];
      [|intros [= <-]; split; [lia|exact Hroom]].
    destruct (Sbc.enc_len e <? 0); [intros [= <-]; split; [lia|exact Hroom]|].
    apply IH; [exact Hrest| |]; cbn [Sbc.output_len Sbc.payload];
      rewrite u64_small by lia; [lia|].
    rewrite length_app, Nat2Z.inj_add. lia.
Qed.

Lemma sbc_encode_and_send_packets cfg h bs st it samples :
  Stream.same_kind h (Sbc.rtp_header st) -> Sbc.bt_size st = bs ->
  Forall (Stream.sbc_packet h) (Io.writes (fst (Sbc.encode_and_send cfg st it samples))) /\
  (Stream.frames_fit cfg it -> 13 <= bs < 2 ^ 64 ->
   Forall (fun w => 13 <= Rtp.w_len w <= bs)
          (Io.writes (fst (Sbc.encode_and_send cfg st it samples)))) /\
  forall st', snd (Sbc.encode_and_send cfg st it samples) = Io.Continue st' ->
              Stream.same_kind h (Sbc.rtp_header st') /\ Sbc.bt_size st' = bs.
Proof.
  intros Hk Hbs. unfold Sbc.encode_and_send.
  destruct (Sbc.encode_loop _ _ _) as [a|] eqn:Eloop.
  2:{ cbn [fst snd]. rewrite writes_only_init.
      split; [constructor|split; [constructor|discriminate]]. }
  destruct (Rtp.io_thread_write_bt _ _ _ _ _) as [[[ret e] q]|].
  2:{ cbn [fst snd]. rewrite writes_only_init.
      split; [constructor|split; [constructor|discriminate]]. }
  assert (Hfit : Stream.frames_fit cfg it -> 13 <= bs < 2 ^ 64 ->
                 13 <= Rtp.RTP_HEADER_LEN + Rtp.sizeof_rtp_media_header
                       + Z.of_nat (List.length (Sbc.payload a)) <= bs).
  { intros Hf Hb. unfold Rtp.RTP_HEADER_LEN, Rtp.sizeof_rtp_media_header in *.
    eapply (sbc_encode_loop_fits cfg (Sbc.it_encodes it) _ a (bs - 13) Hf) in Eloop;
      [|cbn [Sbc.output_len]; lia
       |cbn [Sbc.output_len Sbc.payload List.length Z.of_nat]; lia].
    lia. }
  assert (Hpkt : forall f,
    Stream.sbc_packet h
      (Rtp.mkWrite
         (Rtp.mkHeader (Rtp.version (Sbc.rtp_header st)) (Rtp.paytype (Sbc.rtp_header st))
                       (Rtp.markbit (Sbc.rtp_header st))
                       (Rtp.htons (u16 (Sbc.seq_number st + 1)))
                       (Rtp.htonl (Sbc.timestamp st)))
         (Some (Rtp.mkMedia (Rtp.frame_count_field (Sbc.sbc_frames a))))
         (Sbc.payload a)
         (Rtp.RTP_HEADER_LEN + Rtp.sizeof_rtp_media_header
          + Z.of_nat (List.length (Sbc.payload a))) ret e f)).
  { intros f. split; [exact Hk|]. split; [eexists; reflexivity|reflexivity]. }
  destruct ((ret =? -1) && Io.is_disconnect e); cbn [fst snd];
    rewrite writes_init_acts; cbn [Io.writes].
  - split; [constructor; [apply Hpkt|constructor]|].
    split; [|discriminate].
    intros Hf Hb. constructor; [|constructor]. cbn [Rtp.w_len]. auto.
  - split; [constructor; [apply Hpkt|constructor]|].
    split.
    + intros Hf Hb. constructor; [|constructor]. cbn [Rtp.w_len]. auto.
    + intros st' [= <-]. cbn [Sbc.rtp_header Sbc.bt_size]. exact (conj Hk Hbs).
Qed.

Lemma sbc_step_packets cfg h bs st it :
  Stream.same_kind h (Sbc.rtp_header st) -> Sbc.bt_size st = bs ->
  Forall (Stream.sbc_packet h) (Io.writes (fst (Sbc.step cfg st it))) /\
  (Stream.frames_fit cfg it -> 13 <= bs < 2 ^ 64 ->
   Forall (fun w => 13 <= Rtp.w_len w <= bs) (Io.writes (fst (Sbc.step cfg st it)))) /\
  forall st', snd (Sbc.step cfg st it) = Io.Continue st' ->
              Stream.same_kind h (Sbc.rtp_header st') /\ Sbc.bt_size st' = bs.
Proof.
  intros Hk Hbs.
  assert (Hread :
    Forall (Stream.sbc_packet h) (Io.writes (fst (Sbc.read_and_send cfg st it))) /\
    (Stream.frames_fit cfg it -> 13 <= bs < 2 ^ 64 ->
     Forall (fun w => 13 <= Rtp.w_len w <= bs)
            (Io.writes (fst (Sbc.read_and_send cfg st it)))) /\
    forall st', snd (Sbc.read_and_send cfg st it) = Io.Continue st' ->
                Stream.same_kind h (Sbc.rtp_header st') /\ Sbc.bt_size st' = bs).
  { unfold Sbc.read_and_send.
    destruct (Fifo.io_thread_read_pcm _ _) as [r|];
      [|split; [constructor|split; [constructor|discriminate]]].
    destruct (Fifo.ret r =? 0).
    { cbn [fst snd]. rewrite writes_only_release.
      split; [constructor|split; [constructor|]].
      intros st' [= <-]. exact (conj Hk Hbs). }
    destruct (Fifo.ret r =? -1).
    { destruct (Fifo.errno_out r =? EAGAIN); cbn [fst snd];
        rewrite writes_only_release;
        (split; [constructor|split; [constructor|]]);
        [intros st' [= <-]; exact (conj Hk Hbs)|discriminate]. }
    pose proof (sbc_encode_and_send_packets cfg h bs
                  (Sbc.set_errno st (Fifo.errno_out r)) it (Fifo.ret r) Hk Hbs) as H.
    destruct (Sbc.encode_and_send _ _ _ _) as [acts e]. cbn [fst snd] in *.
    rewrite writes_release. exact H. }
  unfold Sbc.step.
  destruct (Sbc.it_poll it) as [|e|[|]].
  - cbn [fst snd Io.writes]. split; [constructor|split; [constructor|]].
    destruct (Sbc.it_pcm_closed it); intros st' E;
      [discriminate|injection E as <-; exact (conj Hk Hbs)].
  - destruct (e =? EINTR); cbn [fst snd Io.writes];
      (split; [constructor|split; [constructor|]]);
      intros st' E; [injection E as <-; exact (conj Hk Hbs)|discriminate].
  - destruct (Sbc.it_signal it) as [[| | | | | |]|];
      try exact Hread;
      cbn [fst snd Io.writes]; (split; [constructor|split; [constructor|]]);
      intros st' E; injection E as <-; exact (conj Hk Hbs).
  - exact Hread.
Qed.

Lemma sbc_run_packets cfg h st its :
  Stream.same_kind h (Sbc.rtp_header st) ->
  Forall (Stream.sbc_packet h) (Io.writes (fst (Sbc.run cfg st its))).
Proof.
  intros Hk. unfold Sbc.run.
  apply (run_inv Sbc.state Sbc.iteration (Sbc.step cfg)
           (fun s => Stream.same_kind h (Sbc.rtp_header s)) (fun _ => True)
           (Stream.sbc_packet h)); [|exact Hk|apply Forall_trivial].
  intros st0 it H0 _.
  destruct (sbc_step_packets cfg h (Sbc.bt_size st0) st0 it H0 eq_refl) as (H1 & _ & H3).
  split; [exact H1|]. intros st' E. apply (H3 st' E).
Qed.

(** X6.  Every packet the SBC source thread writes after its set-up is
    an RTP packet of version 2 and payload type 96 with the mark bit
    clear, followed by a media header, and its length is that of the two
    headers (13 bytes) plus the frames it carries. *)
Theorem sbc_packets_are_rtp cfg (mtu r1 r2 e : Z) (its : list Sbc.iteration) :
  Forall (fun w =>
            Rtp.version (Rtp.w_header w) = 2 /\
            Rtp.paytype (Rtp.w_header w) = 96 /\
            Rtp.markbit (Rtp.w_header w) = false /\
            (exists m, Rtp.w_media w = Some m) /\
            Rtp.w_len w = 13 + Z.of_nat (List.length (Rtp.w_payload w)))
         (Io.writes (fst (Sbc.run cfg (fst (Sbc.init cfg mtu r1 r2 e)) its))).
Proof.
  eapply Forall_impl;
    [|apply (sbc_run_packets cfg (Rtp.mkHeader 2 96 false 0 0));
      unfold Sbc.init; cbn; repeat split].
  intros w ((Hv & Hp & Hm) & Hmedia & Hlen). auto.
Qed.

(** X7.  No packet of the SBC source thread is longer than the thread's
    write buffer, whose size is the write MTU (raised at set-up to hold
    one frame): this holds when the buffer holds the two headers and the
    encoder's frames are no longer than the frame length it announced. *)
Theorem sbc_packets_fit_mtu cfg (st : Sbc.state) (its : list Sbc.iteration) :
  13 <= Sbc.bt_size st < 2 ^ 64 ->
  Forall (Stream.frames_fit cfg) its ->
  Forall (fun w => 13 <= Rtp.w_len w <= Sbc.bt_size st)
         (Io.writes (fst (Sbc.run cfg st its))).
Proof.
  intros Hb Hfit. unfold Sbc.run.
  apply (run_inv Sbc.state Sbc.iteration (Sbc.step cfg)
           (fun s => Sbc.bt_size s = Sbc.bt_size st) (Stream.frames_fit cfg)
           (fun w => 13 <= Rtp.w_len w <= Sbc.bt_size st)); [|reflexivity|exact Hfit].
  intros st0 it H0 Hit.
  destruct (sbc_step_packets cfg (Sbc.rtp_header st0) (Sbc.bt_size st) st0 it
              ltac:(repeat split) H0) as (_ & H2 & H3).
  split; [exact (H2 Hit Hb)|]. intros st' E. apply (H3 st' E).
Qed.

Lemma sbc_packets_fit_mtu_witness :
  Forall (fun w => 13 <= Rtp.w_len w <= Sbc.bt_size Sample.sbc_st)
         (Io.writes (fst (Sbc.run Sample.sbc_cfg Sample.sbc_st
                            [Sample.sbc_short; Sample.sbc_full; Sample.sbc_full]))).
Proof.
  apply sbc_packets_fit_mtu.
  - vm_compute. split; [discriminate|reflexivity].
  - apply Forall_cons; [apply Forall_nil|].
    do 2 (apply Forall_cons;
          [apply Forall_cons; [vm_compute; discriminate|apply Forall_nil]|]).
    apply Forall_nil.
Defined.

Lemma sbc_received_delivery (pc : bool) (fd : Z) decodes (ws : list Rtp.bt_write) :
  fd <> -1 ->
  Forall (fun w => Rtp.paytype (Rtp.w_header w) = 96) ws ->
  Sink.sbc_received pc (map (Stream.sbc_delivery fd decodes) ws)
  = map Sink.packet_of ws.
Proof.
  intros Hfd Hpt. unfold Sink.sbc_received.
  induction Hpt as [|w ws Hw _ IH]; [reflexivity|].
  cbn [map Stream.sbc_delivery Sink.sk_poll Sink.sk_read Sink.sk_pcm_fd
       Sink.received].
  destruct (Z.eqb_spec fd (-1)) as [E|_]; [contradiction|].
  cbn [Sink.packet_of Sink.p_header]. rewrite Hw.
  change (96 <? 96) with false. rewrite andb_false_r.
  cbn [Sink.somes]. f_equal. exact IH.
Qed.

Lemma number_packet_of (ws : list Rtp.bt_write) :
  map Sink.number (map Sink.packet_of ws) = map Rtp.wire_seq ws.
Proof. rewrite map_map. reflexivity. Qed.

(** X8.  What the SBC source thread writes, the SBC sink thread reads
    without logging a missing packet: when the datagrams that a run of the
    source, from its set-up, hands to the socket all reach a sink, in
    order, that is freshly started and has a client on its PCM, the
    numbers the sink finds are the ones it expects, across the wrap at
    65536 and whatever the random first number was. *)
Theorem sbc_source_to_sink cfg (mtu r1 r2 e : Z) (its : list Sbc.iteration)
  (payloadcheck : bool) (fd : Z)
  (decodes : Rtp.bt_write -> list (Sink.sbc_decoded * list Pcm.write_outcome)) :
  fd <> -1 ->
  Forall (fun ev => Sink.is_missing ev = false)
         (fst (Sink.sbc_run payloadcheck Sink.seq_number_init
                 (map (Stream.sbc_delivery fd decodes)
                      (Io.writes
                         (fst (Sbc.run cfg (fst (Sbc.init cfg mtu r1 r2 e)) its)))))).
Proof.
  intros Hfd.
  set (st := fst (Sbc.init cfg mtu r1 r2 e)).
  set (ws := Io.writes (fst (Sbc.run cfg st its))).
  assert (Hpt : Forall (fun w => Rtp.paytype (Rtp.w_header w) = 96) ws).
  { eapply Forall_impl;
      [|apply (sbc_run_packets cfg (Rtp.mkHeader 2 96 false 0 0) st its);
        unfold st, Sbc.init; cbn; repeat split].
    intros w ((_ & Hp & _) & _). exact Hp. }
  apply sbc_run_quiet;
    rewrite (sbc_received_delivery payloadcheck fd decodes ws Hfd Hpt),
            number_packet_of.
  - destruct (map Rtp.wire_seq ws); [exact I|left; reflexivity].
  - apply paced_successive. eapply linked_paced. apply sbc_run_seq.
Qed.

Lemma sbc_source_to_sink_witness :
  Forall (fun ev => Sink.is_missing ev = false)
         (fst (Sink.sbc_run true Sink.seq_number_init
                 (map (Stream.sbc_delivery 5 (fun _ => []))
                      (Io.writes
                         (fst (Sbc.run Sample.sbc_cfg
                                 (fst (Sbc.init Sample.sbc_cfg 679 4660 305419896 0))
                                 [Sample.sbc_short; Sample.sbc_full; Sample.sbc_full])))))).
Proof. apply sbc_source_to_sink. discriminate. Defined.

(** ** Theorems: the AAC sink *)

Lemma aac_step_received (pc : bool) (mtu : Z) (st : Sink.aac_state)
  (it : Sink.aac_iteration) (p : Sink.packet) :
  Sink.received pc (Sink.ak_poll it) (Sink.ak_read it) (Sink.ak_pcm_fd it) = Some p ->
  Sink.aac_step pc mtu st it = Sink.aac_packet mtu st p (Sink.ak_decoded it).
Proof.
  unfold Sink.received, Sink.aac_step.
  destruct (Sink.ak_poll it) as [|e|[|]]; try discriminate;
    (destruct (Sink.ak_read it) as [p'| |e]; try discriminate;
     destruct (Sink.ak_pcm_fd it =? -1); [discriminate|];
     destruct (pc && (Rtp.paytype (Sink.p_header p') <? 96)); [discriminate|];
     intros [= <-]; reflexivity).
Qed.

Lemma aac_step_not_received (pc : bool) (mtu : Z) (st : Sink.aac_state)
  (it : Sink.aac_iteration) :
  Sink.received pc (Sink.ak_poll it) (Sink.ak_read it) (Sink.ak_pcm_fd it) = None ->
  Sink.decoder_inputs (fst (Sink.aac_step pc mtu st it)) = [] /\
  forall st', snd (Sink.aac_step pc mtu st it) = Io.Continue st' ->
              Sink.markbit_quirk st' = Sink.markbit_quirk st /\
              Sink.latm st' = Sink.latm st /\ Sink.latm_data st' = Sink.latm_data st.
Proof.
  unfold Sink.received, Sink.aac_step.
  destruct (Sink.ak_poll it) as [|e|[|]];
    try (intros _; destruct (e =? EINTR); cbn [fst snd Sink.decoder_inputs];
         (split; [reflexivity|]); first [discriminate|intros st' [= <-]; auto]);
    try (intros _; cbn [fst snd Sink.decoder_inputs];
         (split; [reflexivity|]); intros st' [= <-]; auto).
  all: destruct (Sink.ak_read it) as [p| |e];
    try (intros _; cbn [fst snd Sink.decoder_inputs];
         (split; [reflexivity|]); first [discriminate|intros st' [= <-]; auto]).
  all: destruct (Sink.ak_pcm_fd it =? -1);
    [intros _; cbn [fst snd Sink.decoder_inputs];
     (split; [reflexivity|]); intros st' [= <-]; auto|].
  all: destruct (pc && (Rtp.paytype (Sink.p_header p) <? 96)); [|discriminate];
    intros _; cbn [fst snd Sink.decoder_inputs];
    (split; [reflexivity|]); intros st' [= <-]; auto.
Qed.

Lemma aac_packet_quirk (mtu : Z) (st : Sink.aac_state) (p : Sink.packet)
  (d : Sink.aac_decoded) (st' : Sink.aac_state) :
  snd (Sink.aac_packet mtu st p d) = Io.Continue st' ->
  Sink.markbit_quirk st'
  = snd (Sink.track_markbit (Sink.markbit_quirk st) (Rtp.markbit (Sink.p_header p))).
Proof.
  unfold Sink.aac_packet.
  destruct (Sink.track_markbit _ _) as [wq q];
    destruct (Sink.track_seq _ _) as [ws s];
    destruct (Sink.latm_append _ _ _ _) as [b data]; cbn [snd];
    destruct (negb (q =? 1) && negb (Rtp.markbit (Sink.p_header p)));
    [cbn [snd]; intros [= <-]; reflexivity|];
    destruct (negb (Sink.fill_ok d));
    [cbn [snd]; intros [= <-]; reflexivity|];
    destruct (negb (Sink.frame_ok d));
    [cbn [snd]; intros [= <-]; reflexivity|];
    destruct (Sink.stream_info d) as [[fs nc]|];
    [|cbn [snd]; intros [= <-]; reflexivity];
    destruct (Pcm.io_thread_write_pcm _ _ _ _) as [r|]; cbn [snd];
    [intros [= <-]; reflexivity|discriminate].
Qed.

Lemma aac_step_quirk (pc : bool) (mtu : Z) (st : Sink.aac_state)
  (it : Sink.aac_iteration) (st' : Sink.aac_state) :
  snd (Sink.aac_step pc mtu st it) = Io.Continue st' ->
  Sink.markbit_quirk st'
  = match Sink.received pc (Sink.ak_poll it) (Sink.ak_read it) (Sink.ak_pcm_fd it) with
    | None => Sink.markbit_quirk st
    | Some p => snd (Sink.track_markbit (Sink.markbit_quirk st)
                                        (Rtp.markbit (Sink.p_header p)))
    end.
Proof.
  destruct (Sink.received pc _ _ _) as [p|] eqn:E.
  - rewrite (aac_step_received pc mtu st it p E). apply aac_packet_quirk.
  - intros H. apply (aac_step_not_received pc mtu st it E). exact H.
Qed.

Lemma aac_run_quirk (pc : bool) (mtu : Z) (its : list Sink.aac_iteration) :
  forall st st',
    snd (Sink.aac_run pc mtu st its) = Io.Continue st' ->
    Sink.markbit_quirk st'
    = fold_left (fun q p => snd (Sink.track_markbit q (Rtp.markbit (Sink.p_header p))))
                (Sink.aac_received pc its) (Sink.markbit_quirk st).
Proof.
  unfold Sink.aac_run, Sink.aac_received.
  induction its as [|it its IH]; intros st st'; cbn [Loop.run map Sink.somes].
  - intros [= <-]. reflexivity.
  - pose proof (aac_step_quirk pc mtu st it) as Hstep.
    destruct (Sink.aac_step pc mtu st it) as [evs [st1| |]]; cbn [snd] in *;
      try discriminate.
    specialize (Hstep st1 eq_refl). specialize (IH st1 st').
    destruct (Loop.run _ st1 its) as [evs' e']. cbn [snd] in *.
    intros E. rewrite (IH E), Hstep.
    destruct (Sink.received pc _ _ _); reflexivity.
Qed.

Lemma quirk_settled (marks : list bool) (q : Z) :
  0 <= q ->
  fold_left (fun q m => snd (Sink.track_markbit q m)) marks q = q.
Proof.
  intros Hq. induction marks as [|m marks IH]; [reflexivity|].
  cbn [fold_left]. unfold Sink.track_markbit at 2.
  destruct (Z.ltb_spec q 0); [lia|]. exact IH.
Qed.

Lemma fold_left_map {A B C : Type} (f : A -> B -> A) (g : C -> B) (l : list C) :
  forall a, fold_left f (map g l) a = fold_left (fun a c => f a (g c)) l a.
Proof. induction l as [|c l IH]; intros a; [reflexivity|apply IH]. Qed.

(** X9.  The AAC sink thread settles its mark bit quirk on the first three
    datagrams that reach its checks: if one of them has the mark bit set,
    the workaround stays off for good (0), however many unmarked datagrams
    follow; if all three come without it, the workaround is on for good
    (1); before that the counter is -3 plus the unmarked datagrams seen. *)
Theorem aac_markbit_quirk_settles (payloadcheck : bool) (mtu_read : Z)
  (its : list Sink.aac_iteration) (st' : Sink.aac_state) :
  snd (Sink.aac_run payloadcheck mtu_read (Sink.aac_init mtu_read) its)
  = Io.Continue st' ->
  let marks := map (fun p => Rtp.markbit (Sink.p_header p))
                   (Sink.aac_received payloadcheck its) in
  (In true (firstn 3 marks) -> Sink.markbit_quirk st' = 0) /\
  (firstn 3 marks = [false; false; false] -> Sink.markbit_quirk st' = 1) /\
  ((List.length marks < 3)%nat -> ~ In true marks ->
   Sink.markbit_quirk st' = -3 + Z.of_nat (List.length marks)).
Proof.
  intros Hrun marks.
  rewrite (aac_run_quirk payloadcheck mtu_read its _ st' Hrun).
  cbn [Sink.aac_init Sink.markbit_quirk].
  rewrite <- (fold_left_map (fun q m => snd (Sink.track_markbit q m))
                            (fun p => Rtp.markbit (Sink.p_header p))).
  fold marks. clearbody marks. clear.
  destruct marks as [|[|] [|[|] [|[|] rest]]]; cbn [firstn In fold_left List.length];
    repeat match goal with
           | |- context [Sink.track_markbit ?q ?m] =>
               let v := eval vm_compute in (Sink.track_markbit q m) in
               change (Sink.track_markbit q m) with v; cbn [snd]
           end;
    rewrite ?quirk_settled by lia;
    (split; [|split]); intros; try reflexivity; try lia; try discriminate;
    try (exfalso; tauto).
Qed.

Lemma aac_markbit_quirk_settles_witness :
  exists st',
    snd (Sink.aac_run true 24 (Sink.aac_init 24) SinkSample.aac_its) = Io.Continue st' /\
    let marks := map (fun p => Rtp.markbit (Sink.p_header p))
                     (Sink.aac_received true SinkSample.aac_its) in
    (In true (firstn 3 marks) -> Sink.markbit_quirk st' = 0) /\
    (firstn 3 marks = [false; false; false] -> Sink.markbit_quirk st' = 1) /\
    ((List.length marks < 3)%nat -> ~ In true marks ->
     Sink.markbit_quirk st' = -3 + Z.of_nat (List.length marks)).
Proof.
  eexists. split; [vm_compute; reflexivity|].
  apply (aac_markbit_quirk_settles true 24 SinkSample.aac_its). reflexivity.
Defined.

Lemma latm_append_holds (mtu : Z) (b : Ffb.t) (data acc payload : list byte) :
  0 <= Ffb.ffb_len_out b <= Ffb.size b ->
  Ffb.ffb_len_out b = Z.of_nat (List.length acc) ->
  firstn (List.length acc) data = acc ->
  Z.of_nat (List.length payload) <= mtu ->
  let (b', data') := Sink.latm_append mtu b data payload in
  0 <= Ffb.ffb_len_out b' <= Ffb.size b' /\
  Ffb.ffb_len_out b' = Z.of_nat (List.length (acc ++ payload)) /\
  firstn (List.length (acc ++ payload)) data' = acc ++ payload.
Proof.
  intros Hb Hlen Hacc Hfit. unfold Sink.latm_append.
  set (n := Z.of_nat (List.length payload)) in *.
  assert (Hn : 0 <= n) by (subst n; lia).
  assert (Hgrown :
    let b1 := if Ffb.ffb_len_in b <? n
              then Ffb.ffb_seek (Ffb.ffb_init (Ffb.size b + mtu)) (Ffb.ffb_len_out b)
              else b in
    Ffb.ffb_len_out b1 = Ffb.ffb_len_out b /\ n <= Ffb.ffb_len_in b1 /\
    Ffb.ffb_len_out b1 <= Ffb.size b1).
  { destruct b as [size len_out].
    unfold Ffb.ffb_len_in, Ffb.ffb_len_out, Ffb.ffb_seek, Ffb.ffb_init in *.
    cbn [Ffb.size Ffb.len_out] in *.
    destruct (Z.ltb_spec (size - len_out) n) as [Hsmall|Hbig].
    - unfold Ffb.ffb_len_in, Ffb.ffb_len_out. cbn [Ffb.size Ffb.len_out].
      destruct (Z.gtb_spec len_out (size + mtu - 0)) as [?|_]; [lia|].
      cbn [Ffb.size Ffb.len_out]. lia.
    - cbn [Ffb.size Ffb.len_out]. split; [reflexivity|split; [exact Hbig|apply Hb]]. }
  cbv zeta in Hgrown.
  destruct (if Ffb.ffb_len_in b <? n then _ else b) as [size1 len1].
  unfold Ffb.ffb_seek. unfold Ffb.ffb_len_in, Ffb.ffb_len_out in *.
  cbn [Ffb.size Ffb.len_out] in *.
  destruct Hgrown as (H1 & H2 & H3).
  destruct (Z.gtb_spec n (size1 - len1)) as [?|_]; [lia|].
  cbn [Ffb.size Ffb.len_out]. rewrite length_app, Nat2Z.inj_add. fold n.
  split; [lia|]. split; [lia|].
  replace (Z.to_nat len1) with (List.length acc) by lia.
  rewrite Hacc, app_assoc.
  rewrite <- (length_app acc payload).
  rewrite firstn_app, Nat.sub_diag, firstn_O, app_nil_r.
  apply firstn_all.
Qed.

Lemma decoder_inputs_app (a b : list Sink.event) :
  Sink.decoder_inputs (a ++ b) = Sink.decoder_inputs a ++ Sink.decoder_inputs b.
Proof.
  induction a as [|x a IH]; [reflexivity|].
  destruct x; cbn [app Sink.decoder_inputs]; rewrite IH; reflexivity.
Qed.

Lemma track_markbit_inputs (q : Z) (m : bool) :
  Sink.decoder_inputs (fst (Sink.track_markbit q m)) = [].
Proof.
  unfold Sink.track_markbit.
  destruct (q <? 0); [|reflexivity]. destruct m; [reflexivity|].
  destruct (q + 1 =? 0); reflexivity.
Qed.

Lemma track_seq_inputs (s f : Z) :
  Sink.decoder_inputs (fst (Sink.track_seq s f)) = [].
Proof.
  unfold Sink.track_seq.
  destruct (negb (u16 (s + 1) =? Rtp.ntohs f)); [|reflexivity].
  destruct (negb (u16 (s + 1) =? 0)); reflexivity.
Qed.

Lemma aac_packet_fragment (mtu : Z) (st : Sink.aac_state) (p : Sink.packet)
  (d : Sink.aac_decoded) (acc : list byte) :
  Sink.markbit_quirk st = 0 -> Sink.latm_holds st acc ->
  Z.of_nat (List.length (Sink.p_payload p)) <= mtu ->
  Rtp.markbit (Sink.p_header p) = false ->
  exists evs st',
    Sink.aac_packet mtu st p d = (evs, Io.Continue st') /\
    Sink.decoder_inputs evs = [] /\
    Sink.markbit_quirk st' = 0 /\
    Sink.latm_holds st' (acc ++ Sink.p_payload p).
Proof.
  intros Hq (Hb & Hlen & Hacc) Hfit Hm. unfold Sink.aac_packet.
  rewrite Hq, Hm.
  pose proof (track_seq_inputs (Sink.a_seq_number st)
                (Rtp.seq_number (Sink.p_header p))) as Hs.
  destruct (Sink.track_seq _ _) as [ws s]. cbn [fst] in Hs.
  pose proof (latm_append_holds mtu (Sink.latm st) (Sink.latm_data st) acc
                (Sink.p_payload p) Hb Hlen Hacc Hfit) as Ha.
  destruct (Sink.latm_append _ _ _ _) as [b data].
  cbn [Sink.track_markbit Z.ltb Z.compare Z.eqb negb andb app].
  eexists _, _. split; [reflexivity|]. split; [exact Hs|].
  split; [reflexivity|]. exact Ha.
Qed.

Lemma aac_packet_marked (mtu : Z) (st : Sink.aac_state) (p : Sink.packet)
  (d : Sink.aac_decoded) (acc : list byte) :
  Sink.latm_holds st acc ->
  Z.of_nat (List.length (Sink.p_payload p)) <= mtu ->
  Rtp.markbit (Sink.p_header p) = true ->
  Z.of_nat (List.length (acc ++ Sink.p_payload p)) < 2 ^ 32 ->
  Sink.decoder_inputs (fst (Sink.aac_packet mtu st p d)) = [acc ++ Sink.p_payload p].
Proof.
  intros (Hb & Hlen & Hacc) Hfit Hm Hsmall. unfold Sink.aac_packet.
  rewrite Hm.
  pose proof (track_markbit_inputs (Sink.markbit_quirk st) true) as Hq.
  destruct (Sink.track_markbit _ _) as [wq q]. cbn [fst] in Hq.
  pose proof (track_seq_inputs (Sink.a_seq_number st)
                (Rtp.seq_number (Sink.p_header p))) as Hs.
  destruct (Sink.track_seq _ _) as [ws s]. cbn [fst] in Hs.
  pose proof (latm_append_holds mtu (Sink.latm st) (Sink.latm_data st) acc
                (Sink.p_payload p) Hb Hlen Hacc Hfit) as Ha.
  destruct (Sink.latm_append _ _ _ _) as [b data].
  destruct Ha as (Hb' & Hlen' & Hdata).
  rewrite andb_false_r.
  assert (Hin : firstn (Z.to_nat (u32 (Ffb.ffb_len_out b))) data
                = acc ++ Sink.p_payload p).
  { unfold u32. rewrite Z.mod_small by lia. rewrite Hlen', Nat2Z.id. exact Hdata. }
  rewrite Hin.
  assert (Hw : forall tail,
             Sink.decoder_inputs ((wq ++ ws) ++ Sink.Decode (acc ++ Sink.p_payload p) :: tail)
             = (acc ++ Sink.p_payload p) :: Sink.decoder_inputs tail).
  { intros tail. rewrite !decoder_inputs_app, Hq, Hs. reflexivity. }
  destruct (negb (Sink.fill_ok d)); [cbn [fst]; apply Hw|].
  destruct (negb (Sink.frame_ok d)); [cbn [fst]; apply Hw|].
  destruct (Sink.stream_info d) as [[fs nc]|]; [|cbn [fst]; apply Hw].
  destruct (Pcm.io_thread_write_pcm _ _ _ _) as [r|]; cbn [fst]; apply Hw.
Qed.

Lemma aac_run_reassembles (pc : bool) (mtu : Z) (its : list Sink.aac_iteration)
  (ps : list Sink.packet) :
  Sink.aac_reads pc its ps ->
  forall (st : Sink.aac_state) (acc : list byte) (itq : Sink.aac_iteration)
         (q : Sink.packet),
    Sink.received pc (Sink.ak_poll itq) (Sink.ak_read itq) (Sink.ak_pcm_fd itq)
    = Some q ->
    Forall (fun p => Rtp.markbit (Sink.p_header p) = false) ps ->
    Rtp.markbit (Sink.p_header q) = true ->
    Forall (fun p => Z.of_nat (List.length (Sink.p_payload p)) <= mtu) (ps ++ [q]) ->
    Sink.markbit_quirk st = 0 -> Sink.latm_holds st acc ->
    Z.of_nat (List.length (acc ++ List.concat (map Sink.p_payload (ps ++ [q]))))
    < 2 ^ 32 ->
    Sink.decoder_inputs (fst (Sink.aac_run pc mtu st (its ++ [itq])))
    = [acc ++ List.concat (map Sink.p_payload (ps ++ [q]))].
Proof.
  unfold Sink.aac_reads, Sink.aac_run.
  induction 1 as [|it p its ps Hit _ IH];
    intros st acc itq q Hq Hun Hmark Hfit Hquirk Hholds Hsmall.
  - cbn [app Loop.run map List.concat] in *. rewrite app_nil_r in *.
    rewrite (aac_step_received pc mtu st itq q Hq).
    apply Forall_cons_iff in Hfit as [Hfq _].
    pose proof (aac_packet_marked mtu st q (Sink.ak_decoded itq) acc Hholds Hfq
                  Hmark Hsmall) as H.
    destruct (Sink.aac_packet mtu st q _) as [evs [st'| |]]; cbn [fst] in *;
      [rewrite app_nil_r|..]; exact H.
  - cbn [app Loop.run map List.concat] in *.
    apply Forall_cons_iff in Hun as [Hp Hun].
    apply Forall_cons_iff in Hfit as [Hfp Hfit].
    rewrite (aac_step_received pc mtu st it p Hit).
    destruct (aac_packet_fragment mtu st p (Sink.ak_decoded it) acc Hquirk Hholds
                Hfp Hp) as (evs & st' & E & Hevs & Hquirk' & Hholds').
    rewrite E.
    specialize (IH st' (acc ++ Sink.p_payload p) itq q Hq Hun Hmark Hfit Hquirk' Hholds').
    rewrite <- app_assoc in IH. specialize (IH Hsmall).
    destruct (Loop.run _ st' (its ++ [itq])) as [evs' e']. cbn [fst] in *.
    rewrite decoder_inputs_app, Hevs. exact IH.
Qed.

(** X10.  The AAC sink thread reassembles a fragmented access unit: with
    the mark bit quirk off and an empty LATM buffer, datagrams without the
    mark bit are only collected, and the datagram with the mark bit makes
    the thread call the decoder, once, on the payloads of all of them in
    the order of arrival.  (Each payload fits the read MTU, by which the
    buffer grows when it is short, and the whole is below 4 GiB.) *)
Theorem aac_sink_reassembles (payloadcheck : bool) (mtu_read : Z)
  (st : Sink.aac_state) (its : list Sink.aac_iteration)
  (ps : list Sink.packet) (q : Sink.packet) :
  Sink.aac_reads payloadcheck its (ps ++ [q]) ->
  Forall (fun p => Rtp.markbit (Sink.p_header p) = false) ps ->
  Rtp.markbit (Sink.p_header q) = true ->
  Forall (fun p => Z.of_nat (List.length (Sink.p_payload p)) <= mtu_read) (ps ++ [q]) ->
  Sink.markbit_quirk st = 0 -> Sink.latm_holds st [] ->
  Z.of_nat (List.length (List.concat (map Sink.p_payload (ps ++ [q])))) < 2 ^ 32 ->
  Sink.decoder_inputs (fst (Sink.aac_run payloadcheck mtu_read st its))
  = [List.concat (map Sink.p_payload (ps ++ [q]))].
Proof.
  intros Hreads Hun Hmark Hfit Hquirk Hholds Hsmall.
  apply Forall2_app_inv_r in Hreads as (its1 & its2 & H1 & H2 & ->).
  inversion H2 as [|itq q' its3 l Hq H3]; subst. inversion H3; subst.
  exact (aac_run_reassembles payloadcheck mtu_read its1 ps H1 st [] itq q Hq
           Hun Hmark Hfit Hquirk Hholds Hsmall).
Qed.

Lemma aac_sink_reassembles_witness :
  Sink.decoder_inputs (fst (Sink.aac_run true 24 SinkSample.aac_st SinkSample.aac_its))
  = [List.concat (map Sink.p_payload
                      (SinkSample.fragments ++ [SinkSample.last_fragment]))].
Proof.
  apply aac_sink_reassembles.
  - unfold Sink.aac_reads, SinkSample.aac_its. cbn [map app SinkSample.fragments].
    repeat (apply Forall2_cons; [reflexivity|]). apply Forall2_nil.
  - repeat (apply Forall_cons; [reflexivity|]). apply Forall_nil.
  - reflexivity.
  - cbn [app SinkSample.fragments].
    repeat (apply Forall_cons; [vm_compute; discriminate|]). apply Forall_nil.
  - reflexivity.
  - unfold Sink.latm_holds. vm_compute.
    split; [split; discriminate|split; reflexivity].
  - vm_compute. reflexivity.
Defined.

Lemma aac_fragment_loop_paytype cfg (envs : list Rtp.bt_env) :
  forall (s : Aac.sender) (buffer : list byte) (payload_len frames : Z),
    Forall (fun w => Rtp.paytype (Rtp.w_header w) = Rtp.paytype (Aac.s_header s))
           (fst (Aac.fragment_loop cfg envs s buffer payload_len frames)).
Proof.
  induction envs as [|env rest IH]; intros s buffer payload_len frames;
    cbn [Aac.fragment_loop]; [constructor|].
  destruct (Rtp.io_thread_write_bt _ _ _ _ _) as [[[ret e] q]|]; [|constructor].
  destruct (ret =? -1); [repeat constructor|].
  destruct (u64 (payload_len - (ret - Rtp.RTP_HEADER_LEN)) =? 0);
    [repeat constructor|].
  match goal with
  | |- context [Aac.fragment_loop cfg rest ?s1 ?b1 ?l1 frames] =>
      specialize (IH s1 b1 l1 frames);
      destruct (Aac.fragment_loop cfg rest s1 b1 l1 frames) as [ws fr]
  end.
  cbn [fst] in *. constructor; [reflexivity|exact IH].
Qed.

Lemma fragmented_last (max : Z) (ws : list Rtp.bt_write) :
  Aac.fragmented max ws ->
  exists ps q,
    ws = ps ++ [q] /\
    Forall (fun w => Rtp.markbit (Rtp.w_header w) = false) ps /\
    Rtp.markbit (Rtp.w_header q) = true /\
    Forall (fun w => Z.of_nat (List.length (Rtp.w_payload w)) <= max) ws.
Proof.
  induction ws as [|w ws IH]; [intros []|].
  cbn [Aac.fragmented]. destruct ws as [|w' ws'].
  - intros [Hm Hl]. exists [], w. repeat split; [constructor|exact Hm|].
    constructor; [lia|constructor].
  - intros (Hm & Hl & Hrest). destruct (IH Hrest) as (ps & q & E & Hun & Hq & Hfit).
    exists (w :: ps), q. rewrite E. repeat split.
    + constructor; assumption.
    + exact Hq.
    + constructor; [lia|]. rewrite <- E. exact Hfit.
Qed.

Lemma received_delivery (pc : bool) (fd : Z) (w : Rtp.bt_write) :
  fd <> -1 ->
  (pc = true -> 96 <= Rtp.paytype (Rtp.w_header w)) ->
  Sink.received pc (Io.PollReady false) (Sink.BtPacket (Sink.packet_of w)) fd
  = Some (Sink.packet_of w).
Proof.
  intros Hfd Hw. cbn [Sink.received].
  destruct (Z.eqb_spec fd (-1)) as [E|_]; [contradiction|].
  cbn [Sink.packet_of Sink.p_header].
  destruct pc; [|reflexivity]. cbn [andb].
  destruct (Z.ltb_spec (Rtp.paytype (Rtp.w_header w)) 96) as [Hlt|_];
    [specialize (Hw eq_refl); lia|reflexivity].
Qed.

Lemma aac_reads_delivery (pc : bool) (fd : Z) decoded (ws : list Rtp.bt_write) :
  fd <> -1 ->
  Forall (fun w => pc = true -> 96 <= Rtp.paytype (Rtp.w_header w)) ws ->
  Sink.aac_reads pc (map (Stream.aac_delivery fd decoded) ws) (map Sink.packet_of ws).
Proof.
  intros Hfd Hpt. unfold Sink.aac_reads.
  induction Hpt as [|w ws Hw _ IH]; [constructor|].
  cbn [map]. constructor; [|exact IH].
  cbn [Stream.aac_delivery Sink.ak_poll Sink.ak_read Sink.ak_pcm_fd].
  now apply received_delivery.
Qed.

(** X11.  An access unit survives the trip from the AAC source thread to
    the AAC sink thread: when the socket takes every datagram of an
    encoding round and the sink reads them in order (its quirk off, its
    LATM buffer empty, a client on its PCM, a read MTU that holds the
    largest fragment), the sink calls its decoder once, on exactly the
    bytes the encoder produced, however many fragments carried them. *)
Theorem aac_source_to_sink cfg (st : Aac.state) (r : Aac.round)
  (payloadcheck : bool) (mtu_read fd : Z)
  (decoded : Rtp.bt_write -> Sink.aac_decoded) (sink : Sink.aac_state) :
  0 < Aac.payload_len_max cfg <= mtu_read ->
  0 < Aac.numOutBytes (Aac.r_encoded r) < 2 ^ 32 ->
  Forall Aac.accepts (Aac.r_writes r) ->
  Aac.numOutBytes (Aac.r_encoded r)
  <= Aac.payload_len_max cfg * Z.of_nat (List.length (Aac.r_writes r)) ->
  (payloadcheck = true -> 96 <= Rtp.paytype (Aac.rtp_header st)) ->
  fd <> -1 ->
  Sink.markbit_quirk sink = 0 -> Sink.latm_holds sink [] ->
  Sink.decoder_inputs
    (fst (Sink.aac_run payloadcheck mtu_read sink
            (map (Stream.aac_delivery fd decoded)
                 (Io.writes (fst (Aac.encode_round cfg st r))))))
  = [Aac.bitstream (Aac.r_encoded r)].
Proof.
  intros HM HL Hacc Henough Hpt Hfd Hquirk Hholds.
  set (s := Aac.mkSender (Aac.stamp st) (Aac.seq_number st) (Aac.coutq_i st)
                         (Aac.errno st)).
  unfold Aac.numOutBytes in HL, Henough.
  destruct (aac_fragment_loop_accepted cfg (Aac.r_writes r) s
              (Aac.bitstream (Aac.r_encoded r))
              (Aac.round_frames cfg (Aac.r_encoded r)) Hacc ltac:(lia)
              ltac:(lia) Henough)
    as (ws & s' & Ef & Hcat & Hfrag & _).
  pose proof (aac_fragment_loop_paytype cfg (Aac.r_writes r) s
                (Aac.bitstream (Aac.r_encoded r))
                (Z.of_nat (List.length (Aac.bitstream (Aac.r_encoded r))))
                (Aac.round_frames cfg (Aac.r_encoded r))) as Hkind.
  rewrite Ef in Hkind. cbn [fst] in Hkind.
  assert (Ews : Io.writes (fst (Aac.encode_round cfg st r)) = ws).
  { unfold Aac.encode_round, Aac.numOutBytes.
    destruct (Z.gtb_spec (Z.of_nat (List.length (Aac.bitstream (Aac.r_encoded r)))) 0)
      as [_|?]; [|lia].
    fold s. rewrite Ef. cbn [fst]. rewrite writes_app, writes_map_BtWrite.
    apply app_nil_r. }
  rewrite Ews.
  destruct (fragmented_last _ ws Hfrag) as (ps & q & E & Hun & Hq & Hfit).
  assert (Hpt' : Forall (fun w => payloadcheck = true ->
                                 96 <= Rtp.paytype (Rtp.w_header w)) ws).
  { eapply Forall_impl; [|exact Hkind]. intros w Hw Hpc. rewrite Hw. apply Hpt, Hpc. }
  assert (Hpay : List.concat (map Sink.p_payload (map Sink.packet_of ps ++ [Sink.packet_of q]))
                 = Aac.bitstream (Aac.r_encoded r)).
  { rewrite <- Hcat, E. change [Sink.packet_of q] with (map Sink.packet_of [q]).
    rewrite <- map_app, map_map. reflexivity. }
  rewrite E in Hpt', Hfit |- *.
  apply Forall_app in Hpt' as [Hpt1 Hpt2]. apply Forall_cons_iff in Hpt2 as [Hptq _].
  apply Forall_app in Hfit as [Hf1 Hf2]. apply Forall_cons_iff in Hf2 as [Hfq _].
  rewrite map_app. cbn [map]. rewrite <- Hpay.
  apply (aac_run_reassembles payloadcheck mtu_read
           (map (Stream.aac_delivery fd decoded) ps) (map Sink.packet_of ps)
           (aac_reads_delivery payloadcheck fd decoded ps Hfd Hpt1)
           sink [] (Stream.aac_delivery fd decoded q) (Sink.packet_of q)
           (received_delivery payloadcheck fd q Hfd Hptq)).
  - apply Forall_map. exact Hun.
  - exact Hq.
  - apply Forall_app. split.
    + apply Forall_map. eapply Forall_impl; [|exact Hf1].
      intros w Hw. cbv beta in Hw |- *. cbn [Sink.packet_of Sink.p_payload]. lia.
    + constructor; [|constructor]. cbv beta in Hfq |- *.
      cbn [Sink.packet_of Sink.p_payload]. lia.
  - exact Hquirk.
  - exact Hholds.
  - cbn [app]. rewrite Hpay. lia.
Qed.

Lemma aac_source_to_sink_witness :
  Sink.decoder_inputs
    (fst (Sink.aac_run true 24 SinkSample.aac_st
            (map (Stream.aac_delivery 5 (fun _ => SinkSample.no_decode))
                 (Io.writes (fst (Aac.encode_round Sample.aac_cfg Sample.aac_st
                                    Sample.aac_round))))))
  = [Aac.bitstream (Aac.r_encoded Sample.aac_round)].
Proof.
  apply aac_source_to_sink.
  - vm_compute. split; [reflexivity|discriminate].
  - vm_compute. split; reflexivity.
  - do 3 (apply Forall_cons; [exact sample_accepts|]). apply Forall_nil.
  - vm_compute. discriminate.
  - intros _. vm_compute. discriminate.
  - discriminate.
  - reflexivity.
  - unfold Sink.latm_holds. vm_compute.
    split; [split; discriminate|split; reflexivity].
Defined.

(** ** Theorems: the bus interface *)

(** X12.  The modes a PCM advertises in its [Modes] property are exactly
    the modes for which [Open] finds an endpoint: for every other string
    [Open] answers "Invalid operation mode" or "Operation mode not
    supported".  (For an SCO transport without a codec both modes are
    advertised and [Open] answers "HFP audio codec not selected".) *)
Theorem advertised_modes_are_served (t : Dbus.ba_transport) (mode : string) :
  In mode (Bus.ba_variant_new_pcm_modes t) <->
  Dbus.select_pcm t mode <> Dbus.InvalidMode /\
  Dbus.select_pcm t mode <> Dbus.NotSupported.
Proof.
  unfold Bus.ba_variant_new_pcm_modes, Dbus.select_pcm.
  destruct (String.eqb_spec mode Dbus.BLUEALSA_PCM_MODE_SOURCE) as [Es|Ns];
    [|destruct (String.eqb_spec mode Dbus.BLUEALSA_PCM_MODE_SINK) as [Ek|Nk]];
    destruct (Dbus.t_profile t);
    cbn [Dbus.is_a2dp_source Dbus.is_a2dp_sink Dbus.IS_BA_TRANSPORT_PROFILE_SCO
         negb andb orb firstn skipn In];
    try destruct (Dbus.t_codec t =? Dbus.HFP_CODEC_UNDEFINED);
    subst; split;
    try (intros _; split; discriminate);
    try (intros [H|[H|[]]]; congruence);
    try (intros [H|[]]; first [congruence|discriminate H]);
    try (intros []; fail);
    try (intros [H1 H2]; congruence);
    try (intros _; auto; fail).
Qed.

Lemma select_pcm_set_fd (t : Dbus.ba_transport) (mode : string)
  (p : Dbus.pcm_ref) (fd : Z) :
  Dbus.select_pcm (Dbus.set_pcm_fd t p fd) mode = Dbus.select_pcm t mode.
Proof. destruct p; reflexivity. Qed.

Lemma pcm_fd_set_same (t : Dbus.ba_transport) (p : Dbus.pcm_ref) (fd : Z) :
  Dbus.pcm_fd (Dbus.set_pcm_fd t p fd) p = fd.
Proof. destruct p; reflexivity. Qed.

Lemma pcm_fd_set_other (t : Dbus.ba_transport) (p q : Dbus.pcm_ref) (fd : Z) :
  p <> q -> Dbus.pcm_fd (Dbus.set_pcm_fd t p fd) q = Dbus.pcm_fd t q.
Proof. destruct p, q; intros H; try reflexivity; contradiction. Qed.

(** The transport after an [Open] that got as far as creating its
    descriptors: the endpoint holds one end of the pipe. *)
Lemma open_takes_endpoint (t : Dbus.ba_transport) (mode : string)
  (env : Dbus.open_env) (pcm : Dbus.pcm_ref) (p0 p1 s0 s1 : N) :
  Dbus.select_pcm t mode = Dbus.Selected pcm ->
  Dbus.pcm_fd t pcm = -1 ->
  Dbus.pipe2_ret env = Some (p0, p1) ->
  Dbus.socketpair_ret env = Some (s0, s1) ->
  Dbus.o_transport (Dbus.bluealsa_pcm_open t mode env)
  = Dbus.set_pcm_fd t pcm
      (if String.eqb mode Dbus.BLUEALSA_PCM_MODE_SOURCE then Z.of_N p0 else Z.of_N p1).
Proof.
  intros Hsel Hfd Hp Hs. unfold Dbus.bluealsa_pcm_open.
  rewrite Hsel, Hfd, Hp, Hs. cbn [Z.eqb negb].
  destruct (String.eqb mode Dbus.BLUEALSA_PCM_MODE_SOURCE); cbn [nth];
    destruct (Dbus.fcntl_ret env =? -1); try reflexivity;
    destruct (Dbus.is_a2dp_source _ && (Dbus.acquire_ret env =? -1)); reflexivity.
Qed.

(** X13.  Once [Open] has created its descriptors the endpoint is taken:
    a second [Open] for the same mode is answered with
    [G_DBUS_ERROR_FAILED] and [strerror(EBUSY)], makes no system call,
    sends no signal and leaves the transport as it was.  This holds after
    a first call that succeeded and equally after one that failed at
    [fcntl] or at the acquisition, since the error path closes the
    descriptors but does not reset the endpoint. *)
Theorem open_twice_is_busy (t : Dbus.ba_transport) (mode : string)
  (env env' : Dbus.open_env) (pcm : Dbus.pcm_ref) (p0 p1 s0 s1 : N) :
  Dbus.select_pcm t mode = Dbus.Selected pcm ->
  Dbus.pcm_fd t pcm = -1 ->
  Dbus.pipe2_ret env = Some (p0, p1) ->
  Dbus.socketpair_ret env = Some (s0, s1) ->
  let t1 := Dbus.o_transport (Dbus.bluealsa_pcm_open t mode env) in
  Dbus.bluealsa_pcm_open t1 mode env'
  = Dbus.mkOutcome (Dbus.ReturnError Dbus.G_DBUS_ERROR_FAILED (Dbus.Strerror EBUSY))
                   t1 [] [] false None.
Proof.
  intros Hsel Hfd Hp Hs t1. subst t1.
  rewrite (open_takes_endpoint t mode env pcm p0 p1 s0 s1 Hsel Hfd Hp Hs).
  unfold Dbus.bluealsa_pcm_open at 1.
  rewrite select_pcm_set_fd, Hsel, pcm_fd_set_same.
  assert (Hne : forall n : N, negb (Z.of_N n =? -1) = true)
    by (intros n; destruct (Z.eqb_spec (Z.of_N n) (-1)); [lia|reflexivity]).
  destruct (String.eqb mode Dbus.BLUEALSA_PCM_MODE_SOURCE); rewrite Hne; reflexivity.
Qed.

Lemma open_twice_is_busy_witness :
  let t1 := Dbus.o_transport
              (Dbus.bluealsa_pcm_open Sample.idle_transport "source"
                                      Sample.acquire_fails) in
  Dbus.bluealsa_pcm_open t1 "source" Sample.acquire_fails
  = Dbus.mkOutcome (Dbus.ReturnError Dbus.G_DBUS_ERROR_FAILED (Dbus.Strerror EBUSY))
                   t1 [] [] false None.
Proof.
  apply (open_twice_is_busy Sample.idle_transport "source" Sample.acquire_fails
           Sample.acquire_fails Dbus.A2dpPcm 8 9 10 11); reflexivity.
Defined.

Lemma open_transport (t : Dbus.ba_transport) (mode : string) (env : Dbus.open_env) :
  Dbus.o_transport (Dbus.bluealsa_pcm_open t mode env) = t \/
  exists pcm fd,
    Dbus.select_pcm t mode = Dbus.Selected pcm /\
    Dbus.o_transport (Dbus.bluealsa_pcm_open t mode env) = Dbus.set_pcm_fd t pcm fd.
Proof.
  unfold Dbus.bluealsa_pcm_open.
  destruct (Dbus.select_pcm t mode) as [pcm| | |]; try (left; reflexivity).
  destruct (negb (Dbus.pcm_fd t pcm =? -1)); [left; reflexivity|].
  destruct (Dbus.pipe2_ret env) as [[a b]|]; [|left; reflexivity].
  destruct (Dbus.socketpair_ret env) as [[c d]|]; [|left; reflexivity].
  right. exists pcm. eexists. split; [reflexivity|].
  destruct (Dbus.fcntl_ret env =? -1); [reflexivity|].
  destruct (Dbus.is_a2dp_source _ && _); reflexivity.
Qed.

(** X14.  The two directions of an SCO transport do not block each other:
    after an [Open] for the speaker ("source"), whatever became of it, an
    [Open] for the microphone ("sink") whose system calls succeed returns
    the read end of its pipe, [pcm_fds[0]], and the client's end of the
    control socket, and keeps the write end of the pipe, [pcm_fds[1]], as
    the microphone endpoint's descriptor, as long as that endpoint was
    free and a codec is selected.  The speaker endpoint is left as the
    first call left it. *)
Theorem sco_directions_are_independent (t : Dbus.ba_transport)
  (env env' : Dbus.open_env) (p0 p1 s0 s1 : N) :
  Dbus.IS_BA_TRANSPORT_PROFILE_SCO (Dbus.t_profile t) = true ->
  Dbus.t_codec t <> Dbus.HFP_CODEC_UNDEFINED ->
  Dbus.sco_mic_pcm_fd t = -1 ->
  Dbus.pipe2_ret env' = Some (p0, p1) ->
  Dbus.socketpair_ret env' = Some (s0, s1) ->
  Dbus.fcntl_ret env' <> -1 ->
  let t1 := Dbus.o_transport (Dbus.bluealsa_pcm_open t "source" env) in
  Dbus.o_reply (Dbus.bluealsa_pcm_open t1 "sink" env')
  = Dbus.ReturnFds (Z.of_N p0) (Z.of_N s1) /\
  Dbus.sco_mic_pcm_fd (Dbus.o_transport (Dbus.bluealsa_pcm_open t1 "sink" env'))
  = Z.of_N p1 /\
  Dbus.sco_spk_pcm_fd (Dbus.o_transport (Dbus.bluealsa_pcm_open t1 "sink" env'))
  = Dbus.sco_spk_pcm_fd t1.
Proof.
  intros Hsco Hcodec Hmic Hp Hs Hf t1.
  assert (H1 : Dbus.t_profile t1 = Dbus.t_profile t /\ Dbus.t_codec t1 = Dbus.t_codec t /\
               Dbus.sco_mic_pcm_fd t1 = -1).
  { subst t1.
    destruct (open_transport t "source" env) as [-> | (pcm & fd & Hsel & ->)];
      [auto|].
    assert (pcm = Dbus.SpkPcm) as ->.
    { revert Hsel. unfold Dbus.select_pcm.
      change (String.eqb "source" Dbus.BLUEALSA_PCM_MODE_SOURCE) with true.
      cbn [negb andb orb]. rewrite Hsco.
      destruct (Dbus.t_profile t); try discriminate Hsco;
        cbn [Dbus.is_a2dp_source Dbus.is_a2dp_sink];
        (destruct (Dbus.t_codec t =? Dbus.HFP_CODEC_UNDEFINED); [discriminate|]);
        intros [= <-]; reflexivity. }
    cbn [Dbus.set_pcm_fd Dbus.t_profile Dbus.t_codec Dbus.sco_mic_pcm_fd]. auto. }
  destruct H1 as (Hprof & Hcod & Hmic1).
  unfold Dbus.bluealsa_pcm_open, Dbus.select_pcm.
  change (String.eqb "sink" Dbus.BLUEALSA_PCM_MODE_SOURCE) with false.
  change (String.eqb "sink" Dbus.BLUEALSA_PCM_MODE_SINK) with true.
  cbn [negb andb orb]. rewrite Hprof, Hcod, Hsco.
  destruct (Dbus.t_profile t) eqn:Eprof; try discriminate Hsco;
    cbn [Dbus.is_a2dp_source Dbus.is_a2dp_sink];
    (destruct (Z.eqb_spec (Dbus.t_codec t) Dbus.HFP_CODEC_UNDEFINED);
     [contradiction|]);
    cbn [Dbus.pcm_fd]; rewrite Hmic1, Hp, Hs; cbn [Z.eqb negb nth];
    (destruct (Z.eqb_spec (Dbus.fcntl_ret env') (-1)); [contradiction|]);
    cbn [Dbus.set_pcm_fd Dbus.t_profile Dbus.is_a2dp_source andb Dbus.o_reply
         Dbus.o_transport Dbus.sco_mic_pcm_fd Dbus.sco_spk_pcm_fd];
    cbn [Pos.eqb negb]; rewrite Hprof;
    cbn [Dbus.is_a2dp_source andb Dbus.o_reply Dbus.o_transport
         Dbus.sco_mic_pcm_fd Dbus.sco_spk_pcm_fd];
    auto.
Qed.

Lemma sco_directions_are_independent_witness :
  let t := Dbus.mkTransport Dbus.HFP_AG 1 TRANSPORT_IDLE (-1) (-1) (-1) in
  let t1 := Dbus.o_transport (Dbus.bluealsa_pcm_open t "source" Sample.acquire_fails) in
  Dbus.o_reply (Dbus.bluealsa_pcm_open t1 "sink" Sample.acquire_fails)
  = Dbus.ReturnFds (Z.of_N 8) (Z.of_N 11) /\
  Dbus.sco_mic_pcm_fd
    (Dbus.o_transport (Dbus.bluealsa_pcm_open t1 "sink" Sample.acquire_fails))
  = Z.of_N 9 /\
  Dbus.sco_spk_pcm_fd
    (Dbus.o_transport (Dbus.bluealsa_pcm_open t1 "sink" Sample.acquire_fails))
  = Dbus.sco_spk_pcm_fd t1.
Proof.
  intros t t1.
  apply (sco_directions_are_independent t Sample.acquire_fails Sample.acquire_fails
           8 9 10 11); try reflexivity; discriminate.
Defined.

(** X15.  The RFCOMM channel is handed out once: an [Open] on a free
    handler stores one end of the new socket pair, sends
    [TRANSPORT_PING] and returns the other end, and from then on every
    further [Open] is answered with [strerror(EBUSY)] without a system
    call or a signal; an [Open] whose [socketpair] fails leaves the
    handler free, so that the next call starts afresh. *)
Theorem rfcomm_open_once (s0 s1 : N) (e e' : Z) (sp' : option (N * N)) :
  let o1 := Bus.bluealsa_rfcomm_open (-1) (Some (s0, s1)) e in
  Bus.rf_reply o1 = Bus.RfcommFd (Z.of_N s1) /\
  Bus.rf_handler_fd o1 = Z.of_N s0 /\
  Bus.rf_signals o1 = [TRANSPORT_PING] /\
  Bus.bluealsa_rfcomm_open (Bus.rf_handler_fd o1) sp' e'
  = Bus.mkRfcomm (Bus.RfcommError Dbus.G_DBUS_ERROR_FAILED (Bus.RfStrerror EBUSY))
                 (Z.of_N s0) [] [] /\
  Bus.bluealsa_rfcomm_open
    (Bus.rf_handler_fd (Bus.bluealsa_rfcomm_open (-1) None e)) sp' e'
  = Bus.bluealsa_rfcomm_open (-1) sp' e'.
Proof.
  intros o1.
  assert (E1 : o1 = Bus.mkRfcomm (Bus.RfcommFd (Z.of_N s1)) (Z.of_N s0)
                      [Dbus.SysSocketpair (Some (s0, s1))] [TRANSPORT_PING])
    by reflexivity.
  assert (E0 : Bus.rf_handler_fd (Bus.bluealsa_rfcomm_open (-1) None e) = -1)
    by reflexivity.
  rewrite E1, E0. cbn [Bus.rf_reply Bus.rf_handler_fd Bus.rf_signals].
  repeat split. unfold Bus.bluealsa_rfcomm_open.
  destruct (Z.eqb_spec (Z.of_N s0) (-1)); [lia|reflexivity].
Qed.

(** X16.  Every property a PCM announces on the bus can be read back
    under the same name and with the same kind of value: this holds for
    the dictionary of [PCMAdded] and [GetPCMs] and for whatever
    [PropertiesChanged] carries for a mask; and the one property that can
    be written, [Volume], is among the readable ones. *)
Theorem announced_properties_are_readable (mask : Bus.update_mask) :
  Forall (fun nv => Bus.bluealsa_pcm_get_property (fst nv) = Some (snd nv))
         (Bus.pcm_props ++ Bus.bluealsa_dbus_transport_update mask) /\
  forall property,
    Bus.bluealsa_pcm_set_property property = true ->
    Bus.bluealsa_pcm_get_property property = Some Bus.Volume.
Proof.
  split.
  - destruct mask as [[|] [|] [|] [|] [|] [|]];
      unfold Bus.pcm_props, Bus.bluealsa_dbus_transport_update, Bus.added;
      cbn [app Bus.update_channels Bus.update_sampling Bus.update_codec
           Bus.update_delay Bus.update_volume Bus.update_battery];
      repeat (apply Forall_cons; [reflexivity|]); apply Forall_nil.
  - unfold Bus.bluealsa_pcm_set_property. intros property H.
    apply String.eqb_eq in H. subst property. reflexivity.
Qed.

(** X17.  A transport that is registered and then unregistered is
    announced once, by the registration, and withdrawn once, by the
    unregistration, and its reference count is back where it was;
    unregistering it again does nothing.  An RFCOMM transport is
    withdrawn without a [PCMRemoved].  (The object registration succeeds:
    its id is not 0.) *)
Theorem transport_lifecycle (t : Dbus.ba_transport) (has_rfcomm : bool)
  (id rfcomm_id n : Z) :
  id <> 0 ->
  let '(id1, _, evs1) := Bus.bluealsa_dbus_transport_register t has_rfcomm id rfcomm_id in
  let '(id2, evs2) := Bus.bluealsa_dbus_transport_unregister (Dbus.t_profile t) id1 in
  let '(id3, evs3) := Bus.bluealsa_dbus_transport_unregister (Dbus.t_profile t) id2 in
  evs3 = [] /\ id3 = 0 /\
  filter Bus.is_added evs1 = [Bus.PCMAdded Bus.pcm_props] /\
  filter Bus.is_removed evs1 = [] /\
  filter Bus.is_added evs2 = [] /\
  filter Bus.is_removed evs2
  = (match Dbus.t_profile t with Dbus.RFCOMM => [] | _ => [Bus.PCMRemoved] end) /\
  Bus.refs n evs1 = n + 1 /\
  Bus.refs n (evs1 ++ evs2 ++ evs3) = n.
Proof.
  intros Hid.
  unfold Bus.bluealsa_dbus_transport_register, Bus.bluealsa_dbus_transport_unregister.
  destruct (Z.eqb_spec id 0) as [E|_]; [contradiction|].
  cbn [Z.eqb].
  destruct (Dbus.t_profile t), has_rfcomm;
    cbn [Dbus.IS_BA_TRANSPORT_PROFILE_SCO andb app filter Bus.is_added
         Bus.is_removed Bus.refs];
    repeat split; f_equal; lia.
Qed.

Lemma transport_lifecycle_witness :
  let '(id1, _, evs1) :=
    Bus.bluealsa_dbus_transport_register Sample.idle_transport false 3 0 in
  let '(id2, evs2) := Bus.bluealsa_dbus_transport_unregister Dbus.A2DP_SOURCE id1 in
  let '(id3, evs3) := Bus.bluealsa_dbus_transport_unregister Dbus.A2DP_SOURCE id2 in
  evs3 = [] /\ id3 = 0 /\
  filter Bus.is_added evs1 = [Bus.PCMAdded Bus.pcm_props] /\
  filter Bus.is_removed evs1 = [] /\
  filter Bus.is_added evs2 = [] /\
  filter Bus.is_removed evs2 = [Bus.PCMRemoved] /\
  Bus.refs 1 evs1 = 2 /\
  Bus.refs 1 (evs1 ++ evs2 ++ evs3) = 1.
Proof.
  apply (transport_lifecycle Sample.idle_transport false 3 0 1). discriminate.
Defined.

(** ** Theorems: which control commands are accepted *)

Lemma nat_of_ascii_inj (a b : ascii) : nat_of_ascii a = nat_of_ascii b -> a = b.
Proof.
  intros H. rewrite <- (ascii_nat_embedding a), <- (ascii_nat_embedding b).
  now rewrite H.
Qed.

Lemma strncmp_prefix (s1 : list ascii) :
  forall s2 : list ascii,
    Forall (fun c => c <> Ascii.zero) s1 ->
    Forall (fun c => c <> Ascii.zero) s2 ->
    (Ctl.strncmp s1 s2 (List.length s1) = 0 <-> exists rest, s2 = s1 ++ rest).
Proof.
  induction s1 as [|c s1 IH]; intros s2 H1 H2.
  - cbn. split; [intros _; exists s2; reflexivity|reflexivity].
  - apply Forall_cons_iff in H1 as [Hc H1].
    cbn [List.length Ctl.strncmp hd tl].
    destruct s2 as [|d s2]; cbn [hd tl].
    + destruct (Ascii.eqb_spec c Ascii.zero) as [E|_]; [contradiction|].
      cbn [negb]. split.
      * intros H. exfalso. apply Hc. apply nat_of_ascii_inj.
        change (nat_of_ascii Ascii.zero) with 0%nat in *. lia.
      * intros [rest H]. discriminate H.
    + apply Forall_cons_iff in H2 as [Hd H2].
      destruct (Ascii.eqb_spec c d) as [E|N]; cbn [negb].
      * subst d. destruct (Ascii.eqb_spec c Ascii.zero) as [E|_]; [contradiction|].
        rewrite (IH s2 H1 H2). split.
        -- intros [rest ->]. exists rest. reflexivity.
        -- intros [rest H]. injection H as H. exists rest. exact H.
      * split.
        -- intros H. exfalso. apply N. apply nat_of_ascii_inj. lia.
        -- intros [rest H]. injection H as H _. congruence.
Qed.

Lemma keyword_nul_free (k : string) :
  In k [Ctl.BLUEALSA_PCM_CTRL_DRAIN; Ctl.BLUEALSA_PCM_CTRL_DROP;
        Ctl.BLUEALSA_PCM_CTRL_PAUSE; Ctl.BLUEALSA_PCM_CTRL_RESUME] ->
  Forall (fun c => c <> Ascii.zero) (list_ascii_of_string k).
Proof.
  intros [<-|[<-|[<-|[<-|[]]]]]; cbn;
    repeat (apply Forall_cons; [discriminate|]); apply Forall_nil.
Qed.

Lemma matches_prefix (command : list ascii) (k : string) :
  Forall (fun c => c <> Ascii.zero) command ->
  In k [Ctl.BLUEALSA_PCM_CTRL_DRAIN; Ctl.BLUEALSA_PCM_CTRL_DROP;
        Ctl.BLUEALSA_PCM_CTRL_PAUSE; Ctl.BLUEALSA_PCM_CTRL_RESUME] ->
  (Ctl.matches command k = true <-> exists rest, list_ascii_of_string k = command ++ rest).
Proof.
  intros Hc Hk. unfold Ctl.matches. rewrite Z.eqb_eq.
  apply strncmp_prefix; [exact Hc|apply keyword_nul_free; exact Hk].
Qed.

(** X18.  The control channel answers "OK" to exactly the prefixes of its
    four keywords: for a command without NUL bytes the reply is "OK" if the
    bytes received are the beginning of "Drain", "Drop", "Pause" or
    "Resume" (all of it, part of it, or nothing at all), and "Invalid",
    with no effect on the transport, otherwise.  The channel stays open
    either way. *)
Theorem controller_accepts_prefixes (command : list ascii) :
  Forall (fun c => c <> Ascii.zero) command ->
  let r := Ctl.bluealsa_pcm_controller Ctl.G_IO_STATUS_NORMAL command in
  let accepted :=
    exists k rest,
      In k [Ctl.BLUEALSA_PCM_CTRL_DRAIN; Ctl.BLUEALSA_PCM_CTRL_DROP;
            Ctl.BLUEALSA_PCM_CTRL_PAUSE; Ctl.BLUEALSA_PCM_CTRL_RESUME] /\
      list_ascii_of_string k = command ++ rest in
  (accepted -> Ctl.reply r = Some "OK"%string) /\
  (~ accepted -> Ctl.reply r = Some "Invalid"%string /\ Ctl.effects r = []) /\
  Ctl.keep_watch r = true.
Proof.
  intros Hc r accepted. subst r accepted.
  pose proof (matches_prefix command Ctl.BLUEALSA_PCM_CTRL_DRAIN Hc
                ltac:(cbn; auto)) as H1.
  pose proof (matches_prefix command Ctl.BLUEALSA_PCM_CTRL_DROP Hc
                ltac:(cbn; auto)) as H2.
  pose proof (matches_prefix command Ctl.BLUEALSA_PCM_CTRL_PAUSE Hc
                ltac:(cbn; auto)) as H3.
  pose proof (matches_prefix command Ctl.BLUEALSA_PCM_CTRL_RESUME Hc
                ltac:(cbn; auto)) as H4.
  unfold Ctl.bluealsa_pcm_controller.
  destruct (Ctl.matches command Ctl.BLUEALSA_PCM_CTRL_DRAIN);
    [cbn [Ctl.reply Ctl.keep_watch Ctl.effects]; split; [reflexivity|split; [|reflexivity]];
     intros Hn; exfalso; apply Hn;
     destruct (proj1 H1 eq_refl) as [rest E];
     exists Ctl.BLUEALSA_PCM_CTRL_DRAIN, rest; cbn [In]; auto 10|].
  destruct (Ctl.matches command Ctl.BLUEALSA_PCM_CTRL_DROP);
    [cbn [Ctl.reply Ctl.keep_watch Ctl.effects]; split; [reflexivity|split; [|reflexivity]];
     intros Hn; exfalso; apply Hn;
     destruct (proj1 H2 eq_refl) as [rest E];
     exists Ctl.BLUEALSA_PCM_CTRL_DROP, rest; cbn [In]; auto 10|].
  destruct (Ctl.matches command Ctl.BLUEALSA_PCM_CTRL_PAUSE);
    [cbn [Ctl.reply Ctl.keep_watch Ctl.effects]; split; [reflexivity|split; [|reflexivity]];
     intros Hn; exfalso; apply Hn;
     destruct (proj1 H3 eq_refl) as [rest E];
     exists Ctl.BLUEALSA_PCM_CTRL_PAUSE, rest; cbn [In]; auto 10|].
  destruct (Ctl.matches command Ctl.BLUEALSA_PCM_CTRL_RESUME);
    [cbn [Ctl.reply Ctl.keep_watch Ctl.effects]; split; [reflexivity|split; [|reflexivity]];
     intros Hn; exfalso; apply Hn;
     destruct (proj1 H4 eq_refl) as [rest E];
     exists Ctl.BLUEALSA_PCM_CTRL_RESUME, rest; cbn [In]; auto 10|].
  cbn [Ctl.reply Ctl.keep_watch Ctl.effects].
  split; [|split; [auto|reflexivity]].
  intros (k & rest & Hk & E). exfalso.
  destruct Hk as [<-|[<-|[<-|[<-|[]]]]].
  - assert (false = true) by (apply H1; eauto). discriminate.
  - assert (false = true) by (apply H2; eauto). discriminate.
  - assert (false = true) by (apply H3; eauto). discriminate.
  - assert (false = true) by (apply H4; eauto). discriminate.
Qed.

Lemma controller_accepts_prefixes_witness :
  let r := Ctl.bluealsa_pcm_controller Ctl.G_IO_STATUS_NORMAL (Ctl.payload "Res") in
  let accepted :=
    exists k rest,
      In k [Ctl.BLUEALSA_PCM_CTRL_DRAIN; Ctl.BLUEALSA_PCM_CTRL_DROP;
            Ctl.BLUEALSA_PCM_CTRL_PAUSE; Ctl.BLUEALSA_PCM_CTRL_RESUME] /\
      list_ascii_of_string k = Ctl.payload "Res" ++ rest in
  (accepted -> Ctl.reply r = Some "OK"%string) /\
  (~ accepted -> Ctl.reply r = Some "Invalid"%string /\ Ctl.effects r = []) /\
  Ctl.keep_watch r = true.
Proof.
  apply (controller_accepts_prefixes (Ctl.payload "Res")).
  cbn. repeat (apply Forall_cons; [discriminate|]). apply Forall_nil.
Defined.

(** X19.  A keyword with further bytes behind it is accepted only if the
    first of these bytes is NUL.  "Drain", "Drop", "Pause" or "Resume"
    followed by any other byte (a line feed, say), and by whatever bytes
    after that, is answered "Invalid" and has no effect on the transport.
    Followed by a NUL byte, as when a client sends the terminator of its
    string, and by whatever bytes after that, it is handled like the
    keyword alone: the comparison stops at the NUL.  The channel stays
    open in both cases. *)
Theorem controller_rejects_trailing_bytes (k : string) (c : ascii)
  (suffix : list ascii) :
  In k [Ctl.BLUEALSA_PCM_CTRL_DRAIN; Ctl.BLUEALSA_PCM_CTRL_DROP;
        Ctl.BLUEALSA_PCM_CTRL_PAUSE; Ctl.BLUEALSA_PCM_CTRL_RESUME] ->
  let r := Ctl.bluealsa_pcm_controller Ctl.G_IO_STATUS_NORMAL
             (list_ascii_of_string k ++ c :: suffix) in
  (c <> Ascii.zero ->
   Ctl.reply r = Some "Invalid"%string /\ Ctl.effects r = []) /\
  (c = Ascii.zero ->
   r = Ctl.bluealsa_pcm_controller Ctl.G_IO_STATUS_NORMAL (list_ascii_of_string k) /\
   Ctl.reply r = Some "OK"%string) /\
  Ctl.keep_watch r = true.
Proof.
  intros Hk r. subst r.
  unfold Ctl.bluealsa_pcm_controller, Ctl.matches.
  destruct Hk as [<-|[<-|[<-|[<-|[]]]]];
    cbn [Ctl.BLUEALSA_PCM_CTRL_DRAIN Ctl.BLUEALSA_PCM_CTRL_DROP
         Ctl.BLUEALSA_PCM_CTRL_PAUSE Ctl.BLUEALSA_PCM_CTRL_RESUME
         list_ascii_of_string app List.length Ctl.strncmp hd tl];
    repeat match goal with
           | |- context [Ascii.eqb ?a ?b] =>
               lazymatch a with
               | c => fail
               | _ => let v := eval vm_compute in (Ascii.eqb a b) in
                      change (Ascii.eqb a b) with v
               end
           end;
    cbn [negb nat_of_ascii Z.of_nat Z.sub Z.eqb];
    (destruct (Ascii.eqb_spec c Ascii.zero) as [->|Hc];
     [cbn [negb Z.eqb]; split; [intros H; contradiction|];
      split; [intros _; split; reflexivity|reflexivity]
     |cbn [negb];
      assert (Hne : (Z.of_nat (nat_of_ascii c) - Z.of_nat (nat_of_ascii Ascii.zero)
                     =? 0) = false)
        by (apply Z.eqb_neq; intros E;
            apply Hc; apply nat_of_ascii_inj; cbn in E |- *; lia);
      rewrite Hne;
      split; [intros _; split; reflexivity|];
      split; [intros E; contradiction|reflexivity]]).
Qed.

Lemma controller_rejects_trailing_bytes_witness :
  let r := Ctl.bluealsa_pcm_controller Ctl.G_IO_STATUS_NORMAL
             (list_ascii_of_string Ctl.BLUEALSA_PCM_CTRL_DRAIN ++ ["010"%char]) in
  ("010"%char <> Ascii.zero ->
   Ctl.reply r = Some "Invalid"%string /\ Ctl.effects r = []) /\
  ("010"%char = Ascii.zero ->
   r = Ctl.bluealsa_pcm_controller Ctl.G_IO_STATUS_NORMAL
         (list_ascii_of_string Ctl.BLUEALSA_PCM_CTRL_DRAIN) /\
   Ctl.reply r = Some "OK"%string) /\
  Ctl.keep_watch r = true.
Proof.
  apply (@controller_rejects_trailing_bytes Ctl.BLUEALSA_PCM_CTRL_DRAIN "010"%char []).
  cbn. auto.
Defined.

(** ** Theorems: the aptX source *)

Lemma aptx_writes_app (a b : list Aptx.event) :
  Aptx.writes (a ++ b) = Aptx.writes a ++ Aptx.writes b.
Proof.
  induction a as [|x a IH]; [reflexivity|].
  destruct x; cbn [app Aptx.writes]; rewrite ?IH; reflexivity.
Qed.

Lemma aptx_writes_prelude (b1 b2 : bool) (rest : list Aptx.event) :
  Aptx.writes ((if b1 then [Aptx.ReleasePcm] else [])
               ++ (if b2 then [Aptx.RtInit] else []) ++ rest)
  = Aptx.writes rest.
Proof. destruct b1, b2; reflexivity. Qed.

Lemma aptx_writes_release (b : bool) :
  Aptx.writes (if b then [Aptx.ReleasePcm] else []) = [].
Proof. destruct b; reflexivity. Qed.

(** The inner loop keeps the write buffer and the frame count in step. *)
Lemma aptx_fill_inv cfg (encodes : list bool) :
  forall (a a' : Aptx.encoding) (size : Z),
    0 <= Aptx.pcm_frames a <= size -> size < 2 ^ 64 ->
    Aptx.bt a = Ffb.mk size (Aptx.pcm_frames a) ->
    Aptx.output_len a = size - Aptx.pcm_frames a ->
    Aptx.pcm_frames a mod 4 = 0 ->
    Aptx.fill cfg encodes a = Some a' ->
    0 <= Aptx.pcm_frames a' <= size /\
    Aptx.bt a' = Ffb.mk size (Aptx.pcm_frames a') /\
    Aptx.pcm_frames a' mod 4 = 0.
Proof.
  induction encodes as [|ok rest IH]; intros a a' size Hf Hs Hbt Hout Hmod;
    cbn [Aptx.fill].
  - destruct (_ && _); [discriminate|]. intros [= <-]. auto.
  - destruct (Aptx.input_len a >=? Aptx.aptx_pcm_samples cfg); cbn [andb];
      [|intros [= <-]; auto].
    destruct (Z.geb_spec (Aptx.output_len a) Aptx.aptx_code_len) as [Hge|_];
      [|intros [= <-]; auto].
    destruct ok; cbn [negb]; [|intros [= <-]; auto].
    unfold Aptx.aptx_code_len in *.
    apply IH; cbn [Aptx.pcm_frames Aptx.bt Aptx.output_len];
      rewrite ?(u64_small (Aptx.pcm_frames a + 4)) by lia.
    + lia.
    + exact Hs.
    + rewrite Hbt. unfold Ffb.ffb_seek, Ffb.ffb_len_in. cbn [Ffb.size Ffb.len_out].
      destruct (Z.gtb_spec 4 (size - Aptx.pcm_frames a)); [lia|reflexivity].
    + rewrite u64_small by lia. lia.
    + rewrite <- Zplus_mod_idemp_l, Hmod. reflexivity.
Qed.

Lemma aptx_encode_rounds_writes cfg (rounds : list Aptx.round) :
  forall (st : Aptx.state) (len_in : Z),
    0 <= Aptx.mtu_write cfg < 2 ^ 64 ->
    Forall (fun w => Aptx.x_len w = Aptx.x_pcm_frames w /\
                     Aptx.x_len w mod 4 = 0 /\
                     0 <= Aptx.x_len w <= Aptx.mtu_write cfg)
           (Aptx.writes (fst (Aptx.encode_rounds cfg rounds st len_in))).
Proof.
  induction rounds as [|r rest IH]; intros st len_in Hm; cbn [Aptx.encode_rounds].
  - destruct (len_in >=? _); constructor.
  - destruct (len_in >=? _); [|constructor].
    destruct (Aptx.fill cfg _ _) as [a|] eqn:Ef; [|constructor].
    apply (aptx_fill_inv cfg (Aptx.r_encodes r) _ a (Aptx.mtu_write cfg)) in Ef;
      cbn [Aptx.pcm_frames Aptx.bt Aptx.output_len]; try lia; try reflexivity.
    destruct Ef as (Hf & Hbt & Hmod).
    destruct (Rtp.io_thread_write_bt _ _ _ _ _) as [[[ret e] q]|]; [|constructor].
    assert (Hw : forall ret e,
      (fun w => Aptx.x_len w = Aptx.x_pcm_frames w /\ Aptx.x_len w mod 4 = 0 /\
                0 <= Aptx.x_len w <= Aptx.mtu_write cfg)
        (Aptx.mkWrite (Ffb.ffb_len_out (Aptx.bt a)) ret e (Aptx.pcm_frames a))).
    { intros ret' e'. cbn [Aptx.x_len Aptx.x_pcm_frames]. rewrite Hbt.
      unfold Ffb.ffb_len_out. cbn [Ffb.len_out]. auto. }
    destruct ((ret =? -1) && Io.is_disconnect e); cbn [fst Aptx.writes].
    + constructor; [apply Hw|constructor].
    + match goal with
      | |- context [Aptx.encode_rounds cfg rest ?s ?l] =>
          specialize (IH s l Hm); destruct (Aptx.encode_rounds cfg rest s l) as [evs res]
      end.
      cbn [fst Aptx.writes] in *. constructor; [apply Hw|exact IH].
Qed.

Lemma aptx_step_writes cfg (st : Aptx.state) (it : Aptx.iteration) :
  0 <= Aptx.mtu_write cfg < 2 ^ 64 ->
  Forall (fun w => Aptx.x_len w = Aptx.x_pcm_frames w /\
                   Aptx.x_len w mod 4 = 0 /\
                   0 <= Aptx.x_len w <= Aptx.mtu_write cfg)
         (Aptx.writes (fst (Aptx.step cfg st it))).
Proof.
  intros Hm.
  assert (Hread : Forall (fun w => Aptx.x_len w = Aptx.x_pcm_frames w /\
                                   Aptx.x_len w mod 4 = 0 /\
                                   0 <= Aptx.x_len w <= Aptx.mtu_write cfg)
                         (Aptx.writes (fst (Aptx.read_and_send cfg st it)))).
  { unfold Aptx.read_and_send.
    destruct (Fifo.io_thread_read_pcm _ _) as [r|]; [|constructor].
    destruct (Fifo.ret r =? 0); [cbn [fst]; rewrite aptx_writes_release; constructor|].
    destruct (Fifo.ret r =? -1).
    { destruct (Fifo.errno_out r =? EAGAIN); cbn [fst];
        rewrite aptx_writes_release; constructor. }
    match goal with
    | |- context [Aptx.encode_rounds cfg ?rs ?s ?l] =>
        pose proof (aptx_encode_rounds_writes cfg rs s l Hm) as H;
        destruct (Aptx.encode_rounds cfg rs s l) as [evs [[st'| |] len_left]]
    end; cbn [fst] in *; rewrite aptx_writes_prelude; exact H. }
  unfold Aptx.step.
  destruct (Aptx.it_poll it) as [|e|[|]]; try exact Hread.
  - constructor.
  - destruct (e =? EINTR); constructor.
  - destruct (Aptx.it_signal it) as [[| | | | | |]|]; try exact Hread; constructor.
Qed.

(** X20.  Every datagram of the aptX source thread is a whole number of
    4-byte code words and no longer than the write MTU, and the rate
    synchroniser is told, after it, as many frames as the datagram has
    bytes: four frames for each code word.  (An encoder that fails at once
    makes the datagram empty.) *)
Theorem aptx_writes_code_words cfg (st : Aptx.state) (its : list Aptx.iteration) :
  0 <= Aptx.mtu_write cfg < 2 ^ 64 ->
  Forall (fun w => Aptx.x_len w = Aptx.x_pcm_frames w /\
                   Aptx.x_len w mod 4 = 0 /\
                   0 <= Aptx.x_len w <= Aptx.mtu_write cfg)
         (Aptx.writes (fst (Aptx.run cfg st its))).
Proof.
  intros Hm. unfold Aptx.run. revert st.
  induction its as [|it its IH]; intros st; cbn [Loop.run]; [constructor|].
  pose proof (aptx_step_writes cfg st it Hm) as Hstep.
  destruct (Aptx.step cfg st it) as [evs [st'| |]]; cbn [fst] in *; try exact Hstep.
  specialize (IH st'). destruct (Loop.run _ st' its) as [evs' e']. cbn [fst] in *.
  rewrite aptx_writes_app. apply Forall_app. split; assumption.
Qed.

Lemma u32_nonneg (x : Z) : 0 <= u32 x.
Proof. unfold u32. apply Z.mod_pos_bound. lia. Qed.

Lemma aptx_fill_input cfg (encodes : list bool) :
  forall a a' : Aptx.encoding,
    0 <= Aptx.input_len a < 2 ^ 64 ->
    Aptx.fill cfg encodes a = Some a' ->
    0 <= Aptx.input_len a' <= Aptx.input_len a.
Proof.
  induction encodes as [|ok rest IH]; intros a a' Hin; cbn [Aptx.fill].
  - destruct (_ && _); [discriminate|]. intros [= <-]. lia.
  - destruct (Z.geb_spec (Aptx.input_len a) (Aptx.aptx_pcm_samples cfg)) as [Hge|_];
      cbn [andb]; [|intros [= <-]; lia].
    destruct (Aptx.output_len a >=? Aptx.aptx_code_len); [|intros [= <-]; lia].
    destruct ok; cbn [negb]; [|intros [= <-]; lia].
    pose proof (u32_nonneg (4 * Aptx.channels cfg)) as Hb.
    unfold Aptx.aptx_pcm_samples in Hge. fold (Aptx.block cfg) in Hb.
    intros E. apply IH in E; cbn [Aptx.input_len] in *;
      rewrite u64_small in * by lia; lia.
Qed.

Lemma aptx_encode_rounds_left cfg (rounds : list Aptx.round) :
  forall (st st' : Aptx.state) (len_in len_left : Z) (evs : list Aptx.event),
    0 <= len_in < 2 ^ 64 ->
    Aptx.encode_rounds cfg rounds st len_in = (evs, (Io.Continue st', len_left)) ->
    0 <= len_left <= len_in /\ len_left < Aptx.aptx_pcm_samples cfg /\
    Aptx.pcm st' = Aptx.pcm st.
Proof.
  induction rounds as [|r rest IH]; intros st st' len_in len_left evs Hin;
    cbn [Aptx.encode_rounds].
  - destruct (Z.geb_spec len_in (Aptx.aptx_pcm_samples cfg)); [discriminate|].
    intros [= _ <- <-]. repeat split; lia.
  - destruct (Z.geb_spec len_in (Aptx.aptx_pcm_samples cfg));
      [|intros [= _ <- <-]; repeat split; lia].
    destruct (Aptx.fill cfg _ _) as [a|] eqn:Ef; [|discriminate].
    apply aptx_fill_input in Ef; cbn [Aptx.input_len] in *; [|exact Hin].
    destruct (Rtp.io_thread_write_bt _ _ _ _ _) as [[[ret e] q]|]; [|discriminate].
    destruct ((ret =? -1) && Io.is_disconnect e); [discriminate|].
    match goal with
    | |- context [Aptx.encode_rounds cfg rest ?s ?l] =>
        specialize (IH s st' l len_left);
        destruct (Aptx.encode_rounds cfg rest s l) as [evs' res] eqn:Er
    end.
    intros [= _ ->]. destruct (IH evs' ltac:(lia) eq_refl) as (H1 & H2 & H3).
    cbn [Aptx.pcm] in H3. repeat split; try lia. exact H3.
Qed.

Lemma read_pcm_honest (outcomes : list Fifo.read_outcome) :
  forall (e : Z) (r : Fifo.read_result),
    Forall (fun o => match o with
                     | Fifo.ReadBytes n => 0 <= n
                     | Fifo.ReadFail _ => True
                     end) outcomes ->
    Fifo.io_thread_read_pcm outcomes e = Some r -> -1 <= Fifo.ret r.
Proof.
  unfold Fifo.io_thread_read_pcm.
  induction outcomes as [|o rest IH]; intros e r Hon; cbn [Fifo.read_retry];
    [discriminate|].
  apply Forall_cons_iff in Hon as [Ho Hon].
  destruct o as [n|e1].
  - destruct (Z.gtb_spec n 0).
    + intros [= <-]. cbn [Fifo.ret]. unfold Fifo.sizeof_int16.
      assert (0 <= n / 2) by (apply Z.div_pos; lia). lia.
    + destruct (e =? EBADF); cbn [Z.eqb].
      * intros [= <-]. cbn [Fifo.ret]. lia.
      * destruct (Z.eqb_spec n 0); intros [= <-]; cbn [Fifo.ret]; lia.
  - destruct (e1 =? EINTR); [apply IH; exact Hon|].
    cbn [Z.gtb Z.compare]. destruct (e1 =? EBADF); cbn [Z.eqb];
      intros [= <-]; cbn [Fifo.ret]; lia.
Qed.

Lemma aptx_step_waiting cfg (st st' : Aptx.state) (it : Aptx.iteration) :
  Aptx.reads_honest it ->
  Aptx.no_block_waiting cfg st -> Ffb.size (Aptx.pcm st) < 2 ^ 64 ->
  Ffb.ffb_len_out (Aptx.pcm st) <= Ffb.size (Aptx.pcm st) ->
  snd (Aptx.step cfg st it) = Io.Continue st' ->
  Aptx.no_block_waiting cfg st' /\ Ffb.size (Aptx.pcm st') = Ffb.size (Aptx.pcm st) /\
  Ffb.ffb_len_out (Aptx.pcm st') <= Ffb.size (Aptx.pcm st').
Proof.
  intros Hon Hw Hsz Hle.
  assert (Hread : snd (Aptx.read_and_send cfg st it) = Io.Continue st' ->
                  Aptx.no_block_waiting cfg st' /\
                  Ffb.size (Aptx.pcm st') = Ffb.size (Aptx.pcm st) /\
                  Ffb.ffb_len_out (Aptx.pcm st') <= Ffb.size (Aptx.pcm st')).
  { unfold Aptx.read_and_send.
    destruct (Fifo.io_thread_read_pcm _ _) as [r|] eqn:Er; [|discriminate].
    pose proof (read_pcm_honest _ _ _ Hon Er) as Hret.
    destruct (Z.eqb_spec (Fifo.ret r) 0); [cbn [snd]; intros [= <-]; auto|].
    destruct (Z.eqb_spec (Fifo.ret r) (-1)).
    { destruct (Fifo.errno_out r =? EAGAIN); cbn [snd];
        [intros [= <-]; auto|discriminate]. }
    set (pcm1 := Ffb.ffb_seek (Aptx.pcm st) (Fifo.ret r)).
    assert (H1 : 0 <= Ffb.ffb_len_out pcm1 <= Ffb.size pcm1 /\
                 Ffb.size pcm1 = Ffb.size (Aptx.pcm st)).
    { subst pcm1. unfold Aptx.no_block_waiting in Hw.
      destruct (Aptx.pcm st) as [size lo].
      unfold Ffb.ffb_seek, Ffb.ffb_len_in, Ffb.ffb_len_out in *.
      cbn [Ffb.size Ffb.len_out Aptx.set_errno Aptx.pcm] in *.
      destruct (Z.gtb_spec (Fifo.ret r) (size - lo)); cbn [Ffb.size Ffb.len_out]; lia. }
    cbn [Aptx.set_errno Aptx.pcm Aptx.poll_timeout Aptx.asrs_frames Aptx.coutq_i
         Aptx.errno]. fold pcm1.
    match goal with
    | |- context [Aptx.encode_rounds cfg ?rs ?s ?l] =>
        pose proof (fun st2 left evs => aptx_encode_rounds_left cfg rs s st2 l left evs
                                          ltac:(lia)) as Hrounds;
        destruct (Aptx.encode_rounds cfg rs s l) as [evs [[st2| |] len_left]]
    end; cbn [snd]; try discriminate.
    destruct (Hrounds st2 len_left evs eq_refl) as (Hl1 & Hl2 & _).
    intros [= <-]. cbn [Aptx.pcm]. unfold Aptx.no_block_waiting, Ffb.ffb_shift,
      Ffb.ffb_len_out. cbn [Aptx.pcm Ffb.size Ffb.len_out].
    unfold Ffb.ffb_len_out in *. rewrite u64_small by lia.
    destruct H1 as [H1 H2]. repeat split; try lia. }
  unfold Aptx.step.
  destruct (Aptx.it_poll it) as [|e|[|]]; try exact Hread.
  - cbn [snd]. destruct (Aptx.it_pcm_closed it); [discriminate|].
    intros [= <-]. auto.
  - destruct (e =? EINTR); cbn [snd]; [intros [= <-]; auto|discriminate].
  - destruct (Aptx.it_signal it) as [[| | | | | |]|]; try exact Hread;
      cbn [snd]; intros [= <-]; auto.
Qed.

(** X21.  Between two iterations of the aptX source thread less than one
    block of samples (four frames) waits in the PCM buffer: whatever a run
    reads from the FIFO, whenever the encoder fails and however the
    socket answers, an iteration ends only when every complete block has
    been encoded and handed to the socket.  (The transport has at least
    one channel, and [read] returns no negative byte count.) *)
Theorem aptx_no_block_left_waiting cfg (e : Z) (its : list Aptx.iteration)
  (st' : Aptx.state) :
  0 < Aptx.aptx_pcm_samples cfg ->
  Forall Aptx.reads_honest its ->
  snd (Aptx.run cfg (Aptx.init cfg e) its) = Io.Continue st' ->
  Aptx.no_block_waiting cfg st'.
Proof.
  intros Hpos Hon.
  assert (Hgen : forall st,
    Aptx.no_block_waiting cfg st -> Ffb.size (Aptx.pcm st) < 2 ^ 64 ->
    Ffb.ffb_len_out (Aptx.pcm st) <= Ffb.size (Aptx.pcm st) ->
    snd (Aptx.run cfg st its) = Io.Continue st' -> Aptx.no_block_waiting cfg st').
  { unfold Aptx.run. induction Hon as [|it its Hit _ IH]; intros st Hw Hsz Hle;
      cbn [Loop.run].
    - intros [= <-]. exact Hw.
    - pose proof (fun s1 => aptx_step_waiting cfg st s1 it Hit Hw Hsz Hle) as Hstep.
      destruct (Aptx.step cfg st it) as [evs [st1| |]]; cbn [snd] in *;
        try discriminate.
      destruct (Hstep st1 eq_refl) as (Hw1 & Hsz1 & Hle1).
      specialize (IH st1 Hw1 ltac:(lia) Hle1).
      destruct (Loop.run _ st1 its) as [evs' e']. cbn [snd] in *. exact IH. }
  apply Hgen.
  - unfold Aptx.no_block_waiting, Aptx.init, Ffb.ffb_init, Ffb.ffb_len_out.
    cbn [Aptx.pcm Ffb.len_out]. lia.
  - unfold Aptx.init, Ffb.ffb_init. cbn [Aptx.pcm Ffb.size].
    unfold u64. apply Z.mod_pos_bound. lia.
  - unfold Aptx.init, Ffb.ffb_init, Ffb.ffb_len_out. cbn [Aptx.pcm Ffb.size Ffb.len_out].
    unfold u64. apply Z.mod_pos_bound. lia.
Qed.

Lemma aptx_writes_code_words_witness :
  Forall (fun w => Aptx.x_len w = Aptx.x_pcm_frames w /\
                   Aptx.x_len w mod 4 = 0 /\
                   0 <= Aptx.x_len w <= Aptx.mtu_write AptxSample.cfg)
         (Aptx.writes (fst (Aptx.run AptxSample.cfg (Aptx.init AptxSample.cfg 0)
                              [AptxSample.full; AptxSample.full]))).
Proof.
  apply aptx_writes_code_words. vm_compute. split; [discriminate|reflexivity].
Defined.

Lemma aptx_no_block_left_waiting_witness :
  exists st',
    snd (Aptx.run AptxSample.cfg (Aptx.init AptxSample.cfg 0)
           [AptxSample.full; AptxSample.full]) = Io.Continue st' /\
    Aptx.no_block_waiting AptxSample.cfg st'.
Proof.
  eexists. split; [vm_compute; reflexivity|].
  apply (aptx_no_block_left_waiting AptxSample.cfg 0 [AptxSample.full; AptxSample.full]).
  - reflexivity.
  - do 2 (apply Forall_cons;
          [apply Forall_cons; [vm_compute; discriminate|apply Forall_nil]|]).
    apply Forall_nil.
  - reflexivity.
Defined.

(** ** Theorems: starting a thread *)

(** X22.  [io_thread_create] returns 0 or -1.  When it returns 0 a thread
    runs a routine of the transport's own profile and holds one
    reference to the transport; when it returns -1 no thread runs and the
    reference count is what it was, whether no routine serves the codec
    or [pthread_create] failed. *)
Theorem thread_holds_one_reference (b : Create.build) (p : Dbus.profile)
  (codec : Create.a2dp_codec) (pthread_create_ret n : Z) :
  let rv := fst (Create.io_thread_create b p codec pthread_create_ret) in
  let evs := snd (Create.io_thread_create b p codec pthread_create_ret) in
  (rv = 0 \/ rv = -1) /\
  (rv = 0 ->
   exists r, Create.running evs = Some r /\ Create.serves r p = true /\
             Create.refs n evs = n + 1) /\
  (rv = -1 -> Create.running evs = None /\ Create.refs n evs = n).
Proof.
  unfold Create.io_thread_create.
  destruct (Create.select_routine b p codec) as [[r|] evs0] eqn:Esel.
  - assert (Hs : Create.serves r p = true /\ evs0 = []).
    { revert Esel. unfold Create.select_routine.
      destruct p, codec; try destruct (Create.ENABLE_MPEG b);
        try destruct (Create.ENABLE_AAC b); try destruct (Create.ENABLE_APTX b);
        try destruct (Create.ENABLE_LDAC b); intros [= <- <-]; split; reflexivity. }
    destruct Hs as [Hserves ->].
    destruct (Z.eqb_spec pthread_create_ret 0) as [E|N]; cbn [negb fst snd app].
    + split; [left; reflexivity|]. split; [|discriminate].
      intros _. exists r. cbn [Create.running Create.refs]. rewrite E.
      cbn [Z.eqb]. auto.
    + split; [right; reflexivity|]. split; [discriminate|].
      intros _. cbn [Create.running Create.refs].
      destruct (Z.eqb_spec pthread_create_ret 0); [contradiction|].
      split; [reflexivity|lia].
  - cbn [fst snd]. split; [right; reflexivity|]. split; [discriminate|].
    intros _. revert Esel. unfold Create.select_routine.
    destruct p, codec; try destruct (Create.ENABLE_MPEG b);
      try destruct (Create.ENABLE_AAC b); try destruct (Create.ENABLE_APTX b);
      try destruct (Create.ENABLE_LDAC b); intros [= <-]; split; reflexivity.
Qed.

(** ** Theorems: why a source thread ends *)

(** X23.  An iteration of the SBC source thread leaves the loop for one
    of four reasons only: the poll timed out while no client holds the
    PCM; the poll failed with an error other than [EINTR]; the read of the
    FIFO failed with an error other than [EAGAIN]; or the write on the BT
    socket failed with [ECONNRESET] or [ENOTCONN].  Any other failed
    write, and any failure of the encoder, keeps the thread running. *)
Theorem sbc_thread_exit_causes cfg (st st' : Sbc.state) (it : Sbc.iteration) :
  snd (Sbc.step cfg st it) = Io.Exit st' ->
  (Sbc.it_poll it = Io.PollTimeout /\ Sbc.it_pcm_closed it = true) \/
  (exists e, Sbc.it_poll it = Io.PollFail e /\ e <> EINTR) \/
  (exists r, Fifo.io_thread_read_pcm (Sbc.it_reads it) (Sbc.errno st) = Some r /\
             Fifo.ret r = -1 /\ Fifo.errno_out r <> EAGAIN) \/
  (exists w, In (Io.BtWrite w) (fst (Sbc.step cfg st it)) /\
             Rtp.w_ret w = -1 /\ Io.is_disconnect (Rtp.w_errno w) = true).
Proof.
  assert (Hread : snd (Sbc.read_and_send cfg st it) = Io.Exit st' ->
    (exists r, Fifo.io_thread_read_pcm (Sbc.it_reads it) (Sbc.errno st) = Some r /\
               Fifo.ret r = -1 /\ Fifo.errno_out r <> EAGAIN) \/
    (exists w, In (Io.BtWrite w) (fst (Sbc.read_and_send cfg st it)) /\
               Rtp.w_ret w = -1 /\ Io.is_disconnect (Rtp.w_errno w) = true)).
  { unfold Sbc.read_and_send.
    destruct (Fifo.io_thread_read_pcm _ _) as [r|]; [|discriminate].
    destruct (Fifo.ret r =? 0); [discriminate|].
    destruct (Z.eqb_spec (Fifo.ret r) (-1)) as [E1|_].
    { destruct (Z.eqb_spec (Fifo.errno_out r) EAGAIN); [discriminate|].
      intros _. left. exists r. auto. }
    unfold Sbc.encode_and_send.
    destruct (Sbc.encode_loop _ _ _) as [a|]; [|discriminate].
    destruct (Rtp.io_thread_write_bt _ _ _ _ _) as [[[ret e] q]|]; [|discriminate].
    destruct (Z.eqb_spec ret (-1)) as [Er|_]; cbn [andb]; [|discriminate].
    destruct (Io.is_disconnect e) eqn:Ed; [|discriminate].
    intros _. right. eexists. split.
    - cbn [fst]. apply in_or_app. right. apply in_or_app. right. left. reflexivity.
    - cbn [Rtp.w_ret Rtp.w_errno]. auto. }
  unfold Sbc.step.
  destruct (Sbc.it_poll it) as [|e|[|]].
  - cbn [snd]. destruct (Sbc.it_pcm_closed it); [|discriminate]. auto.
  - destruct (Z.eqb_spec e EINTR); [discriminate|]. intros _. right. left. eauto.
  - destruct (Sbc.it_signal it) as [[| | | | | |]|]; try discriminate.
    intros H. right. right. exact (Hread H).
  - intros H. right. right. exact (Hread H).
Qed.

Lemma sbc_thread_exit_causes_witness :
  let it := Sbc.mkIteration (Io.PollFail 5) false None [] [] Sample.accept in
  (Sbc.it_poll it = Io.PollTimeout /\ Sbc.it_pcm_closed it = true) \/
  (exists e, Sbc.it_poll it = Io.PollFail e /\ e <> EINTR) \/
  (exists r, Fifo.io_thread_read_pcm (Sbc.it_reads it) (Sbc.errno Sample.sbc_st) = Some r /\
             Fifo.ret r = -1 /\ Fifo.errno_out r <> EAGAIN) \/
  (exists w, In (Io.BtWrite w) (fst (Sbc.step Sample.sbc_cfg Sample.sbc_st it)) /\
             Rtp.w_ret w = -1 /\ Io.is_disconnect (Rtp.w_errno w) = true).
Proof.
  intros it.
  apply (sbc_thread_exit_causes Sample.sbc_cfg Sample.sbc_st
           (Sbc.set_errno Sample.sbc_st 5) it).
  reflexivity.
Defined.

(** ** Theorems: the size of AAC packets *)

Lemma aac_fragment_loop_fits cfg (envs : list Rtp.bt_env) :
  forall (s : Aac.sender) (buffer : list byte) (payload_len frames : Z),
    12 <= Aac.mtu_write cfg < 2 ^ 64 -> 0 <= payload_len ->
    Forall (fun w => Rtp.w_media w = None /\
                     12 <= Rtp.w_len w <= Aac.mtu_write cfg /\
                     Z.of_nat (List.length (Rtp.w_payload w)) <= Rtp.w_len w - 12)
           (fst (Aac.fragment_loop cfg envs s buffer payload_len frames)).
Proof.
  induction envs as [|env rest IH]; intros s buffer payload_len frames Hm Hp;
    cbn [Aac.fragment_loop]; [constructor|].
  assert (HM : Aac.payload_len_max cfg = Aac.mtu_write cfg - 12).
  { unfold Aac.payload_len_max, Rtp.RTP_HEADER_LEN. apply u64_small. lia. }
  set (len := if payload_len >? Aac.payload_len_max cfg
              then Aac.payload_len_max cfg else payload_len).
  assert (Hlen : 0 <= len <= Aac.mtu_write cfg - 12).
  { subst len. destruct (Z.gtb_spec payload_len (Aac.payload_len_max cfg)); lia. }
  destruct (Rtp.io_thread_write_bt _ _ _ _ _) as [[[ret e] q]|]; [|constructor].
  assert (Hw : forall hdr,
    (fun w => Rtp.w_media w = None /\ 12 <= Rtp.w_len w <= Aac.mtu_write cfg /\
              Z.of_nat (List.length (Rtp.w_payload w)) <= Rtp.w_len w - 12)
      (Rtp.mkWrite hdr None (firstn (Z.to_nat len) buffer)
                   (Rtp.RTP_HEADER_LEN + len) ret e frames)).
  { intros hdr. cbn [Rtp.w_media Rtp.w_len Rtp.w_payload]. unfold Rtp.RTP_HEADER_LEN.
    split; [reflexivity|]. split; [lia|].
    pose proof (firstn_le_length (Z.to_nat len) buffer). lia. }
  destruct (ret =? -1); [cbn [fst]; constructor; [apply Hw|constructor]|].
  destruct (u64 (payload_len - (ret - Rtp.RTP_HEADER_LEN)) =? 0);
    [cbn [fst]; constructor; [apply Hw|constructor]|].
  match goal with
  | |- context [Aac.fragment_loop cfg rest ?s1 ?b1 ?l1 frames] =>
      specialize (IH s1 b1 l1 frames Hm
                    ltac:(unfold u64; apply Z.mod_pos_bound; lia));
      destruct (Aac.fragment_loop cfg rest s1 b1 l1 frames) as [ws fr]
  end.
  cbn [fst] in *. constructor; [apply Hw|exact IH].
Qed.

Lemma aac_step_fits cfg (st : Aac.state) (it : Aac.iteration) :
  12 <= Aac.mtu_write cfg < 2 ^ 64 ->
  Forall (fun w => Rtp.w_media w = None /\
                   12 <= Rtp.w_len w <= Aac.mtu_write cfg /\
                   Z.of_nat (List.length (Rtp.w_payload w)) <= Rtp.w_len w - 12)
         (Io.writes (fst (Aac.step cfg st it))).
Proof.
  intros Hm.
  assert (Hround : forall st r,
    Forall (fun w => Rtp.w_media w = None /\
                     12 <= Rtp.w_len w <= Aac.mtu_write cfg /\
                     Z.of_nat (List.length (Rtp.w_payload w)) <= Rtp.w_len w - 12)
           (Io.writes (fst (Aac.encode_round cfg st r)))).
  { intros s r. unfold Aac.encode_round.
    destruct (Aac.numOutBytes (Aac.r_encoded r) >? 0).
    - match goal with
      | |- context [Aac.fragment_loop cfg ?envs ?s1 ?b1 ?l1 ?f1] =>
          pose proof (aac_fragment_loop_fits cfg envs s1 b1 l1 f1 Hm
                        ltac:(unfold Aac.numOutBytes; lia)) as H;
          destruct (Aac.fragment_loop cfg envs s1 b1 l1 f1) as [ws [fe s']]
      end.
      cbn [fst] in H. destruct fe; cbn [fst];
        rewrite ?writes_app, writes_map_BtWrite; cbn [Io.writes];
        rewrite ?app_nil_r; exact H.
    - cbn [fst map app Io.writes]. constructor. }
  assert (Hrounds : forall rounds st,
    Forall (fun w => Rtp.w_media w = None /\
                     12 <= Rtp.w_len w <= Aac.mtu_write cfg /\
                     Z.of_nat (List.length (Rtp.w_payload w)) <= Rtp.w_len w - 12)
           (Io.writes (fst (Aac.encode_rounds cfg rounds st)))).
  { induction rounds as [|r rest IH]; intros s; cbn [Aac.encode_rounds].
    - destruct (_ >? 0); constructor.
    - destruct (_ >? 0); [|constructor].
      pose proof (Hround s r) as Hr.
      destruct (Aac.encode_round cfg s r) as [acts [s1| |]]; cbn [fst] in *;
        try exact Hr.
      specialize (IH s1). destruct (Aac.encode_rounds cfg rest s1) as [acts' e'].
      cbn [fst] in *. rewrite writes_app. apply Forall_app. split; assumption. }
  assert (Hread :
    Forall (fun w => Rtp.w_media w = None /\
                     12 <= Rtp.w_len w <= Aac.mtu_write cfg /\
                     Z.of_nat (List.length (Rtp.w_payload w)) <= Rtp.w_len w - 12)
           (Io.writes (fst (Aac.read_and_send cfg st it)))).
  { unfold Aac.read_and_send.
    destruct (Fifo.io_thread_read_pcm _ _) as [r|]; [|constructor].
    destruct (Fifo.ret r =? 0); [cbn [fst]; rewrite writes_only_release; constructor|].
    destruct (Fifo.ret r =? -1).
    { destruct (Fifo.errno_out r =? EAGAIN); cbn [fst];
        rewrite writes_only_release; constructor. }
    match goal with
    | |- context [Aac.encode_rounds cfg ?rs ?s] =>
        pose proof (Hrounds rs s) as H;
        destruct (Aac.encode_rounds cfg rs s) as [acts e]
    end.
    cbn [fst] in *. rewrite writes_release, writes_init_acts. exact H. }
  unfold Aac.step.
  destruct (Aac.it_poll it) as [|e|[|]]; try exact Hread.
  - constructor.
  - destruct (e =? EINTR); constructor.
  - destruct (Aac.it_signal it) as [[| | | | | |]|]; try exact Hread; constructor.
Qed.

(** X24.  No packet of the AAC source thread is longer than the write
    MTU: every one is the 12-byte RTP header, without a media header,
    and at most [mtu_write - 12] bytes of the encoder's output, whether
    it is a whole access unit or a fragment.  (The MTU holds the RTP
    header.) *)
Theorem aac_packets_fit_mtu cfg (st : Aac.state) (its : list Aac.iteration) :
  12 <= Aac.mtu_write cfg < 2 ^ 64 ->
  Forall (fun w => Rtp.w_media w = None /\
                   12 <= Rtp.w_len w <= Aac.mtu_write cfg /\
                   Z.of_nat (List.length (Rtp.w_payload w)) <= Rtp.w_len w - 12)
         (Io.writes (fst (Aac.run cfg st its))).
Proof.
  intros Hm. unfold Aac.run.
  apply (run_inv Aac.state Aac.iteration (Aac.step cfg) (fun _ => True)
           (fun _ => True)); [|exact I|apply Forall_trivial].
  intros st0 it _ _. split; [apply aac_step_fits; exact Hm|auto].
Qed.

Lemma aac_packets_fit_mtu_witness :
  Forall (fun w => Rtp.w_media w = None /\
                   12 <= Rtp.w_len w <= Aac.mtu_write Sample.aac_cfg /\
                   Z.of_nat (List.length (Rtp.w_payload w)) <= Rtp.w_len w - 12)
         (Io.writes (fst (Aac.run Sample.aac_cfg Sample.aac_st
                            [Sample.aac_full; Sample.aac_full]))).
Proof.
  apply aac_packets_fit_mtu. vm_compute. split; [discriminate|reflexivity].
Defined.

(** ** Theorems: muting *)

Module MuteFacts.

Import Floats.

Lemma scale_sample_zero_all :
  forallb (fun s => Scale.scale_sample 0%float s =? 0) Scale.all_int16 = true.
Proof. vm_compute. reflexivity. Qed.

Lemma scale_sample_zero (s : Z) :
  Scale.is_int16 s -> Scale.scale_sample 0%float s = 0.
Proof.
  intros H. apply Z.eqb_eq.
  exact (proj1 (forallb_forall _ _) scale_sample_zero_all s
           (ScaleFacts.all_int16_complete s H)).
Qed.

Lemma scale_from_zero (channels : Z) (buffer : list Z) (i : nat) :
  Forall Scale.is_int16 buffer ->
  Scale.scale_from i channels 0%float 0%float buffer = map (fun _ => 0) buffer.
Proof.
  intros H. revert i. induction H as [|s rest Hs _ IH]; intros i;
    cbn [Scale.scale_from map]; [reflexivity|].
  rewrite IH. f_equal.
  destruct (channels =? 1); [|destruct (Nat.even i)]; now apply scale_sample_zero.
Qed.

(** X25.  With both channels muted, scaling turns every 16-bit sample
    into 0, whatever the volume levels are and whatever the C library's
    [pow] computes: the factor of a muted channel is 0 and [pow] is not
    consulted for it. *)
Theorem muted_scaling_is_silence
  (pow : PrimFloat.float -> PrimFloat.float -> PrimFloat.float)
  (t : Scale.a2dp_volume) (buffer : list Z) (channels : Z) :
  Scale.ch1_muted t = true -> Scale.ch2_muted t = true ->
  Forall Scale.is_int16 buffer ->
  Scale.io_thread_scale_pcm pow t buffer channels = map (fun _ => 0) buffer.
Proof.
  intros Hm1 Hm2 Hbuf.
  unfold Scale.io_thread_scale_pcm, Scale.snd_pcm_scale_s16le.
  rewrite Hm1, Hm2. cbn [negb]. now apply scale_from_zero.
Qed.

Lemma muted_scaling_is_silence_witness :
  Scale.io_thread_scale_pcm Scale.pow_at_zero
    (Scale.mkVolume true true 127 50) [-32768; -1; 0; 1; 32767] 2
  = map (fun _ => 0) [-32768; -1; 0; 1; 32767].
Proof.
  apply muted_scaling_is_silence; try reflexivity.
  repeat (apply Forall_cons;
          [unfold Scale.is_int16, Scale.INT16_MIN, Scale.INT16_MAX; lia|]).
  apply Forall_nil.
Defined.

End MuteFacts.

(** ** Theorems: why the AAC and LDAC threads end *)

Lemma fatal_write_app_l (a b : list Io.action) :
  Stream.fatal_write a -> Stream.fatal_write (a ++ b).
Proof.
  intros (w & Hin & H). exists w. split; [apply in_or_app; left; exact Hin|exact H].
Qed.

Lemma fatal_write_app_r (a b : list Io.action) :
  Stream.fatal_write b -> Stream.fatal_write (a ++ b).
Proof.
  intros (w & Hin & H). exists w. split; [apply in_or_app; right; exact Hin|exact H].
Qed.

Lemma aac_fragment_loop_disconnected cfg (envs : list Rtp.bt_env) :
  forall (s s' : Aac.sender) (buffer : list byte) (payload_len frames : Z)
         (ws : list Rtp.bt_write),
    Aac.fragment_loop cfg envs s buffer payload_len frames
    = (ws, (Aac.FragDisconnected, s')) ->
    Stream.fatal_write (map Io.BtWrite ws).
Proof.
  induction envs as [|env rest IH]; intros s s' buffer payload_len frames ws;
    cbn [Aac.fragment_loop]; [discriminate|].
  destruct (Rtp.io_thread_write_bt _ _ _ _ _) as [[[ret e] q]|]; [|discriminate].
  destruct (Z.eqb_spec ret (-1)) as [Er|_].
  - destruct (Io.is_disconnect e) eqn:Ed; [|discriminate].
    intros [= <- _]. eexists. split; [left; reflexivity|].
    cbn [Rtp.w_ret Rtp.w_errno]. auto.
  - destruct (u64 (payload_len - (ret - Rtp.RTP_HEADER_LEN)) =? 0); [discriminate|].
    match goal with
    | |- context [Aac.fragment_loop cfg rest ?s1 ?b1 ?l1 frames] =>
        specialize (IH s1 s' b1 l1 frames);
        destruct (Aac.fragment_loop cfg rest s1 b1 l1 frames) as [ws1 [fe s2]]
    end.
    intros [= <- -> ->]. specialize (IH ws1 eq_refl).
    cbn [map]. apply (fatal_write_app_r [_]). exact IH.
Qed.

Lemma aac_encode_rounds_exit cfg (rounds : list Aac.round) :
  forall st st' : Aac.state,
    snd (Aac.encode_rounds cfg rounds st) = Io.Exit st' ->
    Stream.fatal_write (fst (Aac.encode_rounds cfg rounds st)).
Proof.
  induction rounds as [|r rest IH]; intros st st'; cbn [Aac.encode_rounds].
  - destruct (_ >? 0); discriminate.
  - destruct (_ >? 0); [|discriminate].
    assert (Hround : forall s1, snd (Aac.encode_round cfg st r) = Io.Exit s1 ->
                                Stream.fatal_write (fst (Aac.encode_round cfg st r))).
    { intros s1. unfold Aac.encode_round.
      destruct (Aac.numOutBytes (Aac.r_encoded r) >? 0).
      - match goal with
        | |- context [Aac.fragment_loop cfg ?envs ?s0 ?b0 ?l0 ?f0] =>
            pose proof (fun s2 ws => aac_fragment_loop_disconnected cfg envs s0 s2 b0 l0 f0 ws)
              as Hd;
            destruct (Aac.fragment_loop cfg envs s0 b0 l0 f0) as [ws [fe s2]]
        end.
        destruct fe; cbn [fst snd]; try discriminate.
        intros _. exact (Hd s2 ws eq_refl).
      - cbn [fst snd]. discriminate. }
    destruct (Aac.encode_round cfg st r) as [acts [s1| |]]; cbn [fst snd] in *.
    + specialize (IH s1 st').
      destruct (Aac.encode_rounds cfg rest s1) as [acts' e']. cbn [fst snd] in *.
      intros E. apply fatal_write_app_r. exact (IH E).
    + intros _. exact (Hround st0 eq_refl).
    + discriminate.
Qed.

Lemma ldac_encode_loop_exit cfg (encodes : list (Ldac.ldac_encoded * Rtp.bt_env)) :
  forall (st st' : Ldac.state) (input_len left : Z) (acts : list Io.action),
    Ldac.encode_loop cfg encodes st input_len = (acts, (Io.Exit st', left)) ->
    Stream.fatal_write acts.
Proof.
  induction encodes as [|[e env] rest IH]; intros st st' input_len left acts;
    cbn [Ldac.encode_loop].
  - destruct (_ >=? _); discriminate.
  - destruct (_ >=? _); [|discriminate].
    destruct (negb (Ldac.enc_rc e =? 0)); [discriminate|].
    destruct (Z.of_nat (List.length (Ldac.enc_out e)) =? 0) eqn:E0.
    + cbn [Z.eqb andb map app].
      match goal with
      | |- context [Ldac.encode_loop cfg rest ?s1 ?l1] =>
          specialize (IH s1 st' l1 left);
          destruct (Ldac.encode_loop cfg rest s1 l1) as [acts1 res]
      end.
      intros [= <- ->]. apply (fatal_write_app_r [_]). exact (IH acts1 eq_refl).
    + destruct (Rtp.io_thread_write_bt _ _ _ _ _) as [[[ret e'] q]|]; [|discriminate].
      destruct (Z.eqb_spec ret (-1)) as [Er|_]; cbn [andb].
      * destruct (Io.is_disconnect e') eqn:Ed.
        -- intros [= <- _ _]. eexists. split; [left; reflexivity|].
           cbn [Rtp.w_ret Rtp.w_errno]. auto.
        -- match goal with
           | |- context [Ldac.encode_loop cfg rest ?s1 ?l1] =>
               specialize (IH s1 st' l1 left);
               destruct (Ldac.encode_loop cfg rest s1 l1) as [acts1 res]
           end.
           intros [= <- ->]. cbn [map app].
           apply (fatal_write_app_r [_; _]). exact (IH acts1 eq_refl).
      * match goal with
        | |- context [Ldac.encode_loop cfg rest ?s1 ?l1] =>
            specialize (IH s1 st' l1 left);
            destruct (Ldac.encode_loop cfg rest s1 l1) as [acts1 res]
        end.
        intros [= <- ->]. cbn [map app].
        apply (fatal_write_app_r [_; _]). exact (IH acts1 eq_refl).
Qed.

(** X26.  An iteration of the AAC source thread leaves the loop for the
    same four reasons as the SBC thread, and for no other: a poll that
    timed out while no client holds the PCM, a poll that failed with an
    error other than [EINTR], a read of the FIFO that failed with an error
    other than [EAGAIN], or a write on the BT socket, of a whole access
    unit or of any of its fragments, that failed with [ECONNRESET] or
    [ENOTCONN]. *)
Theorem aac_thread_exit_causes cfg (st st' : Aac.state) (it : Aac.iteration) :
  snd (Aac.step cfg st it) = Io.Exit st' ->
  Stream.exit_cause (Aac.it_poll it) (Aac.it_pcm_closed it) (Aac.it_reads it)
                    (Aac.errno st) (fst (Aac.step cfg st it)).
Proof.
  unfold Stream.exit_cause.
  assert (Hread : snd (Aac.read_and_send cfg st it) = Io.Exit st' ->
    (exists r, Fifo.io_thread_read_pcm (Aac.it_reads it) (Aac.errno st) = Some r /\
               Fifo.ret r = -1 /\ Fifo.errno_out r <> EAGAIN) \/
    Stream.fatal_write (fst (Aac.read_and_send cfg st it))).
  { unfold Aac.read_and_send.
    destruct (Fifo.io_thread_read_pcm _ _) as [r|]; [|discriminate].
    destruct (Fifo.ret r =? 0); [discriminate|].
    destruct (Z.eqb_spec (Fifo.ret r) (-1)) as [E1|_].
    { destruct (Z.eqb_spec (Fifo.errno_out r) EAGAIN); [discriminate|].
      intros _. left. exists r. auto. }
    match goal with
    | |- context [Aac.encode_rounds cfg ?rs ?s] =>
        pose proof (aac_encode_rounds_exit cfg rs s st') as H;
        destruct (Aac.encode_rounds cfg rs s) as [acts e]
    end.
    cbn [fst snd] in *. intros E. right.
    apply fatal_write_app_r, fatal_write_app_r. exact (H E). }
  unfold Aac.step.
  destruct (Aac.it_poll it) as [|e|[|]].
  - cbn [snd]. destruct (Aac.it_pcm_closed it); [|discriminate]. auto.
  - destruct (Z.eqb_spec e EINTR); [discriminate|]. intros _. right. left. eauto.
  - destruct (Aac.it_signal it) as [[| | | | | |]|]; try discriminate.
    intros H. right. right. exact (Hread H).
  - intros H. right. right. exact (Hread H).
Qed.

Lemma aac_thread_exit_causes_witness :
  let it := Aac.mkIteration (Io.PollReady false) false None [Fifo.ReadBytes 4096]
              [Aac.mkRound (Aac.mkEncoded 2048 Sample.aac_payload)
                           [Sample.accept;
                            Rtp.mkBtEnv (Some 0) [Rtp.WriteFail ECONNRESET]]] in
  Stream.exit_cause (Aac.it_poll it) (Aac.it_pcm_closed it) (Aac.it_reads it)
                    (Aac.errno Sample.aac_st)
                    (fst (Aac.step Sample.aac_cfg Sample.aac_st it)).
Proof.
  intros it.
  apply (aac_thread_exit_causes Sample.aac_cfg Sample.aac_st
           (match snd (Aac.step Sample.aac_cfg Sample.aac_st it) with
            | Io.Exit s => s
            | _ => Sample.aac_st
            end) it).
  vm_compute. reflexivity.
Defined.

(** X27.  An iteration of the LDAC source thread leaves the loop for the
    same four reasons, and for no other: a poll that timed out while no
    client holds the PCM, a poll that failed with an error other than
    [EINTR], a read of the FIFO that failed with an error other than
    [EAGAIN], or a write on the BT socket that failed with [ECONNRESET] or
    [ENOTCONN]. *)
Theorem ldac_thread_exit_causes cfg (st st' : Ldac.state) (it : Ldac.iteration) :
  snd (Ldac.step cfg st it) = Io.Exit st' ->
  Stream.exit_cause (Ldac.it_poll it) (Ldac.it_pcm_closed it) (Ldac.it_reads it)
                    (Ldac.errno st) (fst (Ldac.step cfg st it)).
Proof.
  unfold Stream.exit_cause.
  assert (Hread : snd (Ldac.read_and_send cfg st it) = Io.Exit st' ->
    (exists r, Fifo.io_thread_read_pcm (Ldac.it_reads it) (Ldac.errno st) = Some r /\
               Fifo.ret r = -1 /\ Fifo.errno_out r <> EAGAIN) \/
    Stream.fatal_write (fst (Ldac.read_and_send cfg st it))).
  { unfold Ldac.read_and_send.
    destruct (Fifo.io_thread_read_pcm _ _) as [r|]; [|discriminate].
    destruct (Fifo.ret r =? 0); [discriminate|].
    destruct (Z.eqb_spec (Fifo.ret r) (-1)) as [E1|_].
    { destruct (Z.eqb_spec (Fifo.errno_out r) EAGAIN); [discriminate|].
      intros _. left. exists r. auto. }
    match goal with
    | |- context [Ldac.encode_loop cfg ?es ?s ?l] =>
        pose proof (fun left acts => ldac_encode_loop_exit cfg es s st' l left acts) as H;
        destruct (Ldac.encode_loop cfg es s l) as [acts [[s1|s1|s1] left]]
    end; cbn [fst snd]; try discriminate.
    intros [= ->]. right.
    apply fatal_write_app_r, fatal_write_app_r. exact (H left acts eq_refl). }
  unfold Ldac.step.
  destruct (Ldac.it_poll it) as [|e|[|]].
  - cbn [snd]. destruct (Ldac.it_pcm_closed it); [|discriminate]. auto.
  - destruct (Z.eqb_spec e EINTR); [discriminate|]. intros _. right. left. eauto.
  - destruct (Ldac.it_signal it) as [[| | | | | |]|]; try discriminate.
    intros H. right. right. exact (Hread H).
  - intros H. right. right. exact (Hread H).
Qed.

Lemma ldac_thread_exit_causes_witness :
  let it := Ldac.mkIteration (Io.PollReady false) false None [Fifo.ReadBytes 512]
              [(Ldac.mkEncoded 0 512 (repeat xaa 20) 1,
                Rtp.mkBtEnv (Some 0) [Rtp.WriteFail ENOTCONN])] in
  Stream.exit_cause (Ldac.it_poll it) (Ldac.it_pcm_closed it) (Ldac.it_reads it)
                    (Ldac.errno Sample.ldac_st)
                    (fst (Ldac.step Sample.ldac_cfg Sample.ldac_st it)).
Proof.
  intros it.
  apply (ldac_thread_exit_causes Sample.ldac_cfg Sample.ldac_st
           (match snd (Ldac.step Sample.ldac_cfg Sample.ldac_st it) with
            | Io.Exit s => s
            | _ => Sample.ldac_st
            end) it).
  vm_compute. reflexivity.
Defined.

(** ** Theorems: the LATM buffer after a failed decode *)

Lemma aac_packet_decodes (mtu : Z) (st : Sink.aac_state) (p : Sink.packet)
  (d : Sink.aac_decoded) (acc : list byte) :
  0 <= Sink.markbit_quirk st -> Sink.latm_holds st acc ->
  Sink.markbit_quirk st = 1 \/ Rtp.markbit (Sink.p_header p) = true ->
  Z.of_nat (List.length (Sink.p_payload p)) <= mtu ->
  Z.of_nat (List.length (acc ++ Sink.p_payload p)) < 2 ^ 32 ->
  (forall frameSize numChannels,
     Stream.decoded_ok d = true ->
     Sink.stream_info d = Some (frameSize, numChannels) ->
     Pcm.io_thread_write_pcm (Sink.aac_returns d) (Sink.aac_pcm d)
                             (u64 (frameSize * numChannels)) 0 <> None) ->
  exists evs st',
    Sink.aac_packet mtu st p d = (evs, Io.Continue st') /\
    Sink.decoder_inputs evs = [acc ++ Sink.p_payload p] /\
    Sink.markbit_quirk st' = Sink.markbit_quirk st /\
    Sink.latm_holds st' (if Stream.decoded_ok d then [] else acc ++ Sink.p_payload p).
Proof.
  intros Hq (Hb & Hlen & Hacc) Htrig Hfit Hsmall Hpcm. unfold Sink.aac_packet.
  assert (Hmb : Sink.track_markbit (Sink.markbit_quirk st) (Rtp.markbit (Sink.p_header p))
                = ([], Sink.markbit_quirk st)).
  { unfold Sink.track_markbit. destruct (Z.ltb_spec (Sink.markbit_quirk st) 0); [lia|].
    reflexivity. }
  rewrite Hmb.
  pose proof (track_seq_inputs (Sink.a_seq_number st)
                (Rtp.seq_number (Sink.p_header p))) as Hs.
  destruct (Sink.track_seq _ _) as [ws s]. cbn [fst] in Hs.
  pose proof (latm_append_holds mtu (Sink.latm st) (Sink.latm_data st) acc
                (Sink.p_payload p) Hb Hlen Hacc Hfit) as Ha.
  destruct (Sink.latm_append _ _ _ _) as [b data].
  assert (Htr : negb (Sink.markbit_quirk st =? 1)
                && negb (Rtp.markbit (Sink.p_header p)) = false).
  { destruct Htrig as [-> | ->]; [reflexivity|apply andb_false_r]. }
  rewrite Htr.
  assert (Hin : firstn (Z.to_nat (u32 (Ffb.ffb_len_out b))) data
                = acc ++ Sink.p_payload p).
  { destruct Ha as (Hb' & Hlen' & Hdata).
    unfold u32. rewrite Z.mod_small by lia. rewrite Hlen', Nat2Z.id. exact Hdata. }
  rewrite Hin. cbn [app].
  assert (Hw : forall tail,
             Sink.decoder_inputs (ws ++ Sink.Decode (acc ++ Sink.p_payload p) :: tail)
             = (acc ++ Sink.p_payload p) :: Sink.decoder_inputs tail).
  { intros tail. rewrite decoder_inputs_app, Hs. reflexivity. }
  unfold Stream.decoded_ok in *.
  destruct (Sink.fill_ok d); cbn [negb andb] in *;
    [|eexists _, _; split; [reflexivity|split; [apply Hw|split; [reflexivity|exact Ha]]]].
  destruct (Sink.frame_ok d); cbn [negb andb] in *;
    [|eexists _, _; split; [reflexivity|split; [apply Hw|split; [reflexivity|exact Ha]]]].
  destruct (Sink.stream_info d) as [[fs nc]|];
    [|eexists _, _; split; [reflexivity|split; [apply Hw|split; [reflexivity|exact Ha]]]].
  specialize (Hpcm fs nc eq_refl eq_refl).
  destruct (Pcm.io_thread_write_pcm _ _ _ _) as [r|]; [|congruence].
  eexists _, _. split; [reflexivity|]. split; [apply Hw|]. split; [reflexivity|].
  unfold Sink.latm_holds, Sink.ffb_rewind, Ffb.ffb_len_out.
  cbn [Sink.latm Sink.latm_data Ffb.size Ffb.len_out List.length firstn].
  destruct Ha as (Hb' & _). unfold Ffb.ffb_len_out in Hb'.
  repeat split; lia.
Qed.

(** X28.  The AAC sink thread empties its LATM buffer only after a call
    of the decoder that succeeded.  Of two datagrams that each make the
    thread call the decoder (the mark bit is set, or the workaround is
    on), the first is decoded as it came, after what the buffer held; the
    second is decoded alone when the three decoder calls for the first
    succeeded, and behind the bytes of the first, handed to the decoder
    again, when one of them failed. *)
Theorem aac_sink_keeps_undecoded (payloadcheck : bool) (mtu_read : Z)
  (st : Sink.aac_state) (it1 it2 : Sink.aac_iteration) (p q : Sink.packet)
  (acc : list byte) :
  Sink.aac_reads payloadcheck [it1; it2] [p; q] ->
  0 <= Sink.markbit_quirk st -> Sink.latm_holds st acc ->
  (Sink.markbit_quirk st = 1 \/
   (Rtp.markbit (Sink.p_header p) = true /\ Rtp.markbit (Sink.p_header q) = true)) ->
  Z.of_nat (List.length (Sink.p_payload p)) <= mtu_read ->
  Z.of_nat (List.length (Sink.p_payload q)) <= mtu_read ->
  Z.of_nat (List.length (acc ++ Sink.p_payload p ++ Sink.p_payload q)) < 2 ^ 32 ->
  (forall d frameSize numChannels,
     In d [Sink.ak_decoded it1; Sink.ak_decoded it2] ->
     Stream.decoded_ok d = true ->
     Sink.stream_info d = Some (frameSize, numChannels) ->
     Pcm.io_thread_write_pcm (Sink.aac_returns d) (Sink.aac_pcm d)
                             (u64 (frameSize * numChannels)) 0 <> None) ->
  Sink.decoder_inputs (fst (Sink.aac_run payloadcheck mtu_read st [it1; it2]))
  = [acc ++ Sink.p_payload p;
     (if Stream.decoded_ok (Sink.ak_decoded it1) then []
      else acc ++ Sink.p_payload p) ++ Sink.p_payload q].
Proof.
  intros Hreads Hq Hholds Htrig Hfp Hfq Hsmall Hpcm.
  unfold Sink.aac_reads in Hreads.
  apply Forall2_cons_iff in Hreads as [Hp Hreads].
  apply Forall2_cons_iff in Hreads as [Hq2 _].
  rewrite !length_app in Hsmall.
  unfold Sink.aac_run. cbn [Loop.run].
  rewrite (aac_step_received payloadcheck mtu_read st it1 p Hp).
  destruct (aac_packet_decodes mtu_read st p (Sink.ak_decoded it1) acc Hq Hholds)
    as (evs1 & st1 & E1 & Hin1 & Hq1 & Hh1).
  { destruct Htrig as [H|[H _]]; auto. }
  { exact Hfp. }
  { rewrite length_app. lia. }
  { intros fs nc. apply Hpcm. left. reflexivity. }
  rewrite E1.
  rewrite (aac_step_received payloadcheck mtu_read st1 it2 q Hq2).
  destruct (aac_packet_decodes mtu_read st1 q (Sink.ak_decoded it2) _
              ltac:(rewrite Hq1; exact Hq) Hh1)
    as (evs2 & st2 & E2 & Hin2 & _ & _).
  { rewrite Hq1. destruct Htrig as [H|[_ H]]; auto. }
  { exact Hfq. }
  { destruct (Stream.decoded_ok _); rewrite ?length_app; cbn [List.length]; lia. }
  { intros fs nc. apply Hpcm. right. left. reflexivity. }
  rewrite E2. cbn [fst]. rewrite app_nil_r, decoder_inputs_app, Hin1, Hin2.
  reflexivity.
Qed.

Lemma aac_sink_keeps_undecoded_witness :
  let p := SinkSample.datagram 7 true [x01; x02] in
  let q := SinkSample.datagram 8 true [x03] in
  let it1 := Sink.mkAacIteration (Io.PollReady false) (Sink.BtPacket p) 5
                                 SinkSample.no_decode in
  let it2 := Sink.mkAacIteration (Io.PollReady false) (Sink.BtPacket q) 5
                                 SinkSample.no_decode in
  Sink.decoder_inputs (fst (Sink.aac_run true 24 SinkSample.aac_st [it1; it2]))
  = [[x01; x02]; [x01; x02; x03]].
Proof.
  intros p q it1 it2.
  apply (aac_sink_keeps_undecoded true 24 SinkSample.aac_st it1 it2 p q []).
  - repeat (apply Forall2_cons; [reflexivity|]). apply Forall2_nil.
  - vm_compute. discriminate.
  - vm_compute. repeat split; discriminate.
  - right. split; reflexivity.
  - vm_compute. discriminate.
  - vm_compute. discriminate.
  - vm_compute. reflexivity.
  - intros d fs nc [<-|[<-|[]]]; discriminate.
Defined.

(** ** Theorems: AAC fragments and refused packets *)

Lemma write_bt_outcome (ci : Z) (env : Rtp.bt_env) (len e0 q0 : Z) :
  Rtp.write_completes (Rtp.write_returns env) = true ->
  (Aac.accepts env /\
   exists e q, Rtp.io_thread_write_bt ci env len e0 q0 = Some (len, e, q)) \/
  (~ Aac.accepts env /\
   exists e q, Rtp.io_thread_write_bt ci env len e0 q0 = Some (-1, e, q)).
Proof.
  intros Hc.
  destruct (write_bt_completes ci env len e0 q0 Hc) as (ret & e & q & Ew).
  pose proof (@write_bt_ret _ _ _ _ _ _ _ _ Ew) as Hret. unfold Aac.accepts.
  destruct (Rtp.write_succeeds (Rtp.write_returns env)); subst ret.
  - left. split; [reflexivity|]. eauto.
  - right. split; [discriminate|]. eauto.
Qed.

(** What the fragments of a payload have in common, refused or not. *)
Lemma aac_fragment_loop_cases cfg (envs : list Rtp.bt_env) :
  forall (s : Aac.sender) (buffer : list byte) (frames : Z),
  Forall (fun env => Rtp.write_completes (Rtp.write_returns env) = true) envs ->
  0 < Aac.payload_len_max cfg ->
  0 < Z.of_nat (List.length buffer) < 2 ^ 64 ->
  Z.of_nat (List.length buffer)
  <= Aac.payload_len_max cfg * Z.of_nat (List.length envs) ->
  exists ws fe s',
    Aac.fragment_loop cfg envs s buffer (Z.of_nat (List.length buffer)) frames
    = (ws, (fe, s')) /\
    Forall (fun w => Rtp.timestamp (Rtp.w_header w) = Rtp.timestamp (Aac.s_header s) /\
                     Rtp.RTP_HEADER_LEN < Rtp.w_len w)
           ws /\
    Aac.s_seq_number s' = u16 (Aac.s_seq_number s + Z.of_nat (List.length ws)) /\
    ((fe = Aac.FragDone /\
      Forall Stream.taken ws /\
      Aac.fragmented (Aac.payload_len_max cfg) ws /\
      List.concat (map Rtp.w_payload ws) = buffer /\
      Z.of_nat (List.length ws)
      = (Z.of_nat (List.length buffer) + Aac.payload_len_max cfg - 1)
        / Aac.payload_len_max cfg) \/
     (exists firsts last,
        ws = firsts ++ [last] /\
        Stream.refused last /\
        fe = (if Io.is_disconnect (Rtp.w_errno last)
              then Aac.FragDisconnected else Aac.FragDone) /\
        Forall (Stream.full_fragment (Aac.payload_len_max cfg)) firsts /\
        List.concat (map Rtp.w_payload firsts)
        = firstn (Z.to_nat (Aac.payload_len_max cfg * Z.of_nat (List.length firsts)))
                 buffer /\
        Aac.payload_len_max cfg * Z.of_nat (List.length firsts)
        < Z.of_nat (List.length buffer) /\
        ~ Forall Aac.accepts envs)).
Proof.
  set (M := Aac.payload_len_max cfg).
  induction envs as [|env rest IH]; intros s buffer frames Hcomp HM HL Henough.
  { cbn [List.length Z.of_nat] in Henough. lia. }
  apply Forall_cons_iff in Hcomp as [Henv Hrest].
  cbn [Aac.fragment_loop]. fold M.
  set (L := Z.of_nat (List.length buffer)) in *.
  assert (Hrefuse : forall (w : Rtp.bt_write),
    ~ Aac.accepts env -> Rtp.w_ret w = -1 ->
    exists firsts last,
      [w] = firsts ++ [last] /\ Stream.refused last /\
      (if Io.is_disconnect (Rtp.w_errno w) then Aac.FragDisconnected else Aac.FragDone)
      = (if Io.is_disconnect (Rtp.w_errno last)
         then Aac.FragDisconnected else Aac.FragDone) /\
      Forall (Stream.full_fragment M) firsts /\
      List.concat (map Rtp.w_payload firsts)
      = firstn (Z.to_nat (M * Z.of_nat (List.length firsts))) buffer /\
      M * Z.of_nat (List.length firsts) < L /\
      ~ Forall Aac.accepts (env :: rest)).
  { intros w Hno Hret. exists [], w.
    split; [reflexivity|]. split; [exact Hret|]. split; [reflexivity|].
    split; [constructor|]. cbn [List.length Z.of_nat map List.concat].
    rewrite Z.mul_0_r. cbn [Z.to_nat firstn]. split; [reflexivity|].
    split; [lia|]. intros Hall. apply Forall_cons_iff in Hall as [Ha _].
    exact (Hno Ha). }
  destruct (Z.gtb_spec L M) as [Hbig|Hsmall].
  - (* a full fragment *)
    destruct (Z.leb_spec L M) as [?|_]; [lia|].
    destruct (@write_bt_outcome (Aac.coutq_init cfg) env (Rtp.RTP_HEADER_LEN + M)
                (Aac.s_errno s) 0 Henv)
      as [(Hacc & e' & q' & Ew)|(Hno & e' & q' & Ew)]; rewrite Ew.
    + destruct (Z.eqb_spec (Rtp.RTP_HEADER_LEN + M) (-1)) as [E|_];
        [unfold Rtp.RTP_HEADER_LEN in E; lia|].
      replace (Rtp.RTP_HEADER_LEN + M - Rtp.RTP_HEADER_LEN) with M by ring.
      assert (Hlen' : Z.of_nat (List.length (skipn (Z.to_nat M) buffer)) = L - M).
      { rewrite length_skipn. subst L. lia. }
      replace (u64 (L - M)) with (Z.of_nat (List.length (skipn (Z.to_nat M) buffer)))
        by (rewrite Hlen'; unfold u64; rewrite Z.mod_small; lia).
      destruct (Z.eqb_spec (Z.of_nat (List.length (skipn (Z.to_nat M) buffer))) 0)
        as [E|_]; [lia|].
      assert (Hfirst : Z.of_nat (List.length (firstn (Z.to_nat M) buffer)) = M).
      { rewrite length_firstn. subst L. lia. }
      match goal with
      | |- context [Aac.fragment_loop cfg rest ?s1 ?b1 _ frames] =>
          destruct (IH s1 b1 frames Hrest HM) as
            (ws & fe & s' & Ef & Hts & Hseq & Hcases);
          [lia|rewrite Hlen'; cbn [List.length] in Henough;
               rewrite Nat2Z.inj_succ in Henough; lia|]
      end.
      rewrite Ef. eexists _, fe, s'. split; [reflexivity|].
      split; [|split].
      * constructor; [split; [reflexivity|cbn [Rtp.w_len]; lia]|]. exact Hts.
      * rewrite Hseq. cbn [Aac.s_seq_number List.length]. unfold u16.
        rewrite Zplus_mod_idemp_l. f_equal. lia.
      * destruct Hcases as [(Hfe & Htaken & Hfrag & Hcat & Hcount)
                           |(firsts & last & Ews & Href & Hfe & Hfull & Hcat & Hlt & Hno)].
        -- left. split; [exact Hfe|]. split; [|split; [|split]].
           ++ constructor; [reflexivity|exact Htaken].
           ++ cbn [Aac.fragmented]. destruct ws as [|w' ws']; [destruct Hfrag|].
              cbn [Rtp.w_header Rtp.markbit Rtp.w_payload].
              split; [reflexivity|]. split; assumption.
           ++ cbn [map List.concat Rtp.w_payload]. rewrite Hcat. apply firstn_skipn.
           ++ cbn [List.length]. rewrite Nat2Z.inj_succ, Hcount, Hlen'.
              replace (L + M - 1) with (L - M + M - 1 + 1 * M) by ring.
              rewrite Z.div_add by lia. lia.
        -- right. eexists (_ :: firsts), last. split; [rewrite Ews; reflexivity|].
           split; [exact Href|]. split; [exact Hfe|]. split; [|split; [|split]].
           ++ constructor; [|exact Hfull]. unfold Stream.full_fragment, Stream.taken.
              cbn [Rtp.w_ret Rtp.w_len Rtp.w_header Rtp.markbit Rtp.w_payload].
              repeat split. exact Hfirst.
           ++ cbn [map List.concat Rtp.w_payload List.length]. rewrite Hcat.
              rewrite firstn_skipn_firstn. f_equal.
              rewrite Nat2Z.inj_succ. nia.
           ++ cbn [List.length]. rewrite Nat2Z.inj_succ. rewrite Hlen' in Hlt. nia.
           ++ intros Hall. apply Forall_cons_iff in Hall as [_ Hall]. exact (Hno Hall).
    + cbn [Z.eqb]. eexists _, _, _. split; [reflexivity|].
      split; [constructor; [split; [reflexivity|cbn [Rtp.w_len]; lia]|constructor]|].
      split; [reflexivity|]. right.
      refine (Hrefuse (Rtp.mkWrite _ _ _ _ _ _ _) Hno eq_refl).
  - (* the last fragment *)
    destruct (Z.leb_spec L M) as [_|?]; [|lia].
    destruct (@write_bt_outcome (Aac.coutq_init cfg) env (Rtp.RTP_HEADER_LEN + L)
                (Aac.s_errno s) 0 Henv)
      as [(Hacc & e' & q' & Ew)|(Hno & e' & q' & Ew)]; rewrite Ew.
    + destruct (Z.eqb_spec (Rtp.RTP_HEADER_LEN + L) (-1)) as [E|_];
        [unfold Rtp.RTP_HEADER_LEN in E; lia|].
      replace (Rtp.RTP_HEADER_LEN + L - Rtp.RTP_HEADER_LEN) with L by ring.
      replace (u64 (L - L)) with 0 by (now rewrite Z.sub_diag).
      cbn [Z.eqb]. eexists _, _, _. split; [reflexivity|].
      assert (Hall : firstn (Z.to_nat L) buffer = buffer).
      { subst L. rewrite Nat2Z.id. apply firstn_all. }
      split; [constructor; [split; [reflexivity|cbn [Rtp.w_len]; lia]|constructor]|].
      split; [reflexivity|]. left. split; [reflexivity|].
      split; [constructor; [reflexivity|constructor]|]. split; [|split].
      * cbn [Aac.fragmented Rtp.w_header Rtp.markbit Rtp.w_payload].
        rewrite Hall. fold L. split; [reflexivity|lia].
      * cbn [map List.concat Rtp.w_payload]. rewrite Hall. apply app_nil_r.
      * cbn [List.length]. change (Z.of_nat 1) with 1.
        apply Z.div_unique with (r := L - 1); lia.
    + cbn [Z.eqb]. eexists _, _, _. split; [reflexivity|].
      split; [constructor; [split; [reflexivity|cbn [Rtp.w_len]; lia]|constructor]|].
      split; [reflexivity|]. right.
      refine (Hrefuse (Rtp.mkWrite _ _ _ _ _ _ _) Hno eq_refl).
Qed.

Lemma taken_on_wire (w : Rtp.bt_write) :
  Stream.taken w -> Rtp.RTP_HEADER_LEN < Rtp.w_len w -> Stream.on_wire w = true.
Proof.
  unfold Stream.taken, Stream.on_wire, Rtp.RTP_HEADER_LEN. intros -> H.
  destruct (Z.eqb_spec (Rtp.w_len w) (-1)); [lia|reflexivity].
Qed.

Lemma refused_off_wire (w : Rtp.bt_write) :
  Stream.refused w -> Stream.on_wire w = false.
Proof. unfold Stream.refused, Stream.on_wire. intros ->. reflexivity. Qed.

(** C5 (counterexample).  The encoder's output of 30 bytes needs three
    packets of at most 12 payload bytes.  The socket takes the first and
    refuses the second with ENOBUFS (105): the thread hands over no third
    packet and goes on with the next audio frame.  No packet carries the
    mark bit, and what was written is the first 12 bytes of the 30. *)
Lemma C5_refused_fragment_ends_the_payload :
  let refuse := Rtp.mkBtEnv (Some 0) [Rtp.WriteFail 105] in
  let r := Aac.mkRound (Aac.mkEncoded 2048 Sample.aac_payload)
                       [Sample.accept; refuse; Sample.accept] in
  let acts := fst (Aac.encode_round Sample.aac_cfg Sample.aac_st r) in
  Aac.payload_len_max Sample.aac_cfg < Aac.numOutBytes (Aac.r_encoded r) /\
  List.length (Io.writes acts) = 2%nat /\
  map (fun w => Rtp.markbit (Rtp.w_header w)) (Io.writes acts) = [false; false] /\
  List.concat (map Rtp.w_payload (Stream.written acts)) = firstn 12 Sample.aac_payload /\
  List.concat (map Rtp.w_payload (Stream.written acts)) <> Sample.aac_payload /\
  exists st', snd (Aac.encode_round Sample.aac_cfg Sample.aac_st r) = Io.Continue st'.
Proof.
  cbv zeta. split; [reflexivity|]. split; [vm_compute; reflexivity|].
  split; [vm_compute; reflexivity|]. split; [vm_compute; reflexivity|].
  split; [vm_compute; discriminate|]. eexists. vm_compute. reflexivity.
Qed.

(** C5 (amended).  When the encoder's output for one audio frame is
    longer than [max = mtu_write - RTP_HEADER_LEN], the round hands
    packets to the socket, one sequence number each, all with the round's
    timestamp, until the output is sent or the socket refuses a packet.
    If the socket takes every packet, there are [ceil(len / max)] (at
    least two) of them; their payloads, in order, make up the encoder's
    output; all but the last carry exactly [max] bytes with the mark bit
    clear, the last carries the rest with the mark bit set.  If the socket
    refuses one, that packet is the last handed over: the packets written
    before it are full and have the mark bit clear, so no packet written
    carries the mark bit; they hold a proper prefix of the output and the
    rest is not sent; the thread ends on [ECONNRESET] and [ENOTCONN] and
    goes on to the next audio frame on any other error. *)
Theorem C5_aac_fragmentation cfg st r :
  0 < Aac.payload_len_max cfg ->
  Aac.payload_len_max cfg < Aac.numOutBytes (Aac.r_encoded r) < 2 ^ 64 ->
  Forall (fun env => Rtp.write_completes (Rtp.write_returns env) = true)
         (Aac.r_writes r) ->
  Aac.numOutBytes (Aac.r_encoded r)
  <= Aac.payload_len_max cfg * Z.of_nat (List.length (Aac.r_writes r)) ->
  Aac.timestamp_in_range st ->
  let max := Aac.payload_len_max cfg in
  let out := Aac.bitstream (Aac.r_encoded r) in
  let acts := fst (Aac.encode_round cfg st r) in
  let ending := snd (Aac.encode_round cfg st r) in
  let ws := Io.writes acts in
  Forall (fun w => Rtp.wire_timestamp w = Aac.timestamp st) ws /\
  map Rtp.wire_seq ws = Rtp.seq_numbers_from (Aac.seq_number st + 1) (List.length ws) /\
  Aac.seq_number (Io.final_state ending)
  = u16 (Aac.seq_number st + Z.of_nat (List.length ws)) /\
  ((Stream.written acts = ws /\
    (2 <= List.length ws)%nat /\
    Z.of_nat (List.length ws) = (Aac.numOutBytes (Aac.r_encoded r) + max - 1) / max /\
    List.concat (map Rtp.w_payload ws) = out /\
    Aac.fragmented max ws /\
    exists st', ending = Io.Continue st') \/
   (exists firsts last,
      ws = firsts ++ [last] /\
      Stream.refused last /\
      Stream.written acts = firsts /\
      Forall (Stream.full_fragment max) firsts /\
      List.concat (map Rtp.w_payload firsts)
      = firstn (Z.to_nat (max * Z.of_nat (List.length firsts))) out /\
      max * Z.of_nat (List.length firsts) < Aac.numOutBytes (Aac.r_encoded r) /\
      ~ Forall Aac.accepts (Aac.r_writes r) /\
      exists st', ending = (if Io.is_disconnect (Rtp.w_errno last)
                            then Io.Exit st' else Io.Continue st'))).
Proof.
  intros HM HL Hcomp Henough Hst max out acts ending ws.
  set (s := Aac.mkSender (Aac.stamp st) (Aac.seq_number st) (Aac.coutq_i st)
                         (Aac.errno st)).
  unfold Aac.numOutBytes in HL, Henough.
  destruct (@aac_fragment_loop_cases cfg (Aac.r_writes r) s
              (Aac.bitstream (Aac.r_encoded r))
              (Aac.round_frames cfg (Aac.r_encoded r)) Hcomp HM
              ltac:(lia) Henough)
    as (fs & fe & s' & Ef & Hgen & Hseq & Hcases).
  pose proof (aac_fragment_loop_seq cfg (Aac.r_writes r) s
                (Aac.bitstream (Aac.r_encoded r))
                (Z.of_nat (List.length (Aac.bitstream (Aac.r_encoded r))))
                (Aac.round_frames cfg (Aac.r_encoded r))) as [Hlink _].
  rewrite Ef in Hlink. cbn [fst] in Hlink.
  assert (Eround : Aac.encode_round cfg st r
    = let sent := Aac.mkState (Aac.s_header s') (Aac.s_seq_number s') (Aac.timestamp st)
                              (Aac.poll_timeout st) (Aac.asrs_frames st) (Aac.pcm st)
                              (Aac.s_coutq_i s') (Aac.s_errno s') in
      let frames := Aac.round_frames cfg (Aac.r_encoded r) in
      match fe with
      | Aac.FragStuck => (map Io.BtWrite fs, Io.Stuck sent)
      | Aac.FragDisconnected => (map Io.BtWrite fs, Io.Exit sent)
      | Aac.FragDone =>
          (map Io.BtWrite fs ++ [Io.RtSync frames],
           Io.Continue
             (Aac.mkState (Aac.s_header s') (Aac.s_seq_number s')
                (u32 (Aac.timestamp st + u32 (frames * 10000) / Aac.samplerate cfg))
                (Aac.poll_timeout st) (Aac.asrs_frames st + frames)
                (Ffb.ffb_shift (Aac.pcm st) (Aac.numInSamples (Aac.r_encoded r)))
                (Aac.s_coutq_i s') (Aac.s_errno s')))
      end).
  { unfold Aac.encode_round, Aac.numOutBytes.
    destruct (Z.gtb_spec (Z.of_nat (List.length (Aac.bitstream (Aac.r_encoded r)))) 0)
      as [_|?]; [|lia].
    fold s. rewrite Ef. reflexivity. }
  assert (Ews : ws = fs).
  { subst ws acts. rewrite Eround. cbv zeta.
    destruct fe; cbn [fst]; rewrite ?writes_app, writes_map_BtWrite;
      cbn [Io.writes]; rewrite ?app_nil_r; reflexivity. }
  assert (Ewr : Stream.written acts = filter Stream.on_wire fs).
  { unfold Stream.written. fold ws. rewrite Ews. reflexivity. }
  assert (Eseq : Aac.seq_number (Io.final_state ending) = Aac.s_seq_number s').
  { subst ending. rewrite Eround. cbv zeta. destruct fe; reflexivity. }
  rewrite Ews, Ewr, Eseq. clear Ews Ewr Eseq.
  split; [|split; [|split]].
  - eapply Forall_impl; [|exact Hgen]. intros w [Hts _].
    unfold Rtp.wire_timestamp. rewrite Hts. cbn [s Aac.s_header Aac.stamp Rtp.timestamp].
    apply ntohl_htonl. exact Hst.
  - apply linked_seq_numbers. exact Hlink.
  - rewrite Hseq. reflexivity.
  - destruct Hcases as [(Hfe & Htaken & Hfrag & Hcat & Hcount)
                       |(firsts & last & Efs & Href & Hfe & Hfull & Hcat & Hlt & Hno)].
    + left. split; [|split; [|split; [|split; [|split]]]].
      * apply filter_all. rewrite Forall_forall in *. intros w Hin.
        apply taken_on_wire; [exact (Htaken w Hin)|exact (proj2 (Hgen w Hin))].
      * assert (2 <= Z.of_nat (List.length fs)); [|lia].
        rewrite Hcount. apply Z.div_le_lower_bound; lia.
      * exact Hcount.
      * exact Hcat.
      * exact Hfrag.
      * subst ending. rewrite Eround, Hfe. cbv zeta. eexists. reflexivity.
    + right. exists firsts, last. split; [exact Efs|]. split; [exact Href|].
      split; [|split; [exact Hfull|split; [exact Hcat|split; [exact Hlt|split;
        [exact Hno|]]]]].
      * rewrite Efs, filter_app. cbn [filter].
        rewrite (@refused_off_wire _ Href), app_nil_r.
        apply filter_all. rewrite Forall_forall. intros w Hin.
        apply taken_on_wire.
        -- rewrite Forall_forall in Hfull. exact (proj1 (Hfull w Hin)).
        -- rewrite Forall_forall in Hgen. apply Hgen. rewrite Efs.
           apply in_or_app. left. exact Hin.
      * subst ending. rewrite Eround, Hfe. cbv zeta.
        destruct (Io.is_disconnect (Rtp.w_errno last)); eexists; reflexivity.
Qed.

Lemma C5_aac_fragmentation_witness :
  let refuse := Rtp.mkBtEnv (Some 0) [Rtp.WriteFail 105] in
  let r := Aac.mkRound (Aac.mkEncoded 2048 Sample.aac_payload)
                       [Sample.accept; refuse; Sample.accept] in
  let max := Aac.payload_len_max Sample.aac_cfg in
  let out := Aac.bitstream (Aac.r_encoded r) in
  let acts := fst (Aac.encode_round Sample.aac_cfg Sample.aac_st r) in
  let ending := snd (Aac.encode_round Sample.aac_cfg Sample.aac_st r) in
  let ws := Io.writes acts in
  Forall (fun w => Rtp.wire_timestamp w = Aac.timestamp Sample.aac_st) ws /\
  map Rtp.wire_seq ws
  = Rtp.seq_numbers_from (Aac.seq_number Sample.aac_st + 1) (List.length ws) /\
  Aac.seq_number (Io.final_state ending)
  = u16 (Aac.seq_number Sample.aac_st + Z.of_nat (List.length ws)) /\
  ((Stream.written acts = ws /\
    (2 <= List.length ws)%nat /\
    Z.of_nat (List.length ws) = (Aac.numOutBytes (Aac.r_encoded r) + max - 1) / max /\
    List.concat (map Rtp.w_payload ws) = out /\
    Aac.fragmented max ws /\
    exists st', ending = Io.Continue st') \/
   (exists firsts last,
      ws = firsts ++ [last] /\
      Stream.refused last /\
      Stream.written acts = firsts /\
      Forall (Stream.full_fragment max) firsts /\
      List.concat (map Rtp.w_payload firsts)
      = firstn (Z.to_nat (max * Z.of_nat (List.length firsts))) out /\
      max * Z.of_nat (List.length firsts) < Aac.numOutBytes (Aac.r_encoded r) /\
      ~ Forall Aac.accepts (Aac.r_writes r) /\
      exists st', ending = (if Io.is_disconnect (Rtp.w_errno last)
                            then Io.Exit st' else Io.Continue st'))).
Proof.
  intros refuse r.
  apply (@C5_aac_fragmentation Sample.aac_cfg Sample.aac_st r).
  - reflexivity.
  - vm_compute. split; reflexivity.
  - repeat (apply Forall_cons; [reflexivity|]). apply Forall_nil.
  - vm_compute. discriminate.
  - exact sample_aac_timestamp.
Defined.
